(** * monKEYmash: typing-race client and race coordinator

    A shallow embedding of the TypeScript client
    (components [TypingInterface] and [MultiplayerRace]) and of the race
    coordinator the client talks to, with the properties of the
    specification stated and settled against them. *)

From Stdlib Require Import String Ascii.
From Stdlib Require Import ZArith NArith PeanoNat QArith Qround Qabs Qpower.
From Stdlib Require Import List Permutation Bool Lia Lqa.
Import ListNotations.

Set Implicit Arguments.

(* ================================================================== *)
(** * JavaScript numbers *)
(* ================================================================== *)

(** A JavaScript [number] is an IEEE-754 binary64 value.  Finite values
    are carried as rationals; every arithmetic operation rounds its exact
    result to the nearest binary64 value, ties to even, with gradual
    underflow and overflow to infinity.  The sign of zero is not tracked
    (no operation of the client divides by a zero it computed). *)
Module JsNum.

Local Open Scope Q_scope.

Inductive number : Type :=
| NaN
| PInf
| NInf
| Fin (q : Q).

Definition pow2 (e : Z) : Q := 2 ^ e.

(** Exponent of the binade of a positive rational: the [e] with
    [2^e <= q < 2^(e+1)]. *)
Definition ilog2 (q : Q) : Z :=
  let k := (Z.log2 (Qnum q) - Z.log2 (Zpos (Qden q)))%Z in
  if Qle_bool (pow2 k) q then k else (k - 1)%Z.

(** Nearest integer, ties to even. *)
Definition rne (q : Q) : Z :=
  let f := Qfloor q in
  match ((q - inject_Z f) ?= (1 # 2))%Q with
  | Lt => f
  | Gt => (f + 1)%Z
  | Eq => if Z.even f then f else (f + 1)%Z
  end.

Definition emin : Z := -1022.

(** Exponent used for a positive rational: that of its binade, or the
    smallest normal exponent below it (gradual underflow). *)
Definition expo (a : Q) : Z := Z.max (ilog2 a) emin.

(** Spacing of binary64 values around a positive rational. *)
Definition ulp (a : Q) : Q := pow2 (expo a - 52).

(** Rounding of a positive rational to the binary64 grid. *)
Definition round_pos (a : Q) : Q := inject_Z (rne (a / ulp a)) * ulp a.

Definition rnd64 (q : Q) : number :=
  match q ?= 0 with
  | Eq => Fin 0
  | Gt => let r := round_pos q in
          if Qle_bool (pow2 1024) r then PInf else Fin (Qred r)
  | Lt => let r := round_pos (- q) in
          if Qle_bool (pow2 1024) r then NInf else Fin (Qred (- r))
  end.

Definition of_Z (z : Z) : number := Fin (inject_Z z).
Definition of_nat (n : nat) : number := of_Z (Z.of_nat n).

Definition isNaN (x : number) : bool :=
  match x with NaN => true | _ => false end.

(** [x < y], false as soon as one side is NaN. *)
Definition ltb (x y : number) : bool :=
  match x, y with
  | NaN, _ | _, NaN => false
  | _, NInf => false
  | NInf, _ => true
  | PInf, _ => false
  | Fin _, PInf => true
  | Fin a, Fin b => negb (Qle_bool b a)
  end.

Definition gtb (x y : number) : bool := ltb y x.

(** [x <= y], false as soon as one side is NaN. *)
Definition leb (x y : number) : bool :=
  match x, y with
  | NaN, _ | _, NaN => false
  | NInf, _ => true
  | _, PInf => true
  | _, NInf => false
  | PInf, _ => false
  | Fin a, Fin b => Qle_bool a b
  end.

(** Truthiness of a number: [0] and [NaN] are falsy. *)
Definition truthy (x : number) : bool :=
  match x with
  | NaN => false
  | Fin q => negb (Qeq_bool q 0)
  | _ => true
  end.

Definition Math_max (x y : number) : number :=
  match x, y with
  | NaN, _ | _, NaN => NaN
  | _, _ => if ltb x y then y else x
  end.

Definition Math_min (x y : number) : number :=
  match x, y with
  | NaN, _ | _, NaN => NaN
  | _, _ => if ltb y x then y else x
  end.

(** [Math.round]: nearest integer, ties towards plus infinity. *)
Definition Math_round (x : number) : number :=
  match x with
  | Fin q => Fin (inject_Z (Qfloor (q + (1 # 2))))
  | _ => x
  end.

Definition sign_pos (q : Q) : bool := Qle_bool 0 q.

Definition fsub (x y : number) : number :=
  match x, y with
  | NaN, _ | _, NaN => NaN
  | PInf, PInf | NInf, NInf => NaN
  | PInf, _ | _, NInf => PInf
  | NInf, _ | _, PInf => NInf
  | Fin a, Fin b => rnd64 (a - b)
  end.

Definition fmul (x y : number) : number :=
  match x, y with
  | NaN, _ | _, NaN => NaN
  | Fin a, Fin b => rnd64 (a * b)
  | Fin a, PInf | PInf, Fin a =>
      if Qeq_bool a 0 then NaN else if sign_pos a then PInf else NInf
  | Fin a, NInf | NInf, Fin a =>
      if Qeq_bool a 0 then NaN else if sign_pos a then NInf else PInf
  | PInf, PInf | NInf, NInf => PInf
  | PInf, NInf | NInf, PInf => NInf
  end.

Definition fdiv (x y : number) : number :=
  match x, y with
  | NaN, _ | _, NaN => NaN
  | Fin a, Fin b =>
      if Qeq_bool b 0
      then (if Qeq_bool a 0 then NaN else if sign_pos a then PInf else NInf)
      else rnd64 (a / b)
  | Fin _, _ => Fin 0
  | PInf, Fin b => if sign_pos b then PInf else NInf
  | NInf, Fin b => if sign_pos b then NInf else PInf
  | _, _ => NaN
  end.

(** The rounding the specification writes, on an exact rational: the
    nearest integer, halves upwards. *)
Definition roundHalfUp (q : Q) : Z := Qfloor (q + (1 # 2)).

(** A sequence of numbers in which no value is below its predecessor. *)
Fixpoint nondecreasing (l : list number) : Prop :=
  match l with
  | x :: (y :: _) as r => leb x y = true /\ nondecreasing r
  | _ => True
  end.

(** [Math.floor] *)
Definition Math_floor (x : number) : number :=
  match x with
  | Fin q => Fin (inject_Z (Qfloor q))
  | _ => x
  end.

(** [x >= y], false as soon as one side is NaN. *)
Definition geb (x y : number) : bool := leb y x.

(** A rational that is a binary64 value: rounding leaves it where it is. *)
Definition representable (q : Q) : Prop :=
  exists r, rnd64 q = Fin r /\ r == q.

(** [xs[i]] for a number [i]: the element when [i] is an integer within
    the array, [None] ([undefined]) otherwise. *)
Definition arrayAt (A : Type) (xs : list A) (i : number) : option A :=
  match i with
  | Fin q =>
      if Qeq_bool q (inject_Z (Qfloor q)) && (0 <=? Qfloor q)%Z
      then nth_error xs (Z.to_nat (Qfloor q))
      else None
  | _ => None
  end.

End JsNum.

(* ================================================================== *)
(** * JavaScript strings and values *)
(* ================================================================== *)

Module JsStr.

(** A string is its sequence of UTF-16 code units. *)
Definition char : Type := N.
Definition jsstring : Type := list char.

(** The code units of an ASCII literal. *)
Definition js (s : string) : jsstring :=
  map N_of_ascii (list_ascii_of_string s).

Definition char_eqb (a b : char) : bool := N.eqb a b.

Fixpoint str_eqb (a b : jsstring) : bool :=
  match a, b with
  | [], [] => true
  | x :: a', y :: b' => char_eqb x y && str_eqb a' b'
  | _, _ => false
  end.

(** White space and line terminators: what [trim] strips and what the
    regular expression class [\s] matches. *)
Definition is_ws (c : char) : bool :=
  ((9 <=? c) && (c <=? 13) || (c =? 32) || (c =? 160) || (c =? 5760)
   || (8192 <=? c) && (c <=? 8202) || (c =? 8232) || (c =? 8233)
   || (c =? 8239) || (c =? 8287) || (c =? 12288) || (c =? 65279))%N.

Fixpoint trimStart (s : jsstring) : jsstring :=
  match s with
  | [] => []
  | c :: r => if is_ws c then trimStart r else s
  end.

Definition trimEnd (s : jsstring) : jsstring := rev (trimStart (rev s)).

Definition trim (s : jsstring) : jsstring := trimEnd (trimStart s).

(** Truthiness of a string. *)
Definition nonempty (s : jsstring) : bool :=
  match s with [] => false | _ => true end.

(** [s.split(/\s+/)]: the pieces between maximal runs of white space.
    [cur] is the piece being read, reversed; [in_ws] tells that the
    previous unit was white space. *)
Fixpoint split_ws_from (cur : jsstring) (in_ws : bool) (s : jsstring)
  : list jsstring :=
  match s with
  | [] => [rev cur]
  | c :: r =>
      if is_ws c
      then (if in_ws then split_ws_from [] true r
            else rev cur :: split_ws_from [] true r)
      else split_ws_from (c :: cur) false r
  end.

Definition split_ws (s : jsstring) : list jsstring := split_ws_from [] false s.

(** [s.slice(0, -1)] *)
Definition slice_init (s : jsstring) : jsstring := removelast s.

(** [s[idx]], [None] standing for [undefined]. *)
Definition charAt (s : jsstring) (idx : nat) : option char := nth_error s idx.

(** [xs.join(sep)] *)
Fixpoint join (sep : jsstring) (xs : list jsstring) : jsstring :=
  match xs with
  | [] => []
  | [x] => x
  | x :: rest => x ++ sep ++ join sep rest
  end.


(** A code unit that is not white space. *)
Definition visible (c : char) : bool := negb (is_ws c).

(** [s.startsWith(n)] *)
Fixpoint startsWith (s n : jsstring) : bool :=
  match n, s with
  | [], _ => true
  | x :: n', y :: s' => char_eqb x y && startsWith s' n'
  | _ :: _, [] => false
  end.

(** [s.includes(n)] *)
Fixpoint includesb (s n : jsstring) : bool :=
  startsWith s n
  || match s with
     | [] => false
     | _ :: r => includesb r n
     end.

End JsStr.

Module JsVal.
Import JsNum JsStr.

#[local] Unset Elimination Schemes.
Inductive jsval : Type :=
| VUndefined
| VNull
| VBool (b : bool)
| VNum (x : number)
| VStr (s : jsstring)
| VArr (xs : list jsval)
| VObj (fields : list (jsstring * jsval)).
#[local] Set Elimination Schemes.

Fixpoint lookup (k : jsstring) (fs : list (jsstring * jsval)) : jsval :=
  match fs with
  | [] => VUndefined
  | (k', v) :: r => if str_eqb k k' then v else lookup k r
  end.

(** Property read [v.k]: [None] is the TypeError raised on [undefined]
    and [null]; a missing property reads as [undefined]. *)
Definition get (v : jsval) (k : jsstring) : option jsval :=
  match v with
  | VUndefined | VNull => None
  | VObj fs => Some (lookup k fs)
  | _ => Some VUndefined
  end.

End JsVal.

(* ================================================================== *)
(** * The typing component (TypingInterface) *)
(* ================================================================== *)

Module TypingInterface.
Import JsNum JsStr JsVal.

Record TypingStats : Type := mkStats {
  wpm : number;
  accuracy : number;
  timeTaken : number;
  correctChars : Z;
  incorrectChars : Z;
  totalChars : Z
}.

Record CharacterState : Type := mkChar {
  char_ : char;
  typed : jsstring;
  isCorrect : bool;
  isCurrent : bool
}.

(** The component's state cells ([useState]). *)
Record State : Type := mkState {
  typedText : jsstring;
  currentIndex : nat;
  startTime : option number;
  stats : TypingStats;
  characters : list CharacterState
}.

(** The component's props; the two callbacks are recorded as the events
    a handler raises (the race client passes both). *)
Record Props : Type := mkProps {
  text : jsstring;
  isActive : bool
}.

Inductive Event : Type :=
| OnComplete (s : TypingStats)
| OnProgressUpdate (progress : number).

Definition initialStats : TypingStats :=
  mkStats (of_Z 0) (of_Z 0) (of_Z 0) 0 0 0.

(** Effect on [text]: fresh character cells, cursor at 0, nothing typed,
    timer cleared. *)
Definition initCharacters (txt : jsstring) : list CharacterState :=
  map (fun '(index, c) => mkChar c [] false (Nat.eqb index 0))
      (combine (seq 0 (length txt)) txt).

Definition init (txt : jsstring) : State :=
  mkState [] 0 None initialStats (initCharacters txt).

(** Truthiness of [startTime : number | null]. *)
Definition started (st : option number) : option number :=
  match st with
  | Some t => if truthy t then Some t else None
  | None => None
  end.

(** [typed.split('').filter((char, idx) => char === text[idx]).length] *)
Definition countCorrect (txt typed_ : jsstring) : nat :=
  length (filter (fun '(idx, c) =>
                    match charAt txt idx with
                    | Some d => char_eqb c d
                    | None => false
                    end)
                 (combine (seq 0 (length typed_)) typed_)).

(** [calculateStats(typed, currentIdx, start)]; [now1] and [now2] are the
    two readings of [Date.now()], in order. *)
Definition calculateStats (txt : jsstring) (typed_ : jsstring)
    (currentIdx : nat) (start now1 now2 : number) : TypingStats :=
  let timeElapsed := fdiv (fdiv (fsub now1 start) (of_Z 1000)) (of_Z 60) in
  let wordsTyped := length (split_ws (trim typed_)) in
  let wpm_ := if gtb timeElapsed (of_Z 0)
              then Math_round (fdiv (of_nat wordsTyped) timeElapsed)
              else of_Z 0 in
  let correct := countCorrect txt typed_ in
  let total := length typed_ in
  let accuracy_ := if (0 <? total)%nat
                   then Math_round (fmul (fdiv (of_nat correct) (of_nat total))
                                         (of_Z 100))
                   else of_Z 100 in
  mkStats wpm_ accuracy_
          (fdiv (fsub now2 start) (of_Z 1000))
          (Z.of_nat correct)
          (Z.of_nat total - Z.of_nat correct)
          (Z.of_nat total).

(** The value the progress bar and the 100 ms tick compute:
    [(currentIndex / text.length) * 100]. *)
Definition progressOf (txt : jsstring) (idx : nat) : number :=
  fmul (fdiv (of_nat idx) (of_nat (length txt))) (of_Z 100).

(** One firing of the 100 ms interval, which only exists while the timer
    has started and the component is active. *)
Definition tick (p : Props) (s : State) (now1 now2 : number)
  : State * list Event :=
  match started (startTime s) with
  | Some start =>
      if isActive p
      then (mkState (typedText s) (currentIndex s) (startTime s)
                    (calculateStats (text p) (typedText s) (currentIndex s)
                                    start now1 now2)
                    (characters s),
            [OnProgressUpdate (progressOf (text p) (currentIndex s))])
      else (s, [])
  | None => (s, [])
  end.

(** [newTypedText[idx] || ''] *)
Definition typedAt (t : jsstring) (idx : nat) : jsstring :=
  match charAt t idx with Some c => [c] | None => [] end.

Definition recolour (newTypedText : jsstring) (newIndex : nat)
    (cs : list CharacterState) : list CharacterState :=
  map (fun '(idx, c) =>
         mkChar (char_ c)
                (if (idx <? newIndex)%nat then typedAt newTypedText idx else [])
                (if (idx <? newIndex)%nat
                 then match charAt newTypedText idx with
                      | Some t => char_eqb t (char_ c)
                      | None => false
                      end
                 else false)
                (Nat.eqb idx newIndex))
      (combine (seq 0 (length cs)) cs).

Definition Backspace : jsstring := js "Backspace".

(** [handleKeyPress]: [key] is [e.key]; [now0] is the reading of
    [Date.now()] that starts the timer, [now1] and [now2] those of
    [calculateStats].  The handler reads the [startTime] of the render it
    closes over: the value set by [setStartTime] is only visible to the
    next key press. *)
Definition handleKeyPress (p : Props) (s : State) (key : jsstring)
    (now0 now1 now2 : number) : State * list Event :=
  if negb (isActive p) then (s, [])
  else
    let startTime' := match started (startTime s) with
                      | Some _ => startTime s
                      | None => Some now0
                      end in
    if str_eqb key Backspace then
      if (0 <? currentIndex s)%nat then
        let newIndex := (currentIndex s - 1)%nat in
        let newTypedText := slice_init (typedText s) in
        (mkState newTypedText newIndex startTime' (stats s)
                 (recolour newTypedText newIndex (characters s)), [])
      else
        (mkState (typedText s) (currentIndex s) startTime' (stats s)
                 (characters s), [])
    else if (1 <? length key)%nat then
      (mkState (typedText s) (currentIndex s) startTime' (stats s)
               (characters s), [])
    else if (length (text p) <=? currentIndex s)%nat then
      (mkState (typedText s) (currentIndex s) startTime' (stats s)
               (characters s),
       match started (startTime s) with
       | Some start =>
           [OnComplete (calculateStats (text p) (typedText s)
                                       (currentIndex s) start now1 now2)]
       | None => []
       end)
    else
      let newTypedText := typedText s ++ key in
      let newIndex := (currentIndex s + 1)%nat in
      (mkState newTypedText newIndex startTime' (stats s)
               (recolour newTypedText newIndex (characters s)),
       if (length (text p) <=? newIndex)%nat
       then match started (startTime s) with
            | Some start =>
                [OnComplete (calculateStats (text p) newTypedText newIndex
                                            start now1 now2)]
            | None => []
            end
       else []).

(** A key press as the browser delivers it: the key and the clock
    readings taken while it is handled. *)
Record KeyPress : Type := mkKey {
  key : jsstring;
  at0 : number;
  at1 : number;
  at2 : number
}.

Definition press (p : Props) (s : State) (k : KeyPress) : State * list Event :=
  handleKeyPress p s (key k) (at0 k) (at1 k) (at2 k).

(** A run of key presses from a state, with the events raised, in order. *)
Fixpoint run (p : Props) (s : State) (ks : list KeyPress)
  : State * list Event :=
  match ks with
  | [] => (s, [])
  | k :: rest =>
      let '(s1, ev1) := press p s k in
      let '(s2, ev2) := run p s1 rest in
      (s2, ev1 ++ ev2)
  end.

(** The cursor counts the typed characters and stays within the passage. *)
Definition consistent (p : Props) (s : State) : Prop :=
  length (typedText s) = currentIndex s
  /\ (currentIndex s <= length (text p))%nat.

(** A key press that types one code unit, taken at a clock reading other
    than 0 (the epoch). *)
Definition typedKey (k : KeyPress) : Prop :=
  (exists c, key k = [c]) /\ truthy (at0 k) = true.

(** The code units typed by a run of such key presses. *)
Definition typedBy (ks : list KeyPress) : jsstring := concat (map key ks).

(** What reaches the component: a key press, or a firing of the 100 ms
    interval with its two readings of the clock. *)
Inductive Input : Type :=
| Key (k : KeyPress)
| Tick (now1 now2 : number).

Definition react (p : Props) (s : State) (i : Input) : State * list Event :=
  match i with
  | Key k => press p s k
  | Tick now1 now2 => tick p s now1 now2
  end.

(** A run of key presses and interval firings, in the order they come. *)
Fixpoint feed (p : Props) (s : State) (ins : list Input)
  : State * list Event :=
  match ins with
  | [] => (s, [])
  | i :: rest =>
      let '(s1, ev1) := react p s i in
      let '(s2, ev2) := feed p s1 rest in
      (s2, ev1 ++ ev2)
  end.

(** The class each character cell is rendered with: the cursor cell is
    ['current'], then ['correct'], then ['incorrect'] for a cell typed
    wrongly, and no class for the rest. *)
Definition cellClass (c : CharacterState) : jsstring :=
  if isCurrent c then js "current"
  else if isCorrect c then js "correct"
  else if nonempty (typed c) && negb (isCorrect c) then js "incorrect"
  else [].

(** The cells that show passage [txt] with [typed_] typed and the cursor
    at [idx]: what both [setCharacters] updates write. *)
Definition cellsOf (txt typed_ : jsstring) (idx : nat)
  : list CharacterState :=
  map (fun '(i, c) =>
         mkChar c
                (if (i <? idx)%nat then typedAt typed_ i else [])
                (if (i <? idx)%nat
                 then match charAt typed_ i with
                      | Some t => char_eqb t c
                      | None => false
                      end
                 else false)
                (Nat.eqb i idx))
      (combine (seq 0 (length txt)) txt).

(** The highlighting is in step with the typed text. *)
Definition highlighted (p : Props) (s : State) : Prop :=
  characters s = cellsOf (text p) (typedText s) (currentIndex s).

(** A key press as the browser delivers it: [e.key] is never empty. *)
Definition domKey (k : KeyPress) : Prop := key k <> [].

End TypingInterface.

(* ================================================================== *)
(** * The race client (MultiplayerRace) *)
(* ================================================================== *)

Module MultiplayerRace.
Import JsNum JsStr JsVal.

Inductive Status : Type := waiting | countdown | racing | finished.

Definition status_eqb (a b : Status) : bool :=
  match a, b with
  | waiting, waiting | countdown, countdown
  | racing, racing | finished, finished => true
  | _, _ => false
  end.

Record RaceUser : Type := mkUser {
  id : jsstring;
  username : jsstring;
  progress : number;
  finished_ : option bool;
  rank : option number;
  stats : option jsval
}.

Record LobbyState : Type := mkLobby {
  users : list RaceUser;
  countdown_ : number;
  status : Status
}.

Record Standing : Type := mkStanding {
  st_rank : number;
  st_username : jsstring;
  st_wpm : number;
  st_accuracy : number;
  st_timeTaken : number
}.

Record RaceResults : Type := mkResults {
  results : list Standing;
  res_finished : bool
}.

(** The component's state cells.  [socket] holds the name of the socket
    object stored by [setSocket], [None] while it is [null]. *)
Record State : Type := mkState {
  socket : option jsstring;
  lobbyState : LobbyState;
  raceText : jsstring;
  raceStartTime : option number;
  raceResults : option RaceResults;
  username_ : jsstring;
  isConnected : bool;
  isReconnecting : bool;
  connectionError : option jsstring;
  myRank : option number;
  hasJoined : bool;
  currentStandings : list Standing;
  wasInLobby : bool
}.

(** One [socket.emit(event, payload)]. *)
Record Emit : Type := mkEmit {
  event : jsstring;
  payload : jsval
}.

(** Truthiness of [raceStartTime : number | null]. *)
Definition started_time (s : State) : option number :=
  match raceStartTime s with
  | Some t => if truthy t then Some t else None
  | None => None
  end.

Definition emptyLobby : LobbyState := mkLobby [] (of_Z 0) waiting.

Definition initial : State :=
  mkState None emptyLobby [] None None [] false false None None false []
          false.

Definition set_connectionError (s : State) (e : option jsstring) : State :=
  mkState (socket s) (lobbyState s) (raceText s) (raceStartTime s)
          (raceResults s) (username_ s) (isConnected s) (isReconnecting s)
          e (myRank s) (hasJoined s) (currentStandings s) (wasInLobby s).

Definition set_lobbyState (s : State) (l : LobbyState) : State :=
  mkState (socket s) l (raceText s) (raceStartTime s)
          (raceResults s) (username_ s) (isConnected s) (isReconnecting s)
          (connectionError s) (myRank s) (hasJoined s) (currentStandings s)
          (wasInLobby s).

(** [io(serverUrl, options)]: a new socket object.  Socket objects are
    told apart by their name; the new one takes the name of the socket it
    replaces with one more code unit, so that it differs from every
    socket the component has held. *)
Definition newSocket (held : option jsstring) : jsstring :=
  match held with
  | Some n => n ++ js "'"
  | None => js "socket"
  end.

(** The dependencies of the socket effect, [wasInLobby], [username] and
    [hasJoined], compared between two renders. *)
Definition depsChanged (before after : State) : bool :=
  negb (Bool.eqb (wasInLobby before) (wasInLobby after))
  || negb (str_eqb (username_ before) (username_ after))
  || negb (Bool.eqb (hasJoined before) (hasJoined after)).

(** The socket effect after a handler has taken the state from [before]
    to [after]: when a dependency has changed, the cleanup closes the
    socket and the effect runs again, which creates a new socket and
    stores it ([setSocket(newSocket)]); otherwise nothing happens. *)
Definition socketEffect (before after : State) : State :=
  if depsChanged before after
  then mkState (Some (newSocket (socket before))) (lobbyState after)
               (raceText after) (raceStartTime after) (raceResults after)
               (username_ after) (isConnected after) (isReconnecting after)
               (connectionError after) (myRank after) (hasJoined after)
               (currentStandings after) (wasInLobby after)
  else after.

(** Handler of the socket's ['connect'] event.  The effect that installs
    it is re-run whenever [wasInLobby], [username] or [hasJoined] change,
    so the handler of the live socket sees their current values. *)
Definition onConnect (s : State) : State * list Emit :=
  (mkState (socket s) (lobbyState s) (raceText s) (raceStartTime s)
           (raceResults s) (username_ s) true false None (myRank s)
           (hasJoined s) (currentStandings s) (wasInLobby s),
   if wasInLobby s && nonempty (trim (username_ s)) && hasJoined s
   then [mkEmit (js "joinLobby")
                (VObj [(js "username", VStr (trim (username_ s)));
                       (js "reconnect", VBool true)])]
   else []).

Definition ioServerDisconnect : jsstring := js "io server disconnect".

(** Handler of ['disconnect']. *)
Definition onDisconnect (s : State) (reason : jsstring) : State :=
  if str_eqb reason ioServerDisconnect
  then mkState (socket s) (lobbyState s) (raceText s) (raceStartTime s)
               (raceResults s) (username_ s) false (isReconnecting s)
               (Some (js "Disconnected from server. Please refresh the page."))
               (myRank s) (hasJoined s) (currentStandings s) (wasInLobby s)
  else mkState (socket s) (lobbyState s) (raceText s) (raceStartTime s)
               (raceResults s) (username_ s) false true
               (connectionError s)
               (myRank s) (hasJoined s) (currentStandings s) (wasInLobby s).

(** [joinLobby]: the message is emitted on the socket in place, the two
    flags are set, and the socket effect, of which both are dependencies,
    then replaces that socket when one of them has changed. *)
Definition joinLobby (s : State) : State * list Emit :=
  match socket s with
  | Some _ =>
      if nonempty (trim (username_ s)) && isConnected s
      then (socketEffect s
              (mkState (socket s) (lobbyState s) (raceText s)
                       (raceStartTime s) (raceResults s) (username_ s)
                       (isConnected s) (isReconnecting s) (connectionError s)
                       (myRank s) true (currentStandings s) true),
            [mkEmit (js "joinLobby")
                    (VObj [(js "username", VStr (trim (username_ s)))])])
      else (s, [])
  | None => (s, [])
  end.

(** [handleProgressUpdate] *)
Definition handleProgressUpdate (s : State) (progress_ : number)
  : State * list Emit :=
  match socket s with
  | Some _ =>
      if status_eqb (status (lobbyState s)) racing && isConnected s
      then
        let validatedProgress :=
          Math_max (of_Z 0) (Math_min (of_Z 100) progress_) in
        (s, [mkEmit (js "progressUpdate")
                    (VObj [(js "progress", VNum validatedProgress)])])
      else (s, [])
  | None => (s, [])
  end.

Definition invalidStatsMsg : jsstring :=
  js "Invalid race completion data. Please try again.".
Definition submitFailedMsg : jsstring :=
  js "Failed to submit race results. Please try again.".

(** The guard of [handleRaceComplete]:
    [socket && raceStartTime && isConnected]. *)
Definition canSubmit (s : State) : bool :=
  match socket s, started_time s with
  | Some _, Some _ => isConnected s
  | _, _ => false
  end.

(** Statistics that pass the validation of [handleRaceComplete]: [wpm]
    and [accuracy] are numbers and not NaN. *)
Definition wellFormed (stats_ : jsval) : Prop :=
  exists w a,
    get stats_ (js "wpm") = Some (VNum w)
    /\ get stats_ (js "accuracy") = Some (VNum a)
    /\ isNaN w = false /\ isNaN a = false.

(** [handleRaceComplete]; [now] is the reading of [Date.now()], an
    integer number of milliseconds.  The [typeof] tests are the match on
    [VNum]; a property read on [undefined] or [null] raises, and lands in
    the [catch] block. *)
Definition handleRaceComplete (s : State) (stats_ : jsval) (now : Z)
  : State * list Emit :=
  match socket s, started_time s with
  | Some _, Some start =>
      if isConnected s then
        let timeTaken := fdiv (fsub (of_Z now) start) (of_Z 1000) in
        match get stats_ (js "wpm"), get stats_ (js "accuracy") with
        | Some (VNum w), Some (VNum a) =>
            if isNaN w || isNaN a
            then (set_connectionError s (Some invalidStatsMsg), [])
            else
              (s, [mkEmit (js "raceFinished")
                     (VObj [(js "finalWPM", VNum (Math_max (of_Z 0) w));
                            (js "finalAccuracy",
                             VNum (Math_max (of_Z 0)
                                            (Math_min (of_Z 100) a)));
                            (js "timeTaken",
                             VNum (Math_max (of_Z 0) timeTaken))])])
        | Some _, Some _ =>
            (set_connectionError s (Some invalidStatsMsg), [])
        | _, _ => (set_connectionError s (Some submitFailedMsg), [])
        end
      else (s, [])
  | _, _ => (s, [])
  end.

(** [leaveLobby]: the socket is told and disconnected, the race state is
    reset (the caller's [onExit] then unmounts the component). *)
Definition leaveLobby (s : State) : State * list Emit :=
  match socket s with
  | Some _ =>
      (mkState (socket s) emptyLobby [] None (raceResults s) (username_ s)
               (isConnected s) (isReconnecting s) None None false [] false,
       [mkEmit (js "leaveLobby") VUndefined])
  | None => (s, [])
  end.

(** The [onClick] of the "Race Again" button of the results view: the
    setters it calls, then the socket effect, which replaces the socket
    when [hasJoined], one of its dependencies, has changed. *)
Definition raceAgainClick (s : State) : State * list Emit :=
  (socketEffect s
     (mkState (socket s) emptyLobby [] None None (username_ s)
              (isConnected s) (isReconnecting s) (connectionError s) None
              false [] (wasInLobby s)),
   []).

(** Handler of ['lobbyState']. *)
Definition onLobbyState (s : State) (data : LobbyState) : State :=
  set_lobbyState s data.

(** Handler of ['raceStart']. *)
Definition onRaceStart (s : State) (raceText_ : jsstring)
    (startTime_ : option number) : State :=
  mkState (socket s)
          (mkLobby (users (lobbyState s)) (countdown_ (lobbyState s)) racing)
          raceText_ startTime_ (raceResults s) (username_ s) (isConnected s)
          (isReconnecting s) (connectionError s) (myRank s) (hasJoined s)
          (currentStandings s) (wasInLobby s).

(** Handler of ['opponentProgress']. *)
Definition onOpponentProgress (s : State) (userId : jsstring)
    (progress_ : number) : State :=
  set_lobbyState s
    (mkLobby (map (fun user =>
                     if str_eqb (id user) userId
                     then mkUser (id user) (username user) progress_
                                 (finished_ user) (rank user) (stats user)
                     else user)
                  (users (lobbyState s)))
             (countdown_ (lobbyState s)) (status (lobbyState s))).

(** Handler of ['userFinished']. *)
Definition onUserFinished (s : State) (rank_ : number)
    (standings : list Standing) : State :=
  mkState (socket s) (lobbyState s) (raceText s) (raceStartTime s)
          (raceResults s) (username_ s) (isConnected s) (isReconnecting s)
          (connectionError s) (Some rank_) (hasJoined s) standings
          (wasInLobby s).

(** Handler of ['opponentFinished']. *)
Definition onOpponentFinished (s : State) (userId : jsstring)
    (rank_ : number) (stats_ : jsval) : State :=
  set_lobbyState s
    (mkLobby (map (fun user =>
                     if str_eqb (id user) userId
                     then mkUser (id user) (username user) (progress user)
                                 (Some true) (Some rank_) (Some stats_)
                     else user)
                  (users (lobbyState s)))
             (countdown_ (lobbyState s)) (status (lobbyState s))).

(** Handler of ['raceResults']. *)
Definition onRaceResults (s : State) (data : RaceResults) : State :=
  mkState (socket s)
          (mkLobby (users (lobbyState s)) (countdown_ (lobbyState s)) finished)
          (raceText s) (raceStartTime s) (Some data) (username_ s)
          (isConnected s) (isReconnecting s) (connectionError s) (myRank s)
          (hasJoined s) (currentStandings s) (wasInLobby s).

(** Payload of ['raceTimeout']. *)
Record Timeout : Type := mkTimeout {
  message : jsstring;
  unfinishedUsers : option (list jsstring)
}.

Definition timeoutMessage (data : Timeout) (names : list jsstring)
  : jsstring :=
  message data ++ js ". Some players did not finish: " ++ join (js ", ") names.

(** Handler of ['raceTimeout']. *)
Definition onRaceTimeout (s : State) (data : Timeout) : State :=
  match unfinishedUsers data with
  | Some names =>
      if (0 <? length names)%nat
      then set_connectionError s (Some (timeoutMessage data names))
      else set_connectionError s
             (Some (if nonempty (message data) then message data
                    else js "Race time limit reached."))
  | None =>
      set_connectionError s
        (Some (if nonempty (message data) then message data
               else js "Race time limit reached."))
  end.

(** Truthiness of [myRank : number | null]. *)
Definition ranked (s : State) : bool :=
  match myRank s with
  | Some r => truthy r
  | None => false
  end.

Inductive View : Type := ResultsView | RaceTrackView | LobbyView.

(** Which of [renderResults], [renderRaceTrack], [renderLobby] the
    component returns. *)
Definition view (s : State) : View :=
  match raceResults s with
  | Some _ => ResultsView
  | None => if status_eqb (status (lobbyState s)) racing
            then RaceTrackView else LobbyView
  end.

(** The lobby view shows the name field and the "Join Race" button. *)
Definition showsJoinForm (s : State) : bool :=
  match view s with
  | LobbyView => status_eqb (status (lobbyState s)) waiting
                 && negb (hasJoined s)
  | _ => false
  end.

(** The typing component is mounted by the race-track view only, and
    there only once the race text is known; these are the props it
    receives. *)
Definition typingProps (s : State) : option TypingInterface.Props :=
  match view s with
  | RaceTrackView =>
      if nonempty (raceText s) && status_eqb (status (lobbyState s)) racing
      then Some (TypingInterface.mkProps (raceText s)
                                         (negb (ranked s) && isConnected s))
      else None
  | _ => None
  end.

(** The statistics record as the value handed to [onComplete]. *)
Definition statsVal (t : TypingInterface.TypingStats) : jsval :=
  VObj [(js "wpm", VNum (TypingInterface.wpm t));
        (js "accuracy", VNum (TypingInterface.accuracy t));
        (js "timeTaken", VNum (TypingInterface.timeTaken t));
        (js "correctChars", VNum (of_Z (TypingInterface.correctChars t)));
        (js "incorrectChars", VNum (of_Z (TypingInterface.incorrectChars t)));
        (js "totalChars", VNum (of_Z (TypingInterface.totalChars t)))].

(** Delivery of the typing component's callbacks to the handlers passed as
    props ([onComplete = handleRaceComplete],
    [onProgressUpdate = handleProgressUpdate]). *)
Fixpoint deliver (s : State) (evs : list TypingInterface.Event)
    (now : Z) : State * list Emit :=
  match evs with
  | [] => (s, [])
  | ev :: rest =>
      let '(s1, out1) :=
        match ev with
        | TypingInterface.OnComplete t => handleRaceComplete s (statsVal t) now
        | TypingInterface.OnProgressUpdate pr => handleProgressUpdate s pr
        end in
      let '(s2, out2) := deliver s1 rest now in
      (s2, out1 ++ out2)
  end.

(** One firing of the mounted typing component's interval, seen from the
    socket. *)
Definition clientTick (s : State) (ti : TypingInterface.State)
    (now1 now2 : number) (now3 : Z) : list Emit :=
  match typingProps s with
  | Some p => snd (deliver s (snd (TypingInterface.tick p ti now1 now2)) now3)
  | None => []
  end.

(** The progress value a [progressUpdate] emission carries. *)
Definition progressOfEmit (e : Emit) : list number :=
  if str_eqb (event e) (js "progressUpdate")
  then match get (payload e) (js "progress") with
       | Some (VNum x) => [x]
       | _ => []
       end
  else [].

(** The progress values the client reports while the user types, the
    interval firing once after each key press. *)
Fixpoint reportedAlong (s : State) (ti : TypingInterface.State)
    (ks : list TypingInterface.KeyPress) : list number :=
  match ks with
  | [] => []
  | k :: rest =>
      match typingProps s with
      | Some p =>
          let ti' := fst (TypingInterface.press p ti k) in
          flat_map progressOfEmit
                   (clientTick s ti' (TypingInterface.at1 k)
                               (TypingInterface.at2 k) 0)
          ++ reportedAlong s ti' rest
      | None => []
      end
  end.

(** The progress the client shows for user [uid]. *)
Definition observed (s : State) (uid : jsstring) : list number :=
  map progress (filter (fun u => str_eqb (id u) uid) (users (lobbyState s))).

(** The message by which a reconnecting client asks for its place back. *)
Definition rejoinMessage (s : State) : Emit :=
  mkEmit (js "joinLobby")
         (VObj [(js "username", VStr (trim (username_ s)));
                (js "reconnect", VBool true)]).

(** Handler of ['reconnect_attempt']. *)
Definition onReconnectAttempt (s : State) : State :=
  mkState (socket s) (lobbyState s) (raceText s) (raceStartTime s)
          (raceResults s) (username_ s) (isConnected s) true None
          (myRank s) (hasJoined s) (currentStandings s) (wasInLobby s).

(** Handler of ['reconnect']. *)
Definition onReconnect (s : State) : State :=
  mkState (socket s) (lobbyState s) (raceText s) (raceStartTime s)
          (raceResults s) (username_ s) true false None
          (myRank s) (hasJoined s) (currentStandings s) (wasInLobby s).

(** Handler of ['reconnect_error']. *)
Definition onReconnectError (s : State) : State :=
  mkState (socket s) (lobbyState s) (raceText s) (raceStartTime s)
          (raceResults s) (username_ s) (isConnected s) true
          (Some (js "Connection lost. Attempting to reconnect..."))
          (myRank s) (hasJoined s) (currentStandings s) (wasInLobby s).

(** Handler of ['reconnect_failed']. *)
Definition onReconnectFailed (s : State) : State :=
  mkState (socket s) (lobbyState s) (raceText s) (raceStartTime s)
          (raceResults s) (username_ s) (isConnected s) false
          (Some (js "Failed to reconnect. Please refresh the page."))
          (myRank s) (hasJoined s) (currentStandings s) (wasInLobby s).

(** Handler of ['connect_error']. *)
Definition onConnectError (s : State) : State :=
  mkState (socket s) (lobbyState s) (raceText s) (raceStartTime s)
          (raceResults s) (username_ s) false (isReconnecting s)
          (Some (js "Unable to connect to server. Please check your connection."))
          (myRank s) (hasJoined s) (currentStandings s) (wasInLobby s).

(** [message || fallback] *)
Definition orDefault (message_ fallback : jsstring) : jsstring :=
  if nonempty message_ then message_ else fallback.

(** Handler of ['raceError']; [message_] is [error.message]. *)
Definition onRaceError (s : State) (message_ : jsstring) : State :=
  set_connectionError s
    (Some (orDefault message_ (js "An error occurred during the race."))).

(** Handler of ['lobbyError']. *)
Definition onLobbyError (s : State) (message_ : jsstring) : State :=
  set_connectionError s
    (Some (orDefault message_ (js "An error occurred in the lobby."))).

(** Truthiness of [connectionError : string | null]. *)
Definition errorText (s : State) : option jsstring :=
  match connectionError s with
  | Some m => if nonempty m then Some m else None
  | None => None
  end.

(** The status boxes at the top of the lobby view, in the order they are
    rendered; the error box carries its text and whether it shows the
    "Refresh Page" button. *)
Inductive Banner : Type :=
| ConnectingBox
| ReconnectingBox
| ErrorBox (text_ : jsstring) (refreshButton : bool)
| ConnectedBox.

Definition banners (s : State) : list Banner :=
  (if negb (isConnected s) && negb (isReconnecting s)
   then [ConnectingBox] else [])
  ++ (if isReconnecting s then [ReconnectingBox] else [])
  ++ (match errorText s with
      | Some m => if negb (isReconnecting s)
                  then [ErrorBox m (includesb m (js "refresh"))]
                  else []
      | None => []
      end)
  ++ (match errorText s with
      | Some _ => []
      | None => if isConnected s then [ConnectedBox] else []
      end).

(** The server messages that only leave a text in [connectionError]. *)
Inductive Notice : Type :=
| RaceError (message_ : jsstring)
| LobbyError (message_ : jsstring)
| RaceTimeout (data : Timeout).

Definition onNotice (s : State) (n : Notice) : State :=
  match n with
  | RaceError m => onRaceError s m
  | LobbyError m => onLobbyError s m
  | RaceTimeout data => onRaceTimeout s data
  end.

(** The boxes on screen: only the lobby view renders them. *)
Definition shownBanners (s : State) : list Banner :=
  match view s with
  | LobbyView => banners s
  | _ => []
  end.

(** The [disabled] attribute of the "Join Race" button. *)
Definition joinDisabled (s : State) : bool :=
  negb (nonempty (trim (username_ s))) || negb (isConnected s).

(** The messages the socket sends when the mounted typing component
    handles one key press, and the component's next state. *)
Definition clientKey (s : State) (ti : TypingInterface.State)
    (k : TypingInterface.KeyPress) (now : Z)
  : TypingInterface.State * list Emit :=
  match typingProps s with
  | Some p =>
      let '(ti', evs) := TypingInterface.press p ti k in
      (ti', snd (deliver s evs now))
  | None => (ti, [])
  end.

(** The events that only touch the connection indicators. *)
Inductive ConnectionEvent : Type :=
| EvDisconnect (reason : jsstring)
| EvReconnectAttempt
| EvReconnect
| EvReconnectError
| EvReconnectFailed
| EvConnectError.

Definition onConnectionEvent (s : State) (e : ConnectionEvent) : State :=
  match e with
  | EvDisconnect reason => onDisconnect s reason
  | EvReconnectAttempt => onReconnectAttempt s
  | EvReconnect => onReconnect s
  | EvReconnectError => onReconnectError s
  | EvReconnectFailed => onReconnectFailed s
  | EvConnectError => onConnectError s
  end.

End MultiplayerRace.

(* ================================================================== *)
(** * The race coordinator *)
(* ================================================================== *)

(** The coordinator process lives outside the client sources.  Its
    session state machine is taken from the specification (data model,
    session registry contract and state machine), as a single-writer
    transition function: the session is the unit of serialization, so
    concurrent client messages reach it as one sequence, in arrival
    order.  The passage text and the countdown clock are left out: no
    property stated below reads them. *)
Module Coordinator.
Import JsNum JsStr.

Inductive ConnectionState : Type := connected | disconnected_grace | left.

Inductive Status : Type := Waiting | Countdown | Racing | Finished.

Inductive Error : Type :=
| LobbyFull | NameTaken | InvalidPayload | StaleOperation | SessionNotFound.

Record FinalStats : Type := mkFinal {
  wordsPerMinute : number;
  accuracy : number;
  elapsedSeconds : number
}.

Record Participant : Type := mkParticipant {
  id : nat;
  displayName : jsstring;
  connectionState : ConnectionState;
  progress : number;
  finished : bool;
  rank : option nat;
  finalStats : option FinalStats
}.

Record Session : Type := mkSession {
  status : Status;
  roster : list Participant;
  raceDeadline : option Z;
  maxRaceDuration : Z;
  nextId : nat
}.

Inductive Msg : Type :=
| JoinLobby (name : jsstring) (reconnectToken : option nat)
| LeaveLobby (pid : nat)
| Disconnect (pid : nat)
| GraceExpired (pid : nat)
| CountdownExpired (startTime : Z)
| ProgressUpdate (pid : nat) (value : number)
| RaceFinished (pid : nat) (wpm acc elapsed : number)
| ClockReached (now : Z).

Inductive Event : Type :=
| LobbyStateEv (s : Status) (names : list jsstring)
| RaceStartEv (startTime : Z)
| OpponentProgressEv (pid : nat) (value : number)
| ParticipantFinishedEv (pid : nat) (rank_ : nat) (stats : FinalStats)
| RaceResultsEv (complete : bool)
| RaceTimeoutEv (unfinishedDisplayNames : list jsstring)
| ErrorEv (e : Error).

Definition capacity : nat := 6.

(** Modelled from the spec: a session is created empty, in Waiting. *)
Definition newSession (maxDuration : Z) : Session :=
  mkSession Waiting [] None maxDuration 0.

Definition is_left (p : Participant) : bool :=
  match connectionState p with left => true | _ => false end.

Definition in_grace (p : Participant) : bool :=
  match connectionState p with disconnected_grace => true | _ => false end.

Definition present (p : Participant) : bool := negb (is_left p).

Definition set_conn (c : ConnectionState) (p : Participant) : Participant :=
  mkParticipant (id p) (displayName p) c (progress p) (finished p) (rank p)
                (finalStats p).

Definition set_progress (v : number) (p : Participant) : Participant :=
  mkParticipant (id p) (displayName p) (connectionState p) v (finished p)
                (rank p) (finalStats p).

Definition set_finished (r : option nat) (f : option FinalStats)
    (p : Participant) : Participant :=
  mkParticipant (id p) (displayName p) (connectionState p) (progress p) true
                r f.

Definition find (pid : nat) (ps : list Participant) : option Participant :=
  List.find (fun p => Nat.eqb (id p) pid) ps.

(** Apply [f] to the participant [pid], leave the others. *)
Definition update (pid : nat) (f : Participant -> Participant)
    (ps : list Participant) : list Participant :=
  map (fun p => if Nat.eqb (id p) pid then f p else p) ps.

Definition remove (pid : nat) (ps : list Participant) : list Participant :=
  filter (fun p => negb (Nat.eqb (id p) pid)) ps.

Definition presentCount (ps : list Participant) : nat :=
  length (filter present ps).

Definition names (ps : list Participant) : list jsstring :=
  map displayName ps.

Definition nameTaken (n : jsstring) (ps : list Participant) : bool :=
  existsb (fun p => present p && str_eqb (displayName p) n) ps.

(** The ranks granted so far. *)
Definition ranksOf (ps : list Participant) : list nat :=
  flat_map (fun p => match rank p with Some r => [r] | None => [] end) ps.

(** The display names of the participants that have not left. *)
Definition presentNames (ps : list Participant) : list jsstring :=
  names (filter present ps).

(** Participant ids are distinct and below the next id to hand out. *)
Definition idsOk (s : Session) : Prop :=
  NoDup (map id (roster s))
  /\ Forall (fun p => (id p < nextId s)%nat) (roster s).

(** The roster bounds: at most [capacity] entries, and the names of the
    participants that have not left pairwise distinct. *)
Definition rosterOk (s : Session) : Prop :=
  (length (roster s) <= capacity)%nat /\ NoDup (presentNames (roster s)).

(** Before the race starts. *)
Definition early (st : Status) : Prop := st = Waiting \/ st = Countdown.

(** Ranks go to finished participants only, none is granted before the
    race starts, and the ranks granted are 1 to their number. *)
Definition ranksOk (s : Session) : Prop :=
  Forall (fun p => rank p <> None -> finished p = true) (roster s)
  /\ (early (status s) -> ranksOf (roster s) = [])
  /\ Permutation (ranksOf (roster s)) (seq 1 (length (ranksOf (roster s)))).

Definition inv (s : Session) : Prop := idsOk s /\ rosterOk s /\ ranksOk s.

(** The number of ranks granted so far. *)
Definition granted (s : Session) : nat := length (ranksOf (roster s)).

(** The ranks announced, in the order the completions were accepted. *)
Definition grantedRanks (evs : list Event) : list nat :=
  flat_map (fun e => match e with
                     | ParticipantFinishedEv _ r _ => [r]
                     | _ => []
                     end) evs.

(** How one step moves the count of granted ranks: either no rank is
    announced and the count stays, or the next rank is announced and the
    count grows by one. *)
Definition rankStep (s s' : Session) (evs : list Event) : Prop :=
  (grantedRanks evs = [] /\ granted s' = granted s)
  \/ (grantedRanks evs = [S (granted s)] /\ granted s' = S (granted s)).

(** The progress stored for participant [pid], if it is in the roster. *)
Definition stored (s : Session) (pid : nat) : option number :=
  option_map progress (find pid (roster s)).

(** A join that names no participant in its grace window. *)
Definition freshJoin (s : Session) (tok : option nat) : Prop :=
  match tok with
  | Some t => match find t (roster s) with
              | Some p => in_grace p = false
              | None => True
              end
  | None => True
  end.

Definition with_roster (s : Session) (st : Status)
    (ps : list Participant) : Session :=
  mkSession st ps (raceDeadline s) (maxRaceDuration s) (nextId s).

Definition snapshot (s : Session) : Event :=
  LobbyStateEv (status s) (names (roster s)).

(** Every participant that has not left has finished. *)
Definition allFinished (ps : list Participant) : bool :=
  forallb (fun p => is_left p || finished p) ps.

(** Modelled from the spec: the transitions a change of the roster
    triggers.  Waiting enters Countdown when the roster reaches two;
    Countdown falls back to Waiting when fewer than two participants
    remain; Racing is Finished once every participant that has not left
    has finished. *)
Definition settle (st : Status) (ps : list Participant) : Status :=
  match st with
  | Waiting => if (2 <=? presentCount ps)%nat then Countdown else Waiting
  | Countdown => if (presentCount ps <? 2)%nat then Waiting else Countdown
  | Racing => if allFinished ps then Finished else Racing
  | Finished => Finished
  end.

(** Modelled from the spec: a new participant is created if the roster
    has fewer than 6 entries and the name is free; the join fails with
    [LobbyFull] or [NameTaken] if not. *)
Definition enrol (s : Session) (name : jsstring) : Session + Error :=
  if (length (roster s) <? capacity)%nat
  then if nameTaken name (roster s)
       then inr NameTaken
       else
         let ps := roster s ++ [mkParticipant (nextId s) name connected
                                              (of_Z 0) false None None] in
         inl (mkSession (settle (status s) ps) ps (raceDeadline s)
                        (maxRaceDuration s) (S (nextId s)))
  else inr LobbyFull.

(** Modelled from the spec: [join(sessionKey, displayName,
    reconnectToken?)].  A token naming a participant in its grace window
    restores that participant, with its progress, rank and statistics;
    any other join goes through [enrol]. *)
Definition join (s : Session) (name : jsstring) (tok : option nat)
  : Session + Error :=
  match tok with
  | Some t =>
      match find t (roster s) with
      | Some p =>
          if in_grace p
          then inl (with_roster s (status s)
                                (update t (set_conn connected) (roster s)))
          else enrol s name
      | None => enrol s name
      end
  | None => enrol s name
  end.

(** Modelled from the spec: [leave(participantId)] removes the
    participant only in Waiting; in every other state it marks the
    participant left and keeps the slot and the rank. *)
Definition leave (s : Session) (pid : nat) : Session :=
  match status s with
  | Waiting => with_roster s Waiting (remove pid (roster s))
  | st =>
      let ps := update pid (set_conn left) (roster s) in
      with_roster s (settle st ps) ps
  end.

(** Modelled from the spec: a transport-level disconnect opens the grace
    window of a connected participant. *)
Definition disconnect (s : Session) (pid : nat) : Session :=
  with_roster s (status s)
    (update pid (fun p => match connectionState p with
                          | connected => set_conn disconnected_grace p
                          | _ => p
                          end)
            (roster s)).

(** Modelled from the spec: when the grace window elapses the participant
    is left. *)
Definition graceExpired (s : Session) (pid : nat) : Session :=
  let ps := update pid (fun p => if in_grace p then set_conn left p else p)
                   (roster s) in
  with_roster s (settle (status s) ps) ps.

(** Modelled from the spec: Countdown to Racing, with
    [raceDeadline = startTime + maxRaceDuration]. *)
Definition startRace (s : Session) (startTime : Z) : Session * list Event :=
  match status s with
  | Countdown =>
      (mkSession Racing (roster s) (Some (startTime + maxRaceDuration s)%Z)
                 (maxRaceDuration s) (nextId s),
       [RaceStartEv startTime])
  | _ => (s, [])
  end.

Definition clamp (lo hi v : number) : number := Math_max lo (Math_min hi v).

(** Modelled from the spec: a progress update is validated and clamped to
    [0,100]; it is stored, and fanned out, only if it is not below the
    stored value; stale values are dropped silently. *)
Definition progressUpdate (s : Session) (pid : nat) (value : number)
  : Session * list Event :=
  if isNaN value then (s, [ErrorEv InvalidPayload])
  else
    match status s, find pid (roster s) with
    | Racing, Some p =>
        if finished p || is_left p then (s, [ErrorEv StaleOperation])
        else
          let v := clamp (of_Z 0) (of_Z 100) value in
          if leb (progress p) v
          then (with_roster s Racing (update pid (set_progress v) (roster s)),
                [OpponentProgressEv pid v])
          else (s, [])
    | _, _ => (s, [ErrorEv StaleOperation])
    end.

(** Modelled from the spec: the next integer rank. *)
Definition nextRank (ps : list Participant) : nat := S (length (ranksOf ps)).

(** Modelled from the spec: a completion of a participant that has not
    finished is accepted once, and is granted the next rank; the race is
    Finished when every participant that has not left has finished. *)
Definition raceFinished (s : Session) (pid : nat) (wpm acc elapsed : number)
  : Session * list Event :=
  if isNaN wpm || isNaN acc || isNaN elapsed
  then (s, [ErrorEv InvalidPayload])
  else
    match status s, find pid (roster s) with
    | Racing, Some p =>
        if finished p || is_left p then (s, [ErrorEv StaleOperation])
        else
          let r := nextRank (roster s) in
          let fs := mkFinal (Math_max (of_Z 0) wpm)
                            (clamp (of_Z 0) (of_Z 100) acc)
                            (Math_max (of_Z 0) elapsed) in
          let ps := update pid (set_finished (Some r) (Some fs)) (roster s) in
          if allFinished ps
          then (with_roster s Finished ps,
                [ParticipantFinishedEv pid r fs; RaceResultsEv true])
          else (with_roster s Racing ps, [ParticipantFinishedEv pid r fs])
    | _, _ => (s, [ErrorEv StaleOperation])
    end.

Definition unfinishedNames (ps : list Participant) : list jsstring :=
  names (filter (fun p => negb (finished p)) ps).

(** Modelled from the spec: when the race deadline is reached every
    unfinished participant is marked finished without a rank, the
    session is Finished and [raceTimeout] names the unfinished. *)
Definition clockReached (s : Session) (now : Z) : Session * list Event :=
  match status s, raceDeadline s with
  | Racing, Some d =>
      if (d <=? now)%Z
      then (with_roster s Finished
              (map (fun p => if finished p then p
                             else set_finished None None p) (roster s)),
            [RaceTimeoutEv (unfinishedNames (roster s)); RaceResultsEv false])
      else (s, [])
  | _, _ => (s, [])
  end.

Definition step (s : Session) (m : Msg) : Session * list Event :=
  match m with
  | JoinLobby n tok =>
      match join s n tok with
      | inl s' => (s', [snapshot s'])
      | inr e => (s, [ErrorEv e])
      end
  | LeaveLobby pid => let s' := leave s pid in (s', [snapshot s'])
  | Disconnect pid => let s' := disconnect s pid in (s', [snapshot s'])
  | GraceExpired pid => let s' := graceExpired s pid in (s', [snapshot s'])
  | CountdownExpired t => startRace s t
  | ProgressUpdate pid v => progressUpdate s pid v
  | RaceFinished pid w a e => raceFinished s pid w a e
  | ClockReached now => clockReached s now
  end.

(** The session after a sequence of messages, and the events sent. *)
Fixpoint run (s : Session) (ms : list Msg) : Session * list Event :=
  match ms with
  | [] => (s, [])
  | m :: rest =>
      let '(s1, ev1) := step s m in
      let '(s2, ev2) := run s1 rest in
      (s2, ev1 ++ ev2)
  end.

(** The progress values fanned out for one participant, in order. *)
Definition forwarded (pid : nat) (evs : list Event) : list number :=
  flat_map (fun e => match e with
                     | OpponentProgressEv q v =>
                         if Nat.eqb q pid then [v] else []
                     | _ => []
                     end) evs.

(** How one step moves the progress stored for [pid]: nothing is fanned
    out for [pid] and the stored value stays, or goes with the
    participant, or comes with a participant whose id is new; or exactly
    one value is fanned out, not below the stored one, and becomes the
    stored one. *)
Definition progressStep (pid : nat) (s s' : Session) (evs : list Event)
  : Prop :=
  (forwarded pid evs = []
   /\ (stored s' pid = stored s pid \/ stored s' pid = None
       \/ (stored s pid = None /\ (nextId s <= pid)%nat)))
  \/ (exists old v,
         forwarded pid evs = [v] /\ stored s pid = Some old
         /\ leb old v = true /\ stored s' pid = Some v).

End Coordinator.

(* ================================================================== *)
(** * The results screen (ResultsScreen) *)
(* ================================================================== *)

Module ResultsScreen.
Import JsNum JsStr.

Definition green : jsstring := js "text-green-400".
Definition yellow : jsstring := js "text-yellow-400".
Definition orange : jsstring := js "text-orange-400".
Definition red : jsstring := js "text-red-400".

(** [getWPMColor] *)
Definition getWPMColor (wpm : number) : jsstring :=
  if geb wpm (of_Z 80) then green
  else if geb wpm (of_Z 60) then yellow
  else if geb wpm (of_Z 40) then orange
  else red.

(** [getAccuracyColor] *)
Definition getAccuracyColor (accuracy : number) : jsstring :=
  if geb accuracy (of_Z 95) then green
  else if geb accuracy (of_Z 90) then yellow
  else if geb accuracy (of_Z 80) then orange
  else red.

(** The four messages; each ends in an emoji, given by its two UTF-16
    code units. *)
Definition excellentMsg : jsstring :=
  js "Excellent! You're typing like a pro! " ++ [55357; 56960]%N.
Definition greatMsg : jsstring :=
  js "Great job! Keep practicing to improve further! " ++ [55357; 56490]%N.
Definition goodMsg : jsstring :=
  js "Good progress! Focus on accuracy and speed! " ++ [55357; 56520]%N.
Definition keepMsg : jsstring :=
  js "Keep practicing! Every keystroke makes you better! " ++ [55356; 57263]%N.

(** [getPerformanceMessage] *)
Definition getPerformanceMessage (wpm accuracy : number) : jsstring :=
  if geb wpm (of_Z 80) && geb accuracy (of_Z 95) then excellentMsg
  else if geb wpm (of_Z 60) && geb accuracy (of_Z 90) then greatMsg
  else if geb wpm (of_Z 40) && geb accuracy (of_Z 80) then goodMsg
  else keepMsg.

(** The two conditional tips: "focus on accuracy" ([stats.accuracy < 90])
    and "practice regularly" ([stats.wpm < 60]). *)
Definition accuracyTip (accuracy : number) : bool := ltb accuracy (of_Z 90).
Definition practiceTip (wpm : number) : bool := ltb wpm (of_Z 60).

End ResultsScreen.

(* ================================================================== *)
(** * The application shell (App) *)
(* ================================================================== *)

Module App.
Import JsNum JsStr.

(** ['home' | 'typing' | 'results' | 'multiplayer'] *)
Inductive AppState : Type := Home | Typing | Results | Multiplayer.

(** The component's state cells; [testText] is [None] when it holds
    [undefined]. *)
Record State : Type := mkState {
  appState : AppState;
  testText : option jsstring;
  results : option TypingInterface.TypingStats
}.

Definition initial : State := mkState Home (Some []) None.

Definition sampleTexts : list jsstring :=
  [js "The quick brown fox jumps over the lazy dog. This sentence contains every letter of the alphabet and is commonly used for typing practice.";
   js "To be or not to be, that is the question. Whether 'tis nobler in the mind to suffer the slings and arrows of outrageous fortune.";
   js "It was the best of times, it was the worst of times, it was the age of wisdom, it was the age of foolishness.";
   js "The only way to do great work is to love what you do. If you haven't found it yet, keep looking. Don't settle.";
   js "In the beginning was the Word, and the Word was with God, and the Word was God. He was with God in the beginning.";
   js "The future belongs to those who believe in the beauty of their dreams. Never give up on what you really want to do.";
   js "Success is not final, failure is not fatal: it is the courage to continue that counts. Keep pushing forward.";
   js "The way to get started is to quit talking and begin doing. Action is the foundational key to all success."].

(** [startSoloTest]; [r] is the value of [Math.random()]. *)
Definition startSoloTest (s : State) (r : number) : State :=
  let randomText :=
    arrayAt sampleTexts
            (Math_floor (fmul r (of_nat (length sampleTexts)))) in
  mkState Typing randomText (results s).

(** [handleTestComplete] *)
Definition handleTestComplete (s : State)
    (stats : TypingInterface.TypingStats) : State :=
  mkState Results (testText s) (Some stats).

(** [handleRestart] *)
Definition handleRestart (s : State) (r : number) : State :=
  startSoloTest (mkState (appState s) (testText s) None) r.

(** [handleJoinRace] *)
Definition handleJoinRace (s : State) : State :=
  mkState Multiplayer (testText s) (results s).

(** [handleExitMultiplayer], and the "Back to Home" buttons. *)
Definition handleExitMultiplayer (s : State) : State :=
  mkState Home (testText s) (results s).

(** What the user and the typing component can make the shell do. *)
Inductive Event : Type :=
| StartSolo (r : number)
| TestComplete (stats : TypingInterface.TypingStats)
| Restart (r : number)
| JoinRace
| BackHome.

Definition handle (s : State) (e : Event) : State :=
  match e with
  | StartSolo r => startSoloTest s r
  | TestComplete stats => handleTestComplete s stats
  | Restart r => handleRestart s r
  | JoinRace => handleJoinRace s
  | BackHome => handleExitMultiplayer s
  end.

(** A value [Math.random()] can return: a binary64 value in [0,1). *)
Definition randomValue (r : number) : Prop :=
  exists q, r = Fin q /\ representable q /\ 0 <= q /\ q < 1.

(** An event whose random draw, if it has one, is such a value. *)
Definition possible (e : Event) : Prop :=
  match e with
  | StartSolo r | Restart r => randomValue r
  | _ => True
  end.

(** What holds of every state the shell can reach: a sample passage
    behind the practice screen, statistics behind the results screen. *)
Definition reachable_ok (s : State) : Prop :=
  (appState s = Typing ->
   exists t, testText s = Some t /\ In t sampleTexts)
  /\ (appState s = Results -> results s <> None).

(** The props of the typing component on the practice screen. *)
Definition typingProps (s : State) : option TypingInterface.Props :=
  match appState s, testText s with
  | Typing, Some t => Some (TypingInterface.mkProps t true)
  | _, _ => None
  end.

(** Delivery of the typing component's callbacks: [onComplete] is
    [handleTestComplete], and no [onProgressUpdate] is passed. *)
Definition typingEvent (s : State) (e : TypingInterface.Event) : State :=
  match e with
  | TypingInterface.OnComplete stats => handleTestComplete s stats
  | TypingInterface.OnProgressUpdate _ => s
  end.

(** One key press on the practice screen: the typing component, mounted
    while the screen is shown, handles it, and its callbacks reach the
    shell. *)
Definition soloKey (st : State * TypingInterface.State)
    (k : TypingInterface.KeyPress) : State * TypingInterface.State :=
  let '(s, ti) := st in
  match typingProps s with
  | Some p =>
      let '(ti', evs) := TypingInterface.press p ti k in
      (fold_left typingEvent evs s, ti')
  | None => st
  end.

Definition soloKeys (st : State * TypingInterface.State)
    (ks : list TypingInterface.KeyPress) : State * TypingInterface.State :=
  fold_left soloKey ks st.

(** The statistics the results screen is rendered with, if it is. *)
Definition shownResults (s : State) : option TypingInterface.TypingStats :=
  match appState s with
  | Results => results s
  | _ => None
  end.

End App.

(* ================================================================== *)
(** * Facts about binary64 rounding *)
(* ================================================================== *)

Module JsNumFacts.
Import JsNum.
Local Open Scope Q_scope.

Lemma pow2_pos (e : Z) : 0 < pow2 e.
Proof. unfold pow2. apply Qpower_0_lt. reflexivity. Qed.

Lemma pow2_add (a b : Z) : pow2 (a + b) == pow2 a * pow2 b.
Proof. unfold pow2. apply Qpower_plus. discriminate. Qed.

Lemma pow2_le (a b : Z) : (a <= b)%Z -> pow2 a <= pow2 b.
Proof.
  intros H. unfold pow2. apply Qpower_le_compat_l; [exact H | discriminate].
Qed.

Lemma pow2_lt_inv (a b : Z) : pow2 a < pow2 b -> (a < b)%Z.
Proof.
  intros H. unfold pow2 in H.
  apply (Qpower_lt_compat_l_inv 2 a b H). reflexivity.
Qed.

Lemma pow2_nonneg_Z (e : Z) : (0 <= e)%Z -> pow2 e == inject_Z (2 ^ e).
Proof. intros H. unfold pow2. now rewrite Zpower_Qpower. Qed.

Lemma pow2_succ (a : Z) : pow2 (a + 1) == 2 * pow2 a.
Proof. rewrite pow2_add. unfold pow2 at 2. simpl. ring. Qed.

(** A positive integer lies in the binade of its [Z.log2]. *)
Lemma log2_binade (n : Z) :
  (0 < n)%Z ->
  pow2 (Z.log2 n) <= inject_Z n /\ inject_Z n < pow2 (Z.log2 n + 1).
Proof.
  intros Hn.
  destruct (Z.log2_spec n Hn) as [Hlo Hhi].
  pose proof (Z.log2_nonneg n) as Hnn.
  split.
  - rewrite pow2_nonneg_Z by exact Hnn.
    rewrite <- Zle_Qle. exact Hlo.
  - rewrite pow2_nonneg_Z by lia.
    rewrite <- Zlt_Qlt. replace (Z.log2 n + 1)%Z with (Z.succ (Z.log2 n)) by lia.
    exact Hhi.
Qed.

Lemma ilog2_spec (q : Q) :
  0 < q -> pow2 (ilog2 q) <= q /\ q < pow2 (ilog2 q + 1).
Proof.
  intros Hq. destruct q as [n d].
  assert (Hn : (0 < n)%Z).
  { unfold Qlt in Hq. simpl in Hq. lia. }
  unfold ilog2. cbn [Qnum Qden].
  set (a := Z.log2 n). set (b := Z.log2 (Z.pos d)).
  destruct (log2_binade Hn) as [Ha1 Ha2]. fold a in Ha1, Ha2.
  destruct (log2_binade (n := Z.pos d) eq_refl) as [Hb1 Hb2].
  fold b in Hb1, Hb2.
  assert (Hd : 0 < inject_Z (Z.pos d)) by reflexivity.
  assert (Hqd : n # d == inject_Z n / inject_Z (Z.pos d))
    by apply Qmake_Qdiv.
  pose proof (pow2_pos a) as Pa. pose proof (pow2_pos b) as Pb.
  pose proof (pow2_pos (a - b)) as Pk.
  assert (Eab : pow2 a == pow2 (a - b) * pow2 b).
  { rewrite <- pow2_add. now replace (a - b + b)%Z with a by lia. }
  rewrite pow2_succ in Ha2, Hb2.
  destruct (Qle_bool (pow2 (a - b)) (n # d)) eqn:E.
  - apply Qle_bool_iff in E. split; [exact E|].
    rewrite pow2_succ, Hqd.
    apply Qlt_shift_div_r; [exact Hd|].
    apply Qlt_le_trans with (2 * pow2 a); [exact Ha2|].
    rewrite Eab. nra.
  - assert (E' : n # d < pow2 (a - b)).
    { apply Qnot_le_lt. intro H. apply Qle_bool_iff in H. congruence. }
    replace (a - b - 1 + 1)%Z with (a - b)%Z by lia.
    split; [|exact E'].
    assert (Ek : pow2 (a - b) == 2 * pow2 (a - b - 1)).
    { rewrite <- pow2_succ. now replace (a - b - 1 + 1)%Z with (a - b)%Z by lia. }
    pose proof (pow2_pos (a - b - 1)) as Pk1.
    rewrite Hqd. apply Qle_shift_div_l; [exact Hd|].
    apply Qle_trans with (pow2 a); [|exact Ha1].
    rewrite Eab, Ek. nra.
Qed.

Lemma ilog2_le (a b : Q) : 0 < a -> a <= b -> (ilog2 a <= ilog2 b)%Z.
Proof.
  intros Ha Hab.
  destruct (ilog2_spec Ha) as [H1 _].
  destruct (ilog2_spec (q := b)) as [_ H2]; [lra|].
  assert (H : pow2 (ilog2 a) < pow2 (ilog2 b + 1)) by lra.
  apply pow2_lt_inv in H. lia.
Qed.

Lemma rne_bounds (q : Q) :
  (Qfloor q <= rne q <= Qfloor q + 1)%Z.
Proof.
  unfold rne.
  destruct (q - inject_Z (Qfloor q) ?= 1 # 2); [destruct (Z.even _)| |]; lia.
Qed.

Lemma rne_Z (n : Z) : rne (inject_Z n) = n.
Proof.
  unfold rne. rewrite Qfloor_Z.
  destruct (Qcompare_spec (inject_Z n - inject_Z n) (1 # 2)) as [E|L|G];
    [exfalso; lra | reflexivity | exfalso; lra].
Qed.

Lemma rne_le (a b : Q) : a <= b -> (rne a <= rne b)%Z.
Proof.
  intros Hab.
  pose proof (Qfloor_resp_le _ _ Hab) as Hf.
  pose proof (rne_bounds a) as Ba. pose proof (rne_bounds b) as Bb.
  destruct (Z.eq_dec (Qfloor a) (Qfloor b)) as [E|NE]; [|lia].
  unfold rne. rewrite <- E.
  destruct (Qcompare_spec (a - inject_Z (Qfloor a)) (1 # 2)) as [Ea|La|Ga];
    destruct (Qcompare_spec (b - inject_Z (Qfloor a)) (1 # 2)) as [Eb|Lb|Gb];
    try destruct (Z.even (Qfloor a)); try lia; exfalso; lra.
Qed.

Lemma rne_upper (a : Q) (n : Z) : a <= inject_Z n -> (rne a <= n)%Z.
Proof. intros H. rewrite <- (rne_Z n). now apply rne_le. Qed.

Lemma rne_lower (a : Q) (n : Z) : inject_Z n <= a -> (n <= rne a)%Z.
Proof. intros H. rewrite <- (rne_Z n). now apply rne_le. Qed.

(** Half-unit error of the nearest integer. *)
Lemma rne_error (q : Q) : Qabs (inject_Z (rne q) - q) <= 1 # 2.
Proof.
  pose proof (Qfloor_le q) as Hlo. pose proof (Qlt_floor q) as Hhi.
  rewrite inject_Z_plus in Hhi.
  apply Qabs_Qle_condition. unfold rne.
  destruct (Qcompare_spec (q - inject_Z (Qfloor q)) (1 # 2)) as [E|L|G];
    [destruct (Z.even (Qfloor q))| |];
    rewrite ?inject_Z_plus; change (inject_Z 1) with 1 in *; split; lra.
Qed.

Lemma ulp_expo (a : Q) : ulp a = pow2 (expo a - 52).
Proof. reflexivity. Qed.

Lemma expo_le (a b : Q) : 0 < a -> a <= b -> (expo a <= expo b)%Z.
Proof.
  intros Ha Hab. unfold expo. pose proof (ilog2_le Ha Hab). lia.
Qed.

Lemma pow2_split (e : Z) (k : Z) : pow2 e == pow2 k * pow2 (e - k).
Proof. rewrite <- pow2_add. now replace (k + (e - k))%Z with e by lia. Qed.

(** A positive rational rounds into the closure of its binade (or stays
    below the smallest normal number). *)
Lemma round_pos_upper (a : Q) :
  0 < a -> round_pos a <= pow2 (expo a + 1).
Proof.
  intros Ha. unfold round_pos. rewrite ulp_expo.
  set (e := expo a). pose proof (pow2_pos (e - 52)) as Pu.
  destruct (ilog2_spec Ha) as [_ Hhi].
  assert (Hle : pow2 (ilog2 a + 1) <= pow2 (e + 1)).
  { apply pow2_le. unfold e, expo. lia. }
  assert (E : pow2 (e + 1) == pow2 53 * pow2 (e - 52)).
  { rewrite (pow2_split (e + 1) 53). now replace (e + 1 - 53)%Z with (e - 52)%Z by lia. }
  assert (Hq : a / pow2 (e - 52) <= inject_Z (2 ^ 53)).
  { apply Qle_shift_div_r; [exact Pu|].
    rewrite <- pow2_nonneg_Z by lia. lra. }
  apply rne_upper in Hq. rewrite Zle_Qle in Hq.
  rewrite <- pow2_nonneg_Z in Hq by lia.
  rewrite E. apply Qmult_le_compat_r; lra.
Qed.

Lemma round_pos_lower (a : Q) :
  0 < a -> (emin < expo a)%Z -> pow2 (expo a) <= round_pos a.
Proof.
  intros Ha He. unfold round_pos. rewrite ulp_expo.
  assert (Eil : expo a = ilog2 a) by (unfold expo in *; lia).
  set (e := expo a) in *. pose proof (pow2_pos (e - 52)) as Pu.
  destruct (ilog2_spec Ha) as [Hlo _]. rewrite <- Eil in Hlo.
  assert (E : pow2 e == pow2 52 * pow2 (e - 52)) by apply pow2_split.
  assert (Hq : inject_Z (2 ^ 52) <= a / pow2 (e - 52)).
  { apply Qle_shift_div_l; [exact Pu|].
    rewrite <- pow2_nonneg_Z by lia. lra. }
  apply rne_lower in Hq. rewrite Zle_Qle in Hq.
  rewrite <- pow2_nonneg_Z in Hq by lia.
  rewrite E. apply Qmult_le_compat_r; lra.
Qed.

Lemma round_pos_nonneg (a : Q) : 0 < a -> 0 <= round_pos a.
Proof.
  intros Ha. unfold round_pos. pose proof (pow2_pos (expo a - 52)) as Pu.
  rewrite ulp_expo.
  assert (H : inject_Z 0 <= a / pow2 (expo a - 52)).
  { apply Qle_shift_div_l; [exact Pu|]. change (inject_Z 0) with 0. lra. }
  apply rne_lower in H. rewrite Zle_Qle in H. change (inject_Z 0) with 0 in H.
  apply Qmult_le_0_compat; lra.
Qed.

(** Rounding to the binary64 grid is monotone. *)
Lemma round_pos_le (a b : Q) :
  0 < a -> a <= b -> round_pos a <= round_pos b.
Proof.
  intros Ha Hab. assert (Hb : 0 < b) by lra.
  pose proof (expo_le Ha Hab) as He.
  destruct (Z.eq_dec (expo a) (expo b)) as [E|NE].
  - unfold round_pos. rewrite !ulp_expo, E.
    pose proof (pow2_pos (expo b - 52)) as Pu.
    apply Qmult_le_compat_r; [|lra].
    rewrite <- Zle_Qle. apply rne_le.
    apply Qle_shift_div_l; [exact Pu|].
    unfold Qdiv. rewrite <- Qmult_assoc, (Qmult_comm (/ _)), Qmult_inv_r; lra.
  - apply Qle_trans with (pow2 (expo a + 1)); [now apply round_pos_upper|].
    apply Qle_trans with (pow2 (expo b)).
    + apply pow2_le. lia.
    + apply round_pos_lower; [exact Hb|]. unfold expo in *. lia.
Qed.

Lemma rnd64_not_NaN (q : Q) : rnd64 q <> NaN.
Proof.
  unfold rnd64.
  destruct (q ?= 0); [| destruct (Qle_bool _ _) | destruct (Qle_bool _ _)];
    discriminate.
Qed.

Lemma rnd64_nonneg (q : Q) : 0 <= q -> leb (Fin 0) (rnd64 q) = true.
Proof.
  intros Hq. unfold rnd64.
  destruct (Qcompare_spec q 0) as [E|L|G].
  - reflexivity.
  - exfalso. lra.
  - destruct (Qle_bool (pow2 1024) (round_pos q)); [reflexivity|].
    unfold leb. apply Qle_bool_iff. pose proof (round_pos_nonneg G) as Hr.
    pose proof (Qred_correct (round_pos q)). lra.
Qed.

(** [rnd64] is monotone on the non-negative rationals. *)
Lemma rnd64_le (a b : Q) :
  0 <= a -> a <= b -> leb (rnd64 a) (rnd64 b) = true.
Proof.
  intros Ha Hab. unfold rnd64.
  destruct (Qcompare_spec a 0) as [Ea|La|Ga];
    destruct (Qcompare_spec b 0) as [Eb|Lb|Gb]; try (exfalso; lra).
  - reflexivity.
  - destruct (Qle_bool (pow2 1024) (round_pos b)); [reflexivity|].
    unfold leb. apply Qle_bool_iff. pose proof (round_pos_nonneg Gb) as Hr.
    pose proof (Qred_correct (round_pos b)). lra.
  - pose proof (round_pos_le Ga Hab) as Hr.
    destruct (Qle_bool (pow2 1024) (round_pos a)) eqn:Oa;
      destruct (Qle_bool (pow2 1024) (round_pos b)) eqn:Ob; try reflexivity.
    + exfalso. apply Qle_bool_iff in Oa.
      assert (H : Qle_bool (pow2 1024) (round_pos b) = true)
        by (apply Qle_bool_iff; lra).
      congruence.
    + unfold leb. apply Qle_bool_iff. now apply Qred_le.
Qed.

(** Below a value that rounds to a finite [hi], a non-negative rational
    rounds to a finite value between 0 and [hi]. *)
Lemma rnd64_between (a b hi : Q) :
  0 <= a -> a <= b -> rnd64 b = Fin hi ->
  exists r, rnd64 a = Fin r /\ 0 <= r /\ r <= hi.
Proof.
  intros Ha Hab Hb.
  pose proof (rnd64_le Ha Hab) as Hle. rewrite Hb in Hle.
  pose proof (rnd64_nonneg Ha) as H0.
  destruct (rnd64 a) as [| | |r]; try discriminate.
  exists r. unfold leb in Hle, H0. apply Qle_bool_iff in Hle, H0. auto.
Qed.

Lemma rnd64_one : rnd64 1 = Fin 1.
Proof. vm_compute. reflexivity. Qed.

Lemma rnd64_hundred : rnd64 (inject_Z 100) = Fin (inject_Z 100).
Proof. vm_compute. reflexivity. Qed.

Lemma inject_nat_nonneg (n : nat) : 0 <= inject_Z (Z.of_nat n).
Proof. change 0 with (inject_Z 0). rewrite <- Zle_Qle. lia. Qed.

Lemma inject_nat_pos (n : nat) : (0 < n)%nat -> 0 < inject_Z (Z.of_nat n).
Proof. intros H. change 0 with (inject_Z 0). rewrite <- Zlt_Qlt. lia. Qed.

(** Division of a count by a positive count is the rounded quotient. *)
Lemma fdiv_of_nat (c t : nat) :
  (0 < t)%nat ->
  fdiv (of_nat c) (of_nat t)
  = rnd64 (inject_Z (Z.of_nat c) / inject_Z (Z.of_nat t)).
Proof.
  intros Ht. unfold fdiv, of_nat, of_Z.
  destruct (Qeq_bool (inject_Z (Z.of_nat t)) 0) eqn:E; [|reflexivity].
  apply Qeq_bool_iff in E. pose proof (inject_nat_pos Ht). exfalso. lra.
Qed.

Lemma ratio_bounds (c t : nat) :
  (c <= t)%nat -> (0 < t)%nat ->
  0 <= inject_Z (Z.of_nat c) / inject_Z (Z.of_nat t) <= 1.
Proof.
  intros Hc Ht. pose proof (inject_nat_pos Ht) as Pt.
  pose proof (inject_nat_nonneg c) as Pc.
  assert (Hct : inject_Z (Z.of_nat c) <= inject_Z (Z.of_nat t))
    by (rewrite <- Zle_Qle; lia).
  split.
  - apply Qle_shift_div_l; [exact Pt|]. lra.
  - apply Qle_shift_div_r; [exact Pt|]. lra.
Qed.

(** The percentage [(c / t) * 100] of a part of a whole, as computed in
    binary64, is a finite value between 0 and 100. *)
Lemma percent_bounds (c t : nat) :
  (c <= t)%nat -> (0 < t)%nat ->
  exists y, fmul (fdiv (of_nat c) (of_nat t)) (of_Z 100) = Fin y
            /\ 0 <= y /\ y <= 100.
Proof.
  intros Hc Ht. rewrite (fdiv_of_nat c Ht).
  destruct (ratio_bounds Hc Ht) as [R0 R1].
  destruct (rnd64_between R0 R1 rnd64_one) as (z & Ez & Z0 & Z1).
  rewrite Ez. unfold fmul, of_Z.
  assert (H0 : 0 <= z * inject_Z 100) by (change (inject_Z 100) with 100; lra).
  assert (H1 : z * inject_Z 100 <= inject_Z 100)
    by (change (inject_Z 100) with 100; lra).
  destruct (rnd64_between H0 H1 rnd64_hundred) as (y & Ey & Y0 & Y1).
  exists y. change (inject_Z 100) with 100 in Y1. auto.
Qed.

(** The percentage grows with the part. *)
Lemma percent_le (c d t : nat) :
  (c <= d)%nat -> (0 < t)%nat ->
  leb (fmul (fdiv (of_nat c) (of_nat t)) (of_Z 100))
      (fmul (fdiv (of_nat d) (of_nat t)) (of_Z 100)) = true.
Proof.
  intros Hcd Ht. rewrite !(fdiv_of_nat _ Ht).
  pose proof (inject_nat_pos Ht) as Pt.
  pose proof (inject_nat_nonneg c) as Pc.
  assert (Hc0 : 0 <= inject_Z (Z.of_nat c) / inject_Z (Z.of_nat t))
    by (apply Qle_shift_div_l; [exact Pt|lra]).
  assert (Hle : inject_Z (Z.of_nat c) / inject_Z (Z.of_nat t)
                <= inject_Z (Z.of_nat d) / inject_Z (Z.of_nat t)).
  { apply Qmult_le_compat_r.
    - rewrite <- Zle_Qle. lia.
    - apply Qlt_le_weak, Qinv_lt_0_compat, Pt. }
  pose proof (rnd64_le Hc0 Hle) as Hm.
  pose proof (rnd64_nonneg Hc0) as Hn.
  destruct (rnd64 (inject_Z (Z.of_nat c) / inject_Z (Z.of_nat t)))
    as [| | |x] eqn:Ex; try discriminate;
    destruct (rnd64 (inject_Z (Z.of_nat d) / inject_Z (Z.of_nat t)))
    as [| | |y] eqn:Ey; try discriminate.
  - reflexivity.
  - change (fmul PInf (of_Z 100)) with PInf.
    change (fmul (Fin x) (of_Z 100)) with (rnd64 (x * inject_Z 100)).
    pose proof (rnd64_not_NaN (x * inject_Z 100)) as NN.
    destruct (rnd64 (x * inject_Z 100)); try congruence; reflexivity.
  - unfold fmul, of_Z. unfold leb in Hm, Hn. apply Qle_bool_iff in Hm, Hn.
    apply rnd64_le; change (inject_Z 100) with 100; lra.
Qed.

(** Rounding moves a positive rational by at most half a unit in the
    last place. *)
Lemma round_pos_error (a : Q) :
  0 < a -> Qabs (round_pos a - a) <= pow2 (expo a - 53).
Proof.
  intros Ha. unfold round_pos. rewrite ulp_expo.
  set (u := pow2 (expo a - 52)).
  assert (Pu : 0 < u) by apply pow2_pos.
  assert (Eu : u == 2 * pow2 (expo a - 53)).
  { unfold u. rewrite <- pow2_succ.
    now replace (expo a - 53 + 1)%Z with (expo a - 52)%Z by lia. }
  pose proof (rne_error (a / u)) as He.
  apply Qabs_Qle_condition in He. destruct He as [He1 He2].
  assert (Ea : a == (a / u) * u) by (field; lra).
  apply Qabs_Qle_condition.
  set (m := inject_Z (rne (a / u))) in *.
  set (q := a / u) in *.
  assert (H1 : 0 <= (m - q + (1 # 2)) * u) by (apply Qmult_le_0_compat; lra).
  assert (H2 : 0 <= ((1 # 2) - (m - q)) * u) by (apply Qmult_le_0_compat; lra).
  split; lra.
Qed.

Lemma expo_below (a : Q) (k : Z) :
  0 < a -> a < pow2 k -> (emin < k)%Z -> (expo a <= k - 1)%Z.
Proof.
  intros Ha Hk He. destruct (ilog2_spec Ha) as [Hlo _].
  assert (H : pow2 (ilog2 a) < pow2 k) by lra.
  apply pow2_lt_inv in H. unfold expo. lia.
Qed.

Lemma rnd64_error (a r : Q) (k : Z) :
  0 <= a -> a < pow2 k -> (emin < k)%Z -> rnd64 a = Fin r ->
  Qabs (r - a) <= pow2 (k - 54).
Proof.
  intros Ha Hk He Hr. unfold rnd64 in Hr.
  destruct (Qcompare_spec a 0) as [E|L|G].
  - assert (Er : 0 = r) by congruence. subst r.
    pose proof (pow2_pos (k - 54)).
    apply Qabs_Qle_condition. split; lra.
  - exfalso. lra.
  - destruct (Qle_bool (pow2 1024) (round_pos a)); [discriminate|].
    assert (Er : Qred (round_pos a) = r) by congruence. subst r. clear Hr.
    pose proof (round_pos_error G) as Herr.
    pose proof (expo_below G Hk He) as Hex.
    assert (Hp : pow2 (expo a - 53) <= pow2 (k - 54)) by (apply pow2_le; lia).
    pose proof (Qred_correct (round_pos a)) as Hq.
    apply Qabs_Qle_condition in Herr. apply Qabs_Qle_condition.
    split; lra.
Qed.

(** The binary64 percentage is within [2^-45] of the exact one. *)
Lemma percent_error (c t : nat) (y : Q) :
  (c <= t)%nat -> (0 < t)%nat ->
  fmul (fdiv (of_nat c) (of_nat t)) (of_Z 100) = Fin y ->
  Qabs (y - 100 * (inject_Z (Z.of_nat c) / inject_Z (Z.of_nat t)))
  <= pow2 (-45).
Proof.
  intros Hc Ht. rewrite (fdiv_of_nat c Ht).
  destruct (ratio_bounds Hc Ht) as [R0 R1].
  set (x := inject_Z (Z.of_nat c) / inject_Z (Z.of_nat t)) in *.
  destruct (rnd64_between R0 R1 rnd64_one) as (z & Ez & Z0 & Z1).
  rewrite Ez. unfold fmul, of_Z. intros Ey.
  assert (P1 : pow2 1 == 2) by reflexivity.
  assert (P7 : pow2 7 == 128) by reflexivity.
  assert (Hz : Qabs (z - x) <= pow2 (1 - 54)).
  { apply rnd64_error; [exact R0 | lra | reflexivity | exact Ez]. }
  assert (Hy : Qabs (y - z * inject_Z 100) <= pow2 (7 - 54)).
  { apply rnd64_error; [ | | reflexivity | exact Ey];
      change (inject_Z 100) with 100; lra. }
  change (inject_Z 100) with 100 in Hy.
  assert (E53 : pow2 (1 - 54) == 1 # 9007199254740992) by reflexivity.
  assert (E47 : pow2 (7 - 54) == 1 # 140737488355328) by reflexivity.
  assert (E45 : pow2 (-45) == 1 # 35184372088832) by reflexivity.
  rewrite E53 in Hz. rewrite E47 in Hy. rewrite E45.
  apply Qabs_Qle_condition in Hz, Hy. apply Qabs_Qle_condition.
  split; lra.
Qed.

(** Clamping a number that is not NaN into [0,100], as the client does
    before it sends one. *)
Lemma clamp_range (x : number) :
  isNaN x = false ->
  exists q, Math_max (of_Z 0) (Math_min (of_Z 100) x) = Fin q
            /\ 0 <= q /\ q <= 100.
Proof.
  destruct x as [| | |q]; [discriminate | | |]; intros _.
  - exists 100. repeat split; try reflexivity; discriminate.
  - exists 0. repeat split; try reflexivity; discriminate.
  - unfold Math_min, of_Z, ltb.
    destruct (Qle_bool (inject_Z 100) q) eqn:E1; cbn [negb].
    + exists 100. repeat split; try reflexivity; discriminate.
    + unfold Math_max, ltb.
      destruct (Qle_bool q (inject_Z 0)) eqn:E2; cbn [negb].
      * exists 0. repeat split; try reflexivity; discriminate.
      * exists q. split; [reflexivity|].
        assert (H1 : ~ inject_Z 100 <= q)
          by (intro H; apply Qle_bool_iff in H; congruence).
        assert (H2 : ~ q <= inject_Z 0)
          by (intro H; apply Qle_bool_iff in H; congruence).
        change (inject_Z 100) with 100 in H1. change (inject_Z 0) with 0 in H2.
        split; lra.
Qed.

(** The larger of 0 and a number that is not NaN is not negative. *)
Lemma max0_nonneg (x : number) :
  isNaN x = false -> leb (of_Z 0) (Math_max (of_Z 0) x) = true.
Proof.
  destruct x as [| | |q]; [discriminate| | |]; intros _; try reflexivity.
  unfold Math_max, of_Z, ltb.
  destruct (Qle_bool q (inject_Z 0)) eqn:E; cbn [negb]; [reflexivity|].
  unfold leb. apply Qle_bool_iff.
  assert (H : ~ q <= inject_Z 0)
    by (intro H; apply Qle_bool_iff in H; congruence).
  lra.
Qed.

Lemma fsub_Z_not_NaN (n : Z) (x : number) :
  isNaN x = false -> isNaN (fsub (of_Z n) x) = false.
Proof.
  destruct x as [| | |q]; [discriminate| | |]; intros _; try reflexivity.
  unfold fsub, of_Z. pose proof (rnd64_not_NaN (inject_Z n - q)).
  destruct (rnd64 (inject_Z n - q)); congruence || reflexivity.
Qed.

Lemma fdiv_1000_not_NaN (x : number) :
  isNaN x = false -> isNaN (fdiv x (of_Z 1000)) = false.
Proof.
  destruct x as [| | |q]; [discriminate| | |]; intros _; try reflexivity.
  unfold fdiv, of_Z. change (Qeq_bool (inject_Z 1000) 0) with false.
  pose proof (rnd64_not_NaN (q / inject_Z 1000)).
  destruct (rnd64 (q / inject_Z 1000)); congruence || reflexivity.
Qed.

Lemma truthy_not_NaN (x : number) : truthy x = true -> isNaN x = false.
Proof. destruct x; [discriminate | | |]; reflexivity. Qed.

Lemma leb_trans (x y z : number) :
  leb x y = true -> leb y z = true -> leb x z = true.
Proof.
  destruct x as [| | |a], y as [| | |b], z as [| | |c]; cbn;
    try discriminate; try reflexivity.
  rewrite !Qle_bool_iff. apply Qle_trans.
Qed.

Lemma nondecreasing_cons (v : number) (l : list number) :
  Forall (fun x => leb v x = true) l -> nondecreasing l ->
  nondecreasing (v :: l).
Proof.
  intros Hall Hl. destruct l as [|x l]; [exact I|].
  inversion Hall; subst. split; assumption.
Qed.

Lemma Math_round_nonneg (x : number) :
  leb (Fin 0) x = true -> leb (Fin 0) (Math_round x) = true.
Proof.
  destruct x as [| | |q]; try (intros; assumption).
  unfold Math_round, leb. rewrite !Qle_bool_iff. intros H.
  change 0 with (inject_Z 0). rewrite <- Zle_Qle.
  change 0%Z with (Qfloor (inject_Z 0)). apply Qfloor_resp_le.
  change (inject_Z 0) with 0. lra.
Qed.

End JsNumFacts.

(* ================================================================== *)
(** * Properties of the typing component *)
(* ================================================================== *)

Module TypingFacts.
Import JsNum JsStr JsVal JsNumFacts TypingInterface.

Lemma countCorrect_le (txt typed_ : jsstring) :
  (countCorrect txt typed_ <= length typed_)%nat.
Proof.
  unfold countCorrect.
  eapply Nat.le_trans; [apply filter_length_le|].
  rewrite length_combine, length_seq. lia.
Qed.

(** Words per minute are never negative, whatever the clock says. *)
Lemma wpm_nonneg (w : nat) (te : number) :
  leb (of_Z 0)
      (if gtb te (of_Z 0) then Math_round (fdiv (of_nat w) te) else of_Z 0)
  = true.
Proof.
  destruct te as [| | |q]; try reflexivity.
  unfold gtb, ltb, of_Z.
  destruct (Qle_bool q (inject_Z 0)) eqn:E; [reflexivity|]. cbn [negb].
  assert (Hq : (0 < q)%Q).
  { apply Qnot_le_lt. intro H. apply Qle_bool_iff in H.
    change (inject_Z 0) with 0%Q in E. congruence. }
  apply Math_round_nonneg. unfold fdiv, of_nat, of_Z.
  destruct (Qeq_bool q 0) eqn:E0.
  - apply Qeq_bool_iff in E0. exfalso. lra.
  - apply rnd64_nonneg. apply Qle_shift_div_l; [exact Hq|].
    pose proof (inject_nat_nonneg w). lra.
Qed.

(** The accuracy is an integer between 0 and 100, within [1/2 + 2^-45]
    of the exact percentage. *)
Lemma accuracy_value (c t : nat) :
  (c <= t)%nat ->
  exists a : Z,
    (if (0 <? t)%nat
     then Math_round (fmul (fdiv (of_nat c) (of_nat t)) (of_Z 100))
     else of_Z 100) = of_Z a
    /\ (0 <= a <= 100)%Z
    /\ ((0 < Z.of_nat t)%Z ->
        (Qabs (inject_Z a
               - 100 * (inject_Z (Z.of_nat c) / inject_Z (Z.of_nat t)))
         <= (1 # 2) + pow2 (-45))%Q).
Proof.
  intros Hle.
  destruct (Nat.ltb_spec 0 t) as [Ht|Ht].
  - destruct (percent_bounds Hle Ht) as (y & Ey & Y0 & Y1).
    pose proof (percent_error Hle Ht Ey) as Herr.
    rewrite Ey. unfold Math_round.
    exists (Qfloor (y + (1 # 2))). split; [reflexivity|].
    pose proof (Qfloor_le (y + (1 # 2))) as F1.
    pose proof (Qlt_floor (y + (1 # 2))) as F2.
    rewrite inject_Z_plus in F2. change (inject_Z 1) with 1%Q in F2.
    split.
    + split.
      * change 0%Z with (Qfloor 0). apply Qfloor_resp_le. lra.
      * change 100%Z with (Qfloor (100 + (1 # 2))). apply Qfloor_resp_le. lra.
    + intros _. apply Qabs_Qle_condition in Herr.
      apply Qabs_Qle_condition.
      set (x := (inject_Z (Z.of_nat c) / inject_Z (Z.of_nat t))%Q) in *.
      clearbody x. split; lra.
  - exists 100%Z. split; [reflexivity|]. split; [lia|]. intros; lia.
Qed.

(** C10 (as amended). For every typed string, passage and clock
    readings, [calculateStats] returns a record in which correct and
    incorrect characters add up to the total, the total is the length of
    the typed string, the accuracy is [Math.round] of the binary64
    percentage [(correct / total) * 100] when something was typed and 100
    when nothing was, the accuracy is an integer between 0 and 100 within
    [1/2 + 2^-45] of the exact percentage, and the words per minute are
    not negative. *)
Theorem C10_calculateStats_record
    (txt typed_ : jsstring) (idx : nat) (start now1 now2 : number) :
  let st := calculateStats txt typed_ idx start now1 now2 in
  (correctChars st + incorrectChars st = totalChars st)%Z
  /\ totalChars st = Z.of_nat (length typed_)
  /\ (0 <= correctChars st <= totalChars st)%Z
  /\ ((0 < totalChars st)%Z ->
      accuracy st
      = Math_round (fmul (fdiv (of_Z (correctChars st)) (of_Z (totalChars st)))
                         (of_Z 100)))
  /\ (totalChars st = 0%Z -> accuracy st = of_Z 100)
  /\ (exists a : Z,
        accuracy st = of_Z a /\ (0 <= a <= 100)%Z
        /\ ((0 < totalChars st)%Z ->
            (Qabs (inject_Z a
                   - 100 * (inject_Z (correctChars st)
                            / inject_Z (totalChars st)))
             <= (1 # 2) + pow2 (-45))%Q))
  /\ leb (of_Z 0) (wpm st) = true.
Proof.
  intros st. unfold st, calculateStats.
  cbn [correctChars incorrectChars totalChars accuracy wpm].
  pose proof (countCorrect_le txt typed_) as Hle.
  set (c := countCorrect txt typed_) in *.
  set (t := length typed_) in *.
  repeat split.
  - lia.
  - lia.
  - lia.
  - intros Ht. destruct (Nat.ltb_spec 0 t); [reflexivity | lia].
  - intros Ht. destruct (Nat.ltb_spec 0 t); [lia | reflexivity].
  - apply (accuracy_value Hle).
  - apply wpm_nonneg.
Qed.

Lemma str_eqb_eq (a b : jsstring) : str_eqb a b = true <-> a = b.
Proof.
  revert b. induction a as [|x a IH]; destruct b as [|y b]; cbn;
    try (split; [discriminate | congruence]); [tauto|].
  rewrite andb_true_iff, IH. unfold char_eqb. rewrite N.eqb_eq.
  split; [intros [-> ->]; reflexivity | intros H; injection H; auto].
Qed.

Lemma str_eqb_neq (a b : jsstring) : a <> b -> str_eqb a b = false.
Proof.
  intros H. destruct (str_eqb a b) eqn:E; [|reflexivity].
  apply str_eqb_eq in E. contradiction.
Qed.

(** What a printable key press does while the component is active. *)
Lemma press_printable (p : Props) (s : State) (k : KeyPress) :
  isActive p = true -> key k <> Backspace -> (length (key k) <= 1)%nat ->
  press p s k
  = let startTime' := match started (startTime s) with
                      | Some _ => startTime s
                      | None => Some (at0 k)
                      end in
    if (length (text p) <=? currentIndex s)%nat
    then (mkState (typedText s) (currentIndex s) startTime' (stats s)
                  (characters s),
          match started (startTime s) with
          | Some start =>
              [OnComplete (calculateStats (text p) (typedText s)
                             (currentIndex s) start (at1 k) (at2 k))]
          | None => []
          end)
    else (mkState (typedText s ++ key k) (currentIndex s + 1) startTime'
                  (stats s)
                  (recolour (typedText s ++ key k) (currentIndex s + 1)
                            (characters s)),
          if (length (text p) <=? currentIndex s + 1)%nat
          then match started (startTime s) with
               | Some start =>
                   [OnComplete (calculateStats (text p) (typedText s ++ key k)
                                  (currentIndex s + 1) start (at1 k) (at2 k))]
               | None => []
               end
          else []).
Proof.
  intros Ha Hk Hl. unfold press, handleKeyPress. rewrite Ha. cbn [negb].
  rewrite (str_eqb_neq Hk).
  destruct (Nat.ltb_spec 1 (length (key k))); [lia | reflexivity].
Qed.

Lemma length_slice_init (t : jsstring) :
  length (slice_init t) = (length t - 1)%nat.
Proof.
  unfold slice_init. destruct t as [|c t]; [reflexivity|].
  rewrite (@app_removelast_last _ (c :: t) c) at 2 by discriminate.
  rewrite length_app. cbn. lia.
Qed.

Lemma press_consistent (p : Props) (s : State) (k : KeyPress) :
  key k <> [] -> consistent p s -> consistent p (fst (press p s k)).
Proof.
  intros Hk [Hlen Hidx]. unfold press, handleKeyPress.
  destruct (isActive p); cbn [negb]; [|split; assumption].
  destruct (str_eqb (key k) Backspace).
  - destruct (Nat.ltb_spec 0 (currentIndex s)); cbn; [|split; assumption].
    unfold consistent; cbn. rewrite length_slice_init. lia.
  - destruct (Nat.ltb_spec 1 (length (key k))); [split; assumption|].
    destruct (Nat.leb_spec (length (text p)) (currentIndex s));
      [split; assumption|].
    unfold consistent; cbn. rewrite length_app.
    destruct (key k) as [|c [|d r]]; [contradiction | cbn; lia | cbn in *; lia].
Qed.

(** A completion reported from a consistent state covers the whole
    passage. *)
Lemma press_complete_total (p : Props) (s : State) (k : KeyPress)
    (st : TypingStats) :
  key k <> [] -> consistent p s ->
  In (OnComplete st) (snd (press p s k)) ->
  totalChars st = Z.of_nat (length (text p)).
Proof.
  intros Hk [Hlen Hidx]. unfold press, handleKeyPress.
  destruct (isActive p); cbn [negb]; [|intros []].
  destruct (str_eqb (key k) Backspace).
  - destruct (0 <? currentIndex s)%nat; intros [].
  - destruct (Nat.ltb_spec 1 (length (key k))); [intros []|].
    destruct (Nat.leb_spec (length (text p)) (currentIndex s)).
    + cbn [snd]. destruct (started (startTime s)); [|intros []].
      intros [E|[]]. injection E as <-. cbn. lia.
    + cbn [snd].
      destruct (Nat.leb_spec (length (text p)) (currentIndex s + 1));
        [|intros []].
      destruct (started (startTime s)); [|intros []].
      intros [E|[]]. injection E as <-. cbn. rewrite length_app.
      destruct (key k) as [|c [|d r]]; [contradiction | cbn; lia | cbn in *; lia].
Qed.

Lemma run_complete_total (p : Props) (ks : list KeyPress) :
  forall (s : State) (st : TypingStats),
    Forall (fun k => key k <> []) ks -> consistent p s ->
    In (OnComplete st) (snd (run p s ks)) ->
    totalChars st = Z.of_nat (length (text p)).
Proof.
  induction ks as [|k ks IH]; intros s st Hks Hc; [intros []|].
  inversion Hks as [|? ? Hk Hrest]; subst.
  cbn [run].
  pose proof (press_consistent k Hk Hc) as Hc'.
  pose proof (@press_complete_total p s k st Hk Hc) as Hhead.
  destruct (press p s k) as [s1 ev1] eqn:E1. cbn [fst snd] in *.
  specialize (IH s1 st Hrest Hc').
  destruct (run p s1 ks) as [s2 ev2]. cbn [snd] in *.
  intros Hin. apply in_app_or in Hin. destruct Hin; auto.
Qed.

Lemma init_consistent (p : Props) : consistent p (init (text p)).
Proof. split; cbn; lia. Qed.

Lemma run_app (p : Props) (a b : list KeyPress) :
  forall s,
    run p s (a ++ b)
    = let '(s1, e1) := run p s a in
      let '(s2, e2) := run p s1 b in
      (s2, e1 ++ e2).
Proof.
  induction a as [|k a IH]; intros s; cbn [run app].
  - destruct (run p s b). reflexivity.
  - destruct (press p s k) as [s1 ev1]. rewrite IH.
    destruct (run p s1 a) as [s2 ev2]. destruct (run p s2 b) as [s3 ev3].
    now rewrite app_assoc.
Qed.

Lemma typedKey_printable (k : KeyPress) :
  typedKey k -> key k <> Backspace /\ (length (key k) <= 1)%nat /\ key k <> [].
Proof.
  intros [[c E] _]. rewrite E. repeat split; [discriminate | cbn; lia | discriminate].
Qed.

(** Typing stays silent until the last character: no completion is
    reported, the typed text grows by the keys, and the timer runs. *)
Lemma run_typing_prefix (p : Props) (ks : list KeyPress) :
  forall s,
    isActive p = true -> Forall typedKey ks ->
    (currentIndex s + length ks < length (text p))%nat ->
    snd (run p s ks) = []
    /\ typedText (fst (run p s ks)) = typedText s ++ typedBy ks
    /\ currentIndex (fst (run p s ks)) = (currentIndex s + length ks)%nat
    /\ (ks <> [] \/ started (startTime s) <> None ->
        started (startTime (fst (run p s ks))) <> None).
Proof.
  induction ks as [|k ks IH]; intros s Ha Hks Hlen.
  - cbn. rewrite app_nil_r. repeat split; try lia. intros [H|H]; congruence.
  - inversion Hks as [|? ? Hk Hrest]; subst.
    destruct (typedKey_printable Hk) as (Hb & Hl & _).
    cbn [run]. rewrite (@press_printable p s k Ha Hb Hl). cbn zeta.
    cbn [length] in Hlen.
    destruct (Nat.leb_spec (length (text p)) (currentIndex s)); [lia|].
    destruct (Nat.leb_spec (length (text p)) (currentIndex s + 1)); [lia|].
    match goal with |- context [run p ?s1 ks] => specialize (IH s1 Ha Hrest) end.
    cbn [currentIndex typedText startTime] in IH.
    destruct IH as (E1 & E2 & E3 & E4); [lia|].
    match goal with |- context [run p ?s1 ks] =>
      destruct (run p s1 ks) as [s2 ev2] end.
    cbn [fst snd] in *. subst ev2.
    repeat split.
    + rewrite E2. unfold typedBy. cbn. now rewrite <- app_assoc.
    + rewrite E3. cbn. lia.
    + intros _. apply E4. right.
      destruct (started (startTime s)) eqn:Es; [congruence|].
      destruct Hk as [_ Ht]. cbn. rewrite Ht. discriminate.
Qed.

(** Typing as many characters as the passage has, whatever they are,
    reports the completion once, on the last key press (for a passage of
    at least two characters). *)
Lemma run_typing_all (p : Props) (ks : list KeyPress) :
  isActive p = true -> Forall typedKey ks ->
  length ks = length (text p) -> (2 <= length ks)%nat ->
  exists st,
    snd (run p (init (text p)) ks) = [OnComplete st]
    /\ totalChars st = Z.of_nat (length (text p))
    /\ correctChars st = Z.of_nat (countCorrect (text p) (typedBy ks)).
Proof.
  intros Ha Hks Hlen H2.
  destruct (@exists_last _ ks) as (ks' & k & ->).
  { intro E. subst ks. cbn in H2. lia. }
  apply Forall_app in Hks. destruct Hks as [Hks' Hk].
  inversion Hk as [|? ? Hk1 _]; subst.
  rewrite length_app in Hlen, H2. cbn [length] in Hlen, H2.
  destruct (@run_typing_prefix p ks' (init (text p)) Ha Hks')
    as (E1 & E2 & E3 & E4).
  { cbn. lia. }
  rewrite run_app.
  destruct (run p (init (text p)) ks') as [s1 ev1]. cbn [fst snd] in *.
  subst ev1. cbn [run].
  destruct (typedKey_printable Hk1) as (Hb & Hl & _).
  rewrite (@press_printable p s1 k Ha Hb Hl). cbn zeta.
  cbn [init currentIndex typedText] in E2, E3.
  destruct (Nat.leb_spec (length (text p)) (currentIndex s1)); [lia|].
  destruct (Nat.leb_spec (length (text p)) (currentIndex s1 + 1)); [|lia].
  destruct (started (startTime s1)) as [start|] eqn:Es.
  2: { exfalso. apply E4; [|reflexivity]. left. intro E. subst ks'. cbn in H2. lia. }
  eexists. split; [reflexivity|].
  cbn [calculateStats totalChars correctChars].
  rewrite E2. cbn [app]. unfold typedBy. rewrite map_app, concat_app.
  cbn [map concat]. rewrite app_nil_r.
  split; [|reflexivity].
  rewrite length_app.
  assert (Hn : length (concat (map key ks')) = length ks').
  { clear - Hks'. induction Hks' as [|x l [[c Ec] _] _ IH]; [reflexivity|].
    cbn. rewrite Ec. cbn. now rewrite IH. }
  destruct Hk1 as [[c Ec] _]. rewrite Hn, Ec. cbn. lia.
Qed.

(** Keys that type nothing raise nothing. *)
Lemma press_silent (p : Props) (s : State) (k : KeyPress) :
  isActive p = false \/ key k = Backspace \/ (1 < length (key k))%nat ->
  snd (press p s k) = [].
Proof.
  unfold press, handleKeyPress. intros [H|[H|H]].
  - rewrite H. reflexivity.
  - destruct (isActive p); [|reflexivity]. cbn [negb].
    rewrite (proj2 (str_eqb_eq _ _) H).
    destruct (0 <? currentIndex s)%nat; reflexivity.
  - destruct (isActive p); [|reflexivity]. cbn [negb].
    destruct (str_eqb (key k) Backspace).
    + destruct (0 <? currentIndex s)%nat; reflexivity.
    + destruct (Nat.ltb_spec 1 (length (key k))); [reflexivity | lia].
Qed.

(** Ten characters typed with none wrong, none typed, and 23 correct out
    of 40: the accuracy is 100, 100 and, the binary64 product
    [(23 / 40) * 100] falling just below 57.5, 57. *)
Lemma C10_witness :
  let ok := calculateStats (js "0123456789") (js "0123456789") 10
                           (of_Z 1000) (of_Z 61000) (of_Z 61000) in
  let none := calculateStats (js "ab") [] 0 (of_Z 1000) (of_Z 61000)
                             (of_Z 61000) in
  let mixed := calculateStats (repeat 97%N 40)
                              (repeat 97%N 23 ++ repeat 98%N 17) 40
                              (of_Z 1000) (of_Z 61000) (of_Z 61000) in
  (accuracy ok = of_Z 100 /\ totalChars ok = 10%Z /\ wpm ok = of_Z 1)
  /\ (accuracy none = of_Z 100 /\ totalChars none = 0%Z)
  /\ (correctChars mixed = 23%Z /\ incorrectChars mixed = 17%Z
      /\ accuracy mixed = of_Z 57).
Proof.
  intros ok none mixed.
  destruct (C10_calculateStats_record (js "0123456789") (js "0123456789") 10
              (of_Z 1000) (of_Z 61000) (of_Z 61000))
    as (_ & Ht & _ & Hacc & _).
  destruct (C10_calculateStats_record (js "ab") [] 0 (of_Z 1000) (of_Z 61000)
              (of_Z 61000)) as (_ & Ht0 & _ & _ & Hacc0 & _).
  destruct (C10_calculateStats_record (repeat 97%N 40)
              (repeat 97%N 23 ++ repeat 98%N 17) 40
              (of_Z 1000) (of_Z 61000) (of_Z 61000))
    as (Hsum & _ & _ & Hacc1 & _).
  split; [|split].
  - split; [|split; [exact Ht | vm_compute; reflexivity]].
    fold ok in Hacc. rewrite Hacc; [vm_compute; reflexivity | reflexivity].
  - split; [apply Hacc0; reflexivity | exact Ht0].
  - fold mixed in Hacc1, Hsum.
    assert (Ec : correctChars mixed = 23%Z) by (vm_compute; reflexivity).
    split; [exact Ec|].
    split; [rewrite Ec in Hsum; vm_compute in Hsum |- *; reflexivity|].
    rewrite Hacc1; [vm_compute; reflexivity | reflexivity].
Defined.

(** C10, as stated, fails on the accuracy formula: with 23 correct
    characters out of 40 the exact percentage is 57.5, which rounds to 58
    (halves upwards, and to even alike), while [calculateStats] returns
    57: the quotient 23/40 is rounded to binary64 before it is multiplied
    by 100, and the product falls just below 57.5. *)
Lemma C10_counterexample :
  let st := calculateStats (repeat 97%N 40)
                           (repeat 97%N 23 ++ repeat 98%N 17) 40
                           (of_Z 1000) (of_Z 61000) (of_Z 61000) in
  let exact := (100 * (inject_Z (correctChars st) / inject_Z (totalChars st)))%Q in
  correctChars st = 23%Z /\ totalChars st = 40%Z
  /\ (exact == 115 # 2)%Q
  /\ roundHalfUp exact = 58%Z /\ rne exact = 58%Z
  /\ accuracy st = of_Z 57
  /\ accuracy st <> of_Z (roundHalfUp exact).
Proof.
  cbv zeta.
  repeat split; try (vm_compute; reflexivity).
  vm_compute. discriminate.
Qed.

End TypingFacts.

(* ================================================================== *)
(** * Properties of the race client *)
(* ================================================================== *)

Module ClientFacts.
Import JsNum JsStr JsVal JsNumFacts MultiplayerRace.

Lemma started_time_truthy (s : State) (start : number) :
  started_time s = Some start -> isNaN start = false.
Proof.
  unfold started_time. destruct (raceStartTime s) as [t|]; [|discriminate].
  destruct (truthy t) eqn:E; [|discriminate].
  intros H. injection H as <-. now apply truthy_not_NaN.
Qed.

Lemma elapsed_not_NaN (now : Z) (start : number) :
  isNaN start = false ->
  isNaN (fdiv (fsub (of_Z now) start) (of_Z 1000)) = false.
Proof. intros H. now apply fdiv_1000_not_NaN, fsub_Z_not_NaN. Qed.

(** The three outcomes of [handleRaceComplete]. *)
Lemma handleRaceComplete_idle (s : State) (stats_ : jsval) (now : Z) :
  canSubmit s = false -> handleRaceComplete s stats_ now = (s, []).
Proof.
  unfold canSubmit, handleRaceComplete.
  destruct (socket s); [|reflexivity].
  destruct (started_time s); [|reflexivity].
  intros ->. reflexivity.
Qed.

Lemma handleRaceComplete_sends (s : State) (stats_ : jsval) (now : Z)
    (w a : number) :
  canSubmit s = true ->
  get stats_ (js "wpm") = Some (VNum w) ->
  get stats_ (js "accuracy") = Some (VNum a) ->
  isNaN w = false -> isNaN a = false ->
  exists start,
    started_time s = Some start
    /\ handleRaceComplete s stats_ now
       = (s, [mkEmit (js "raceFinished")
                (VObj [(js "finalWPM", VNum (Math_max (of_Z 0) w));
                       (js "finalAccuracy",
                        VNum (Math_max (of_Z 0) (Math_min (of_Z 100) a)));
                       (js "timeTaken",
                        VNum (Math_max (of_Z 0)
                                (fdiv (fsub (of_Z now) start)
                                      (of_Z 1000))))])]).
Proof.
  unfold canSubmit, handleRaceComplete.
  destruct (socket s); [|discriminate].
  destruct (started_time s) as [start|]; [|discriminate].
  intros -> -> -> -> ->. exists start. split; reflexivity.
Qed.

Lemma handleRaceComplete_rejects (s : State) (stats_ : jsval) (now : Z) :
  canSubmit s = true -> ~ wellFormed stats_ ->
  exists m,
    (m = invalidStatsMsg \/ m = submitFailedMsg)
    /\ handleRaceComplete s stats_ now
       = (set_connectionError s (Some m), []).
Proof.
  unfold canSubmit, handleRaceComplete.
  destruct (socket s); [|discriminate].
  destruct (started_time s) as [start|]; [|discriminate].
  intros -> Hbad.
  destruct (get stats_ (js "wpm")) as [w|] eqn:Ew;
    [|exists submitFailedMsg; split; [right|]; reflexivity].
  destruct (get stats_ (js "accuracy")) as [a|] eqn:Ea.
  2: { exists submitFailedMsg. split; [right; reflexivity|].
       destruct w; reflexivity. }
  destruct w as [| | |w| | |];
    try (exists invalidStatsMsg; split; [left|]; reflexivity).
  destruct a as [| | |a| | |];
    try (exists invalidStatsMsg; split; [left|]; reflexivity).
  destruct (isNaN w) eqn:Nw;
    [exists invalidStatsMsg; split; [left|]; reflexivity|].
  destruct (isNaN a) eqn:Na;
    [exists invalidStatsMsg; split; [left|]; reflexivity|].
  exfalso. apply Hbad. exists w, a. auto.
Qed.

Lemma wellFormed_dec (stats_ : jsval) : wellFormed stats_ \/ ~ wellFormed stats_.
Proof.
  unfold wellFormed.
  destruct (get stats_ (js "wpm")) as [[| | |w| | |]|];
    try (right; intros (w' & a' & H & _); discriminate).
  destruct (get stats_ (js "accuracy")) as [[| | |a| | |]|];
    try (right; intros (w' & a' & _ & H & _); discriminate).
  destruct (isNaN w) eqn:Nw.
  { right. intros (w' & a' & H & _ & H' & _). congruence. }
  destruct (isNaN a) eqn:Na.
  { right. intros (w' & a' & _ & H & _ & H'). congruence. }
  left. exists w, a. auto.
Qed.

(** What [handleRaceComplete] sends, and when. *)
Lemma handleRaceComplete_emits (s : State) (stats_ : jsval) (now : Z)
    (e : Emit) :
  In e (snd (handleRaceComplete s stats_ now)) ->
  fst (handleRaceComplete s stats_ now) = s
  /\ canSubmit s = true
  /\ event e = js "raceFinished"
  /\ exists (w t : number) (a : Q),
       payload e = VObj [(js "finalWPM", VNum w);
                         (js "finalAccuracy", VNum (Fin a));
                         (js "timeTaken", VNum t)]
       /\ leb (of_Z 0) w = true
       /\ (0 <= a /\ a <= 100)%Q
       /\ leb (of_Z 0) t = true.
Proof.
  intros Hin.
  destruct (canSubmit s) eqn:Hg.
  2: { rewrite (@handleRaceComplete_idle s stats_ now Hg) in Hin. destruct Hin. }
  destruct (wellFormed_dec stats_) as [(w & a & Ew & Ea & Nw & Na)|Hbad].
  - destruct (@handleRaceComplete_sends s stats_ now w a Hg Ew Ea Nw Na)
      as (start & Es & E).
    rewrite E in *. cbn [fst snd] in *. destruct Hin as [<-|[]].
    repeat split.
    destruct (@clamp_range a Na) as (q & Eq & Q0 & Q1).
    eexists _, _, q. rewrite Eq. split; [reflexivity|].
    split; [now apply max0_nonneg|]. split; [auto|].
    apply max0_nonneg, elapsed_not_NaN. now apply (started_time_truthy s).
  - destruct (@handleRaceComplete_rejects s stats_ now Hg Hbad) as (m & _ & E).
    rewrite E in Hin. destruct Hin.
Qed.

(** C3 (as amended). Every [raceFinished] message the client emits
    carries words per minute not below 0, an accuracy within [0,100] and an
    elapsed time not below 0, and leaves the state as it was; when the
    statistics are malformed nothing is emitted, and, provided the guard
    of the handler holds (socket present, race start time set, connected),
    an error message is stored and nothing else of the state changes; when
    the guard does not hold the handler does nothing at all. *)
Theorem C3_raceFinished_validated :
  (forall (s : State) (stats_ : jsval) (now : Z) (e : Emit),
      In e (snd (handleRaceComplete s stats_ now)) ->
      fst (handleRaceComplete s stats_ now) = s
      /\ canSubmit s = true
      /\ event e = js "raceFinished"
      /\ exists (w t : number) (a : Q),
           payload e = VObj [(js "finalWPM", VNum w);
                             (js "finalAccuracy", VNum (Fin a));
                             (js "timeTaken", VNum t)]
           /\ leb (of_Z 0) w = true
           /\ (0 <= a /\ a <= 100)%Q
           /\ leb (of_Z 0) t = true)
  /\ (forall (s : State) (stats_ : jsval) (now : Z),
         ~ wellFormed stats_ ->
         snd (handleRaceComplete s stats_ now) = []
         /\ (canSubmit s = true ->
             exists m,
               (m = invalidStatsMsg \/ m = submitFailedMsg)
               /\ fst (handleRaceComplete s stats_ now)
                  = set_connectionError s (Some m))
         /\ (canSubmit s = false ->
             fst (handleRaceComplete s stats_ now) = s)).
Proof.
  split.
  - apply handleRaceComplete_emits.
  - intros s stats_ now Hbad.
    destruct (canSubmit s) eqn:Hg.
    + destruct (@handleRaceComplete_rejects s stats_ now Hg Hbad) as (m & Hm & E).
      rewrite E. cbn [fst snd]. split; [reflexivity|].
      split; [|discriminate]. intros _. exists m. auto.
    + rewrite (@handleRaceComplete_idle s stats_ now Hg). cbn [fst snd].
      split; [reflexivity|]. split; [discriminate | reflexivity].
Qed.

(** A live client, connected and racing on the passage "ab", handed
    malformed statistics: the error is stored and nothing is sent. *)
Lemma C3_witness :
  let s := mkState (Some (js "sock")) (mkLobby [] (of_Z 0) racing) (js "ab")
                   (Some (of_Z 1000)) None (js "ann") true false None None
                   true [] true in
  let bad := VObj [(js "wpm", VNum NaN); (js "accuracy", VNum (of_Z 50))] in
  snd (handleRaceComplete s bad 5000) = []
  /\ exists m,
       (m = invalidStatsMsg \/ m = submitFailedMsg)
       /\ fst (handleRaceComplete s bad 5000)
          = set_connectionError s (Some m).
Proof.
  intros s bad.
  assert (Hbad : ~ wellFormed bad).
  { intros (w & a & Ew & _ & Nw & _). cbv in Ew. injection Ew as <-.
    discriminate. }
  destruct (proj2 C3_raceFinished_validated s bad 5000%Z Hbad) as (E & H & _).
  split; [exact E|]. exact (H eq_refl).
Defined.

(** C3, as stated, fails: while the client is disconnected, malformed
    statistics surface no error: the handler does nothing. *)
Lemma C3_counterexample :
  let s := mkState (Some (js "sock")) (mkLobby [] (of_Z 0) racing) (js "ab")
                   (Some (of_Z 1000)) None (js "ann") false true None None
                   true [] true in
  let bad := VObj [(js "wpm", VNum NaN); (js "accuracy", VNum (of_Z 50))] in
  ~ wellFormed bad
  /\ snd (handleRaceComplete s bad 5000) = []
  /\ connectionError (fst (handleRaceComplete s bad 5000)) = None.
Proof.
  intros s bad. split; [|split; reflexivity].
  intros (w & a & Ew & _ & Nw & _). cbv in Ew. injection Ew as <-.
  discriminate.
Qed.

Lemma progressOf_not_NaN (txt : jsstring) (idx : nat) :
  nonempty txt = true ->
  isNaN (TypingInterface.progressOf txt idx) = false.
Proof.
  intros Hne. unfold TypingInterface.progressOf.
  assert (Ht : (0 < length txt)%nat) by (destruct txt; [discriminate | cbn; lia]).
  rewrite (fdiv_of_nat idx Ht).
  set (q := (inject_Z (Z.of_nat idx) / inject_Z (Z.of_nat (length txt)))%Q).
  pose proof (rnd64_not_NaN q) as H.
  destruct (rnd64 q) as [| | |x]; [congruence | reflexivity | reflexivity |].
  unfold fmul, of_Z. pose proof (rnd64_not_NaN (x * inject_Z 100)) as H'.
  destruct (rnd64 (x * inject_Z 100)); congruence || reflexivity.
Qed.

Lemma status_eqb_eq (a b : Status) : status_eqb a b = true -> a = b.
Proof. destruct a, b; reflexivity || discriminate. Qed.

(** What [handleProgressUpdate] sends, and when. *)
Lemma handleProgressUpdate_emits (s : State) (pr : number) (e : Emit) :
  In e (snd (handleProgressUpdate s pr)) ->
  socket s <> None /\ status (lobbyState s) = racing /\ isConnected s = true
  /\ e = mkEmit (js "progressUpdate")
                (VObj [(js "progress",
                        VNum (Math_max (of_Z 0) (Math_min (of_Z 100) pr)))]).
Proof.
  unfold handleProgressUpdate.
  destruct (socket s); [|intros []].
  destruct (status_eqb (status (lobbyState s)) racing) eqn:Es; [|intros []].
  destruct (isConnected s); [|intros []].
  intros [<-|[]]. apply status_eqb_eq in Es.
  repeat split; [discriminate | assumption].
Qed.

(** The event names the client's handlers emit. *)
Lemma emitted_names (s : State) (e : Emit) :
  (In e (snd (onConnect s)) \/ In e (snd (joinLobby s)) ->
   event e = js "joinLobby")
  /\ (In e (snd (leaveLobby s)) -> event e = js "leaveLobby")
  /\ (forall pr, In e (snd (handleProgressUpdate s pr)) ->
                 event e = js "progressUpdate")
  /\ (forall st now, In e (snd (handleRaceComplete s st now)) ->
                     event e = js "raceFinished")
  /\ ~ In e (snd (raceAgainClick s)).
Proof.
  repeat split.
  - intros [H|H].
    + cbn in H. destruct (wasInLobby s && _ && _); [|destruct H].
      destruct H as [<-|[]]. reflexivity.
    + unfold joinLobby in H. destruct (socket s); [|destruct H].
      destruct (_ && _); [|destruct H]. destruct H as [<-|[]]. reflexivity.
  - unfold leaveLobby. destruct (socket s); [|intros []].
    intros [<-|[]]. reflexivity.
  - intros pr H. apply handleProgressUpdate_emits in H.
    destruct H as (_ & _ & _ & ->). reflexivity.
  - intros st now H.
    apply handleRaceComplete_emits in H. tauto.
  - intros [].
Qed.

Lemma leb_not_NaN (x y : number) : leb x y = true -> isNaN y = false.
Proof. destruct x, y; cbn; congruence. Qed.

(** The statistics the typing component computes pass the validation of
    [handleRaceComplete]. *)
Lemma calculateStats_wellFormed (txt typed_ : jsstring) (idx : nat)
    (start now1 now2 : number) :
  wellFormed (statsVal (TypingInterface.calculateStats txt typed_ idx start
                                                       now1 now2)).
Proof.
  exists (TypingInterface.wpm
            (TypingInterface.calculateStats txt typed_ idx start now1 now2)),
         (TypingInterface.accuracy
            (TypingInterface.calculateStats txt typed_ idx start now1 now2)).
  split; [reflexivity|]. split; [reflexivity|]. split.
  - apply (@leb_not_NaN (of_Z 0)). apply TypingFacts.wpm_nonneg.
  - unfold TypingInterface.calculateStats. cbn [TypingInterface.accuracy].
    destruct (@TypingFacts.accuracy_value
                (TypingInterface.countCorrect txt typed_) (length typed_)
                (TypingFacts.countCorrect_le txt typed_)) as (a & -> & _).
    reflexivity.
Qed.

(** A completion handed to the client is sent as one [raceFinished]
    message when the guard holds, and dropped when it does not. *)
Lemma deliver_complete (s : State) (txt typed_ : jsstring) (idx : nat)
    (start now1 now2 : number) (now : Z) :
  let st := TypingInterface.calculateStats txt typed_ idx start now1 now2 in
  (canSubmit s = true ->
   exists e, snd (deliver s [TypingInterface.OnComplete st] now) = [e]
             /\ event e = js "raceFinished")
  /\ (canSubmit s = false ->
      snd (deliver s [TypingInterface.OnComplete st] now) = []).
Proof.
  intros st. cbn [deliver]. split; intros Hg.
  - destruct (calculateStats_wellFormed txt typed_ idx start now1 now2)
      as (w & a & Ew & Ea & Nw & Na).
    fold st in Ew, Ea.
    destruct (@handleRaceComplete_sends s (statsVal st) now w a Hg Ew Ea Nw Na)
      as (start' & _ & E).
    rewrite E. cbn [snd app]. eexists. split; reflexivity.
  - rewrite (@handleRaceComplete_idle s (statsVal st) now Hg). reflexivity.
Qed.

(** C9 (as amended). On a printable key press, with the component active
    and the timer started by an earlier key press, [onComplete] is invoked
    exactly when the cursor after the key press has reached the passage
    length, with the statistics of the text typed so far, whatever
    the number of correct characters; other key presses never invoke it; over
    any run of key presses from the initial state, every invocation
    carries as many typed characters as the passage has; typing as
    many characters as a passage of two or more characters has, right or
    wrong, invokes it once, on the last key press; and each invocation
    makes the client emit one [raceFinished] message when the guard of
    its handler holds, none when it does not. *)
Theorem C9_onComplete_by_count_once_started :
  (forall (p : TypingInterface.Props) (s : TypingInterface.State)
          (k : TypingInterface.KeyPress) (start : number),
      TypingInterface.isActive p = true ->
      TypingInterface.key k <> TypingInterface.Backspace ->
      (length (TypingInterface.key k) <= 1)%nat ->
      TypingInterface.started (TypingInterface.startTime s) = Some start ->
      let s' := fst (TypingInterface.press p s k) in
      ((length (TypingInterface.text p) <= TypingInterface.currentIndex s')%nat ->
       snd (TypingInterface.press p s k)
       = [TypingInterface.OnComplete
            (TypingInterface.calculateStats
               (TypingInterface.text p) (TypingInterface.typedText s')
               (TypingInterface.currentIndex s') start
               (TypingInterface.at1 k) (TypingInterface.at2 k))])
      /\ ((TypingInterface.currentIndex s' < length (TypingInterface.text p))%nat ->
          snd (TypingInterface.press p s k) = []))
  /\ (forall (p : TypingInterface.Props) (s : TypingInterface.State)
             (k : TypingInterface.KeyPress),
         TypingInterface.isActive p = false
         \/ TypingInterface.key k = TypingInterface.Backspace
         \/ (1 < length (TypingInterface.key k))%nat ->
         snd (TypingInterface.press p s k) = [])
  /\ (forall (p : TypingInterface.Props) (ks : list TypingInterface.KeyPress)
             (st : TypingInterface.TypingStats),
         Forall (fun k => TypingInterface.key k <> []) ks ->
         In (TypingInterface.OnComplete st)
            (snd (TypingInterface.run p
                    (TypingInterface.init (TypingInterface.text p)) ks)) ->
         TypingInterface.totalChars st
         = Z.of_nat (length (TypingInterface.text p)))
  /\ (forall (p : TypingInterface.Props) (ks : list TypingInterface.KeyPress),
         TypingInterface.isActive p = true ->
         Forall TypingInterface.typedKey ks ->
         length ks = length (TypingInterface.text p) -> (2 <= length ks)%nat ->
         exists st,
           snd (TypingInterface.run p
                  (TypingInterface.init (TypingInterface.text p)) ks)
           = [TypingInterface.OnComplete st]
           /\ TypingInterface.totalChars st
              = Z.of_nat (length (TypingInterface.text p))
           /\ TypingInterface.correctChars st
              = Z.of_nat (TypingInterface.countCorrect
                            (TypingInterface.text p)
                            (TypingInterface.typedBy ks)))
  /\ (forall (s : State) (txt typed_ : jsstring) (idx : nat)
             (start now1 now2 : number) (now : Z),
         let st := TypingInterface.calculateStats txt typed_ idx start
                                                  now1 now2 in
         (canSubmit s = true ->
          exists e, snd (deliver s [TypingInterface.OnComplete st] now) = [e]
                    /\ event e = js "raceFinished")
         /\ (canSubmit s = false ->
             snd (deliver s [TypingInterface.OnComplete st] now) = [])).
Proof.
  split; [|split; [|split; [|split]]].
  - intros p s k start Ha Hb Hl Hs s'. unfold s'.
    rewrite (@TypingFacts.press_printable p s k Ha Hb Hl). cbn zeta.
    rewrite Hs.
    destruct (Nat.leb_spec (length (TypingInterface.text p))
                           (TypingInterface.currentIndex s)) as [H|H];
      cbn [fst snd TypingInterface.currentIndex TypingInterface.typedText].
    + split; [reflexivity | lia].
    + destruct (Nat.leb_spec (length (TypingInterface.text p))
                             (TypingInterface.currentIndex s + 1)) as [H'|H'].
      * split; [reflexivity | lia].
      * split; [lia | reflexivity].
  - apply TypingFacts.press_silent.
  - intros p ks st Hks. apply TypingFacts.run_complete_total; [exact Hks|].
    apply TypingFacts.init_consistent.
  - apply TypingFacts.run_typing_all.
  - apply deliver_complete.
Qed.

(** Two wrong characters on the passage "ab" complete it, with no correct
    character. *)
Lemma C9_witness :
  let p := TypingInterface.mkProps (js "ab") true in
  let ks := [TypingInterface.mkKey (js "x") (of_Z 1000) (of_Z 1000) (of_Z 1000);
             TypingInterface.mkKey (js "y") (of_Z 2000) (of_Z 2000) (of_Z 2000)] in
  exists st,
    snd (TypingInterface.run p (TypingInterface.init (TypingInterface.text p)) ks)
    = [TypingInterface.OnComplete st]
    /\ TypingInterface.totalChars st = 2%Z
    /\ TypingInterface.correctChars st = 0%Z.
Proof.
  intros p ks.
  destruct (proj1 (proj2 (proj2 (proj2 C9_onComplete_by_count_once_started)))
              p ks)
    as (st & E & Ht & Hc).
  - reflexivity.
  - repeat (apply Forall_cons;
            [split; [eexists; reflexivity | reflexivity]|]).
    apply Forall_nil.
  - reflexivity.
  - cbn. lia.
  - exists st. repeat split; assumption.
Defined.

(** C9, as stated, fails: on the one-character passage "a" the first key
    press types the whole passage, yet [onComplete] is not invoked (the
    handler still sees the timer unset); and on "ab", once both characters
    are typed, a further key invokes [onComplete] again although no
    character is added. *)
Lemma C9_counterexample :
  let t := of_Z 1000 in
  let p1 := TypingInterface.mkProps (js "a") true in
  let r1 := TypingInterface.press p1 (TypingInterface.init (js "a"))
                                  (TypingInterface.mkKey (js "a") t t t) in
  let p2 := TypingInterface.mkProps (js "ab") true in
  let typed2 := fst (TypingInterface.run p2 (TypingInterface.init (js "ab"))
                       [TypingInterface.mkKey (js "a") t t t;
                        TypingInterface.mkKey (js "b") t t t]) in
  let r2 := TypingInterface.press p2 typed2
                                  (TypingInterface.mkKey (js "c") t t t) in
  (TypingInterface.typedText (fst r1) = js "a"
   /\ length (TypingInterface.typedText (fst r1))
      = length (TypingInterface.text p1)
   /\ snd r1 = [])
  /\ (TypingInterface.typedText typed2 = js "ab"
      /\ TypingInterface.typedText (fst r2) = js "ab"
      /\ exists st, snd r2 = [TypingInterface.OnComplete st]).
Proof.
  cbv zeta. split.
  - repeat split; reflexivity.
  - split; [reflexivity|]. split; [reflexivity|].
    eexists. reflexivity.
Qed.

(** C7. Every [progressUpdate] message the client emits carries a
    progress value within [0,100], the value handed in clamped to the
    nearest bound, and is emitted only while the status is racing and the
    connection is live; this holds of the handler for every number it is
    handed other than NaN, and of every message the mounted typing
    component makes the client send; no other handler emits the event. *)
Theorem C7_progressUpdate_in_range :
  (forall (s : State) (pr : number) (e : Emit),
      In e (snd (handleProgressUpdate s pr)) ->
      fst (handleProgressUpdate s pr) = s
      /\ event e = js "progressUpdate"
      /\ status (lobbyState s) = racing /\ isConnected s = true
      /\ socket s <> None
      /\ payload e
         = VObj [(js "progress",
                  VNum (Math_max (of_Z 0) (Math_min (of_Z 100) pr)))]
      /\ (isNaN pr = false ->
          exists q, payload e = VObj [(js "progress", VNum (Fin q))]
                    /\ (0 <= q /\ q <= 100)%Q))
  /\ (forall (s : State) (ti : TypingInterface.State) (now1 now2 : number)
             (now3 : Z) (e : Emit),
         In e (clientTick s ti now1 now2 now3) ->
         event e = js "progressUpdate"
         /\ status (lobbyState s) = racing /\ isConnected s = true
         /\ exists q, payload e = VObj [(js "progress", VNum (Fin q))]
                      /\ (0 <= q /\ q <= 100)%Q)
  /\ (forall (s : State) (e : Emit),
         In e (snd (onConnect s)) \/ In e (snd (joinLobby s))
         \/ In e (snd (leaveLobby s)) \/ In e (snd (raceAgainClick s))
         \/ (exists st now, In e (snd (handleRaceComplete s st now))) ->
         event e <> js "progressUpdate").
Proof.
  split; [|split].
  - intros s pr e Hin.
    pose proof (handleProgressUpdate_emits _ _ _ Hin) as (Hs & Hst & Hc & ->).
    split.
    { unfold handleProgressUpdate. destruct (socket s); [|reflexivity].
      destruct (_ && _); reflexivity. }
    repeat split; try assumption.
    intros Hn. destruct (@clamp_range pr Hn) as (q & Eq & Q0 & Q1).
    exists q. cbn [payload]. rewrite Eq. auto.
  - intros s ti now1 now2 now3 e. unfold clientTick, typingProps.
    destruct (view s); try (intros []).
    destruct (nonempty (raceText s)) eqn:Hne; [|intros []]. cbn [andb].
    destruct (status_eqb (status (lobbyState s)) racing); [|intros []].
    unfold TypingInterface.tick. cbn [TypingInterface.text TypingInterface.isActive].
    destruct (TypingInterface.started _); [|intros []].
    destruct (negb (ranked s) && isConnected s); [|intros []].
    cbn [snd deliver].
    destruct (handleProgressUpdate s _) as [s1 out1] eqn:E.
    cbn [snd]. rewrite app_nil_r. intros Hin.
    assert (Hin' : In e (snd (handleProgressUpdate s
                     (TypingInterface.progressOf (raceText s)
                        (TypingInterface.currentIndex ti)))))
      by (rewrite E; exact Hin).
    pose proof (handleProgressUpdate_emits _ _ _ Hin') as (Hs & Hst & Hc & ->).
    repeat split; try assumption.
    destruct (@clamp_range _ (@progressOf_not_NaN (raceText s)
                (TypingInterface.currentIndex ti) Hne)) as (q & Eq & Q0 & Q1).
    exists q. cbn [payload]. rewrite Eq. auto.
  - intros s e H.
    destruct (emitted_names s e) as (H1 & H2 & _ & H4 & H5).
    destruct H as [H|[H|[H|[H|(st & now & H)]]]].
    + rewrite H1 by auto. discriminate.
    + rewrite H1 by auto. discriminate.
    + rewrite H2 by auto. discriminate.
    + contradiction.
    + rewrite (H4 st now H). discriminate.
Qed.

(** A racing, connected client handed the out-of-range value 250 sends
    100. *)
Lemma C7_witness :
  let s := mkState (Some (js "sock")) (mkLobby [] (of_Z 0) racing) (js "ab")
                   (Some (of_Z 1000)) None (js "ann") true false None None
                   true [] true in
  let e := mkEmit (js "progressUpdate")
                  (VObj [(js "progress", VNum (of_Z 100))]) in
  In e (snd (handleProgressUpdate s (of_Z 250)))
  /\ status (lobbyState s) = racing /\ isConnected s = true
  /\ exists q, payload e = VObj [(js "progress", VNum (Fin q))]
               /\ (0 <= q /\ q <= 100)%Q.
Proof.
  intros s e.
  assert (Hin : In e (snd (handleProgressUpdate s (of_Z 250))))
    by (left; reflexivity).
  destruct (proj1 C7_progressUpdate_in_range s (of_Z 250) e Hin)
    as (_ & _ & Hst & Hc & _ & _ & Hq).
  split; [exact Hin|]. split; [exact Hst|]. split; [exact Hc|].
  apply Hq. reflexivity.
Defined.

Lemma nonempty_true (t : jsstring) : nonempty t = true <-> t <> [].
Proof. destruct t; cbn; split; congruence. Qed.

(** C4. On every socket connect event the client emits [joinLobby] with
    the reconnect marker, carrying the trimmed user name, if and only if
    it had joined a lobby before ([wasInLobby] and [hasJoined] set, user
    name not empty after trimming), and it emits nothing else; a client
    that joined and was then disconnected asks for its place back on the
    next connect, a client that never joined or that left does not. *)
Theorem C4_rejoin_on_connect :
  (forall (s : State) (e : Emit),
      In e (snd (onConnect s)) <->
      (wasInLobby s = true /\ hasJoined s = true /\ trim (username_ s) <> [])
      /\ e = rejoinMessage s)
  /\ (forall s : State, (length (snd (onConnect s)) <= 1)%nat)
  /\ (forall (s : State) (reason : jsstring),
         snd (joinLobby s) <> [] ->
         snd (onConnect (onDisconnect (fst (joinLobby s)) reason))
         = [rejoinMessage s])
  /\ snd (onConnect initial) = []
  /\ (forall (s : State) (reason : jsstring),
         socket s <> None ->
         snd (onConnect (onDisconnect (fst (leaveLobby s)) reason)) = []).
Proof.
  split; [|split; [|split; [|split]]].
  - intros s e. cbn [onConnect snd]. fold (rejoinMessage s).
    destruct (wasInLobby s), (hasJoined s),
      (nonempty (trim (username_ s))) eqn:Hn; cbn [andb];
      try apply nonempty_true in Hn;
      try (assert (Hn' : ~ trim (username_ s) <> [])
             by (intro H; apply nonempty_true in H; congruence));
      cbn [In]; split; try tauto; try (intros [(H1 & H2 & H3) _]; congruence);
      try (intros [<-|[]]; auto); try (intros [_ ->]; auto).
  - intros s. cbn [onConnect snd]. destruct (_ && _ && _); cbn; lia.
  - intros s reason. unfold joinLobby.
    destruct (socket s); [|intros H; now contradiction H].
    destruct (nonempty (trim (username_ s))) eqn:Hn;
      [|intros H; now contradiction H].
    destruct (isConnected s); [|intros H; now contradiction H].
    intros _. cbn [fst andb]. unfold socketEffect, onDisconnect.
    destruct (depsChanged _ _);
      destruct (str_eqb reason ioServerDisconnect);
      cbn [onConnect snd wasInLobby hasJoined username_ andb];
      rewrite Hn; reflexivity.
  - reflexivity.
  - intros s reason Hs. unfold leaveLobby.
    destruct (socket s); [|contradiction]. cbn [fst]. unfold onDisconnect.
    destruct (str_eqb reason ioServerDisconnect); reflexivity.
Qed.

(** A client named " ann " that joined while connected, then lost the
    connection: on reconnect it sends [joinLobby] for "ann" with the
    reconnect marker. *)
Lemma C4_witness :
  let s := mkState (Some (js "sock")) emptyLobby [] None None (js " ann ")
                   true false None None false [] false in
  snd (onConnect (onDisconnect (fst (joinLobby s)) (js "transport close")))
  = [mkEmit (js "joinLobby")
            (VObj [(js "username", VStr (js "ann"));
                   (js "reconnect", VBool true)])].
Proof.
  intros s.
  rewrite (proj1 (proj2 (proj2 C4_rejoin_on_connect)) s (js "transport close"));
    [reflexivity | discriminate].
Defined.









(** Keys other than Backspace never move the cursor back. *)
Lemma press_index_le (p : TypingInterface.Props) (s : TypingInterface.State)
    (k : TypingInterface.KeyPress) :
  TypingInterface.key k <> TypingInterface.Backspace ->
  (TypingInterface.currentIndex s
   <= TypingInterface.currentIndex (fst (TypingInterface.press p s k)))%nat.
Proof.
  intros Hk. unfold TypingInterface.press, TypingInterface.handleKeyPress.
  destruct (TypingInterface.isActive p); cbn [negb fst]; [|lia].
  rewrite (TypingFacts.str_eqb_neq Hk).
  destruct (1 <? _)%nat; cbn [fst TypingInterface.currentIndex]; [lia|].
  destruct (_ <=? _)%nat; cbn [fst TypingInterface.currentIndex]; lia.
Qed.

(** Backspace moves the cursor of an active component back by one. *)
Lemma press_backspace (p : TypingInterface.Props) (s : TypingInterface.State)
    (k : TypingInterface.KeyPress) :
  TypingInterface.isActive p = true ->
  TypingInterface.key k = TypingInterface.Backspace ->
  TypingInterface.currentIndex (fst (TypingInterface.press p s k))
  = (TypingInterface.currentIndex s - 1)%nat.
Proof.
  intros Ha Hk. unfold TypingInterface.press, TypingInterface.handleKeyPress.
  rewrite Ha, Hk. cbn [negb].
  change (str_eqb TypingInterface.Backspace TypingInterface.Backspace) with true.
  destruct (Nat.ltb_spec 0 (TypingInterface.currentIndex s));
    cbn [fst TypingInterface.currentIndex]; lia.
Qed.

(** The [opponentProgress] handler stores the received value for the user
    it names, whatever was stored, and leaves the other users alone. *)
Lemma onOpponentProgress_observed (s : State) (uid : jsstring) (v : number) :
  observed (onOpponentProgress s uid v) uid
  = map (fun _ => v) (observed s uid)
  /\ forall other, other <> uid ->
       observed (onOpponentProgress s uid v) other = observed s other.
Proof.
  unfold observed, onOpponentProgress, set_lobbyState.
  cbn [lobbyState users].
  split.
  - induction (users (lobbyState s)) as [|u us IH]; [reflexivity|].
    cbn [map filter].
    destruct (str_eqb (id u) uid) eqn:E; cbn [id]; rewrite E; cbn [map progress].
    + now rewrite IH.
    + exact IH.
  - intros other Hne.
    induction (users (lobbyState s)) as [|u us IH]; [reflexivity|].
    cbn [map filter].
    destruct (str_eqb (id u) uid) eqn:E; cbn [id].
    + apply TypingFacts.str_eqb_eq in E.
      assert (E' : str_eqb (id u) other = false)
        by (apply TypingFacts.str_eqb_neq; congruence).
      rewrite E'. exact IH.
    + destruct (str_eqb (id u) other); cbn [map]; now rewrite IH.
Qed.


End ClientFacts.

(* ================================================================== *)
(** * Properties of the race coordinator *)
(* ================================================================== *)

Module CoordinatorFacts.
Import JsNum JsStr JsNumFacts Coordinator.

Section Rosters.

Variable f : Participant -> Participant.
Hypothesis f_id : forall p, id (f p) = id p.

Lemma update_ids (pid : nat) (ps : list Participant) :
  map id (update pid f ps) = map id ps.
Proof.
  unfold update. induction ps as [|p ps IH]; [reflexivity|]. cbn [map].
  rewrite IH. destruct (Nat.eqb (id p) pid); now rewrite ?f_id.
Qed.

Lemma update_length (pid : nat) (ps : list Participant) :
  length (update pid f ps) = length ps.
Proof. unfold update. apply length_map. Qed.

Lemma find_update_same (pid : nat) (ps : list Participant) :
  find pid (update pid f ps) = option_map f (find pid ps).
Proof.
  unfold update, find.
  induction ps as [|p ps IH]; [reflexivity|]. cbn [map List.find].
  destruct (Nat.eqb (id p) pid) eqn:E.
  - rewrite f_id, E. reflexivity.
  - rewrite E. exact IH.
Qed.

Lemma find_update_other (pid other : nat) (ps : list Participant) :
  other <> pid -> find other (update pid f ps) = find other ps.
Proof.
  intros Hne. unfold update, find.
  induction ps as [|p ps IH]; [reflexivity|]. cbn [map List.find].
  destruct (Nat.eqb (id p) pid) eqn:E.
  - apply Nat.eqb_eq in E. rewrite f_id.
    destruct (Nat.eqb_spec (id p) other); [congruence | exact IH].
  - destruct (Nat.eqb (id p) other); [reflexivity | exact IH].
Qed.

End Rosters.

Lemma find_some (pid : nat) (ps : list Participant) (p : Participant) :
  find pid ps = Some p -> In p ps /\ id p = pid.
Proof.
  unfold find. intros H. apply find_some in H.
  destruct H as [H1 H2]. apply Nat.eqb_eq in H2. auto.
Qed.

Lemma find_none (pid : nat) (ps : list Participant) :
  find pid ps = None -> ~ In pid (map id ps).
Proof.
  unfold find. intros H Hin. apply in_map_iff in Hin.
  destruct Hin as (p & E & Hp).
  pose proof (find_none _ _ H p Hp) as Hn. cbn in Hn.
  apply Nat.eqb_neq in Hn. contradiction.
Qed.

Lemma find_app_fresh (pid : nat) (ps : list Participant) (q : Participant) :
  find pid (ps ++ [q])
  = match find pid ps with
    | Some p => Some p
    | None => if Nat.eqb (id q) pid then Some q else None
    end.
Proof.
  unfold find. induction ps as [|p ps IH]; cbn [app List.find].
  - reflexivity.
  - destruct (Nat.eqb (id p) pid); [reflexivity | exact IH].
Qed.

Lemma find_remove (pid other : nat) (ps : list Participant) :
  find other (remove pid ps)
  = if Nat.eqb other pid then None else find other ps.
Proof.
  unfold find, remove. induction ps as [|p ps IH]; cbn [filter List.find].
  - now destruct (Nat.eqb other pid).
  - destruct (Nat.eqb_spec (id p) pid) as [E|E]; cbn [negb List.find].
    + rewrite IH. destruct (Nat.eqb_spec other pid) as [E'|E']; [reflexivity|].
      destruct (Nat.eqb_spec (id p) other); [congruence | reflexivity].
    + destruct (Nat.eqb_spec (id p) other) as [E'|E'].
      * destruct (Nat.eqb_spec other pid); [congruence | reflexivity].
      * exact IH.
Qed.

Lemma ranks_remove_nil (pid : nat) (ps : list Participant) :
  ranksOf ps = [] -> ranksOf (remove pid ps) = [].
Proof.
  unfold ranksOf, remove.
  induction ps as [|p ps IH]; [reflexivity|]. cbn [flat_map filter].
  intros H. apply app_eq_nil in H. destruct H as [H1 H2].
  destruct (negb (Nat.eqb (id p) pid)); cbn [flat_map]; [rewrite H1|]; auto.
Qed.

Lemma ranks_app (ps qs : list Participant) :
  ranksOf (ps ++ qs) = ranksOf ps ++ ranksOf qs.
Proof. unfold ranksOf. apply flat_map_app. Qed.

Lemma nameTaken_spec (n : jsstring) (ps : list Participant) :
  nameTaken n ps = true <-> In n (presentNames ps).
Proof.
  unfold nameTaken, presentNames, names.
  rewrite existsb_exists, in_map_iff. split.
  - intros (p & Hin & H). apply andb_true_iff in H. destruct H as [Hp Hn].
    apply TypingFacts.str_eqb_eq in Hn. exists p. split; [auto|].
    apply filter_In. auto.
  - intros (p & Hn & Hin). apply filter_In in Hin. destruct Hin as [Hin Hp].
    exists p. split; [exact Hin|]. rewrite Hp. cbn.
    apply TypingFacts.str_eqb_eq. auto.
Qed.

(** Maps over the roster that keep the names and bring nobody back. *)
Lemma presentNames_map_incl (g : Participant -> Participant)
    (ps : list Participant) (n : jsstring) :
  (forall p, In p ps ->
     displayName (g p) = displayName p
     /\ (present (g p) = true -> present p = true)) ->
  In n (presentNames (map g ps)) -> In n (presentNames ps).
Proof.
  unfold presentNames, names.
  induction ps as [|p ps IH]; intros Hg; [intros []|].
  cbn [map filter].
  assert (IH' := IH (fun q Hq => Hg q (or_intror Hq))).
  destruct (Hg p (or_introl eq_refl)) as [g_name g_present].
  destruct (present (g p)) eqn:E.
  - rewrite (g_present eq_refl). cbn [map]. rewrite g_name.
    intros [H|H]; [left; exact H | right; auto].
  - intros H. destruct (present p); [right|]; auto.
Qed.

Lemma presentNames_map_NoDup (g : Participant -> Participant)
    (ps : list Participant) :
  (forall p, In p ps ->
     displayName (g p) = displayName p
     /\ (present (g p) = true -> present p = true)) ->
  NoDup (presentNames ps) -> NoDup (presentNames (map g ps)).
Proof.
  induction ps as [|p ps IH]; intros Hg; [intros; constructor|].
  assert (Hg' := fun q Hq => Hg q (or_intror Hq)).
  assert (IH' := IH Hg').
  pose proof (fun n => @presentNames_map_incl g ps n Hg') as Hincl.
  destruct (Hg p (or_introl eq_refl)) as [g_name g_present].
  unfold presentNames, names in *. cbn [map filter].
  destruct (present (g p)) eqn:E.
  - rewrite (g_present eq_refl). cbn [map]. rewrite g_name.
    intros H. inversion H as [|? ? Hn Hd]; subst. constructor; auto.
  - intros H. apply IH'. destruct (present p); [|exact H].
    now inversion H.
Qed.

Lemma presentNames_remove_NoDup (pid : nat) (ps : list Participant) :
  NoDup (presentNames ps) -> NoDup (presentNames (remove pid ps)).
Proof.
  unfold presentNames, names, remove.
  induction ps as [|p ps IH]; [intros; constructor|]. cbn [filter].
  assert (Hincl : forall n,
             In n (map displayName (filter present
                     (filter (fun q => negb (Nat.eqb (id q) pid)) ps))) ->
             In n (map displayName (filter present ps))).
  { intros n Hin. apply in_map_iff in Hin. destruct Hin as (q & E & Hq).
    apply filter_In in Hq. destruct Hq as [Hq Hp].
    apply filter_In in Hq. destruct Hq as [Hq _].
    apply in_map_iff. exists q. split; [exact E|]. apply filter_In. auto. }
  destruct (negb (Nat.eqb (id p) pid)); cbn [filter];
    destruct (present p); cbn [map]; intros H; auto.
  - inversion H as [|? ? Hn Hd]; subst. constructor; auto.
  - inversion H; auto.
Qed.

Lemma length_remove (pid : nat) (ps : list Participant) :
  (length (remove pid ps) <= length ps)%nat.
Proof. apply filter_length_le. Qed.

(** With distinct ids, the participant found under an id is the only one
    carrying it. *)
Lemma find_unique (t : nat) (ps : list Participant) (p q : Participant) :
  NoDup (map id ps) -> find t ps = Some p -> In q ps -> id q = t -> q = p.
Proof.
  unfold find. induction ps as [|x ps IH]; [intros _ _ []|].
  cbn [map List.find]. intros Hnd Hf Hin Hq.
  inversion Hnd as [|? ? Hx Hd]; subst.
  destruct (Nat.eqb_spec (id x) (id q)) as [E|E].
  - injection Hf as <-. destruct Hin as [->|Hin]; [reflexivity|].
    exfalso. apply Hx. rewrite E. now apply in_map.
  - destruct Hin as [->|Hin]; [congruence|]. now apply IH.
Qed.

Lemma settle_early (st : Status) (ps : list Participant) :
  early (settle st ps) <-> early st.
Proof.
  unfold early, settle. destruct st.
  - destruct (2 <=? presentCount ps)%nat; tauto.
  - destruct (presentCount ps <? 2)%nat; tauto.
  - destruct (allFinished ps); split; intros [H|H]; discriminate.
  - tauto.
Qed.

Lemma ranks_map_same (g : Participant -> Participant)
    (ps : list Participant) :
  (forall p, In p ps -> rank (g p) = rank p) ->
  ranksOf (map g ps) = ranksOf ps.
Proof.
  unfold ranksOf. induction ps as [|p ps IH]; intros H; [reflexivity|].
  cbn [map flat_map]. rewrite (H p (or_introl eq_refl)).
  now rewrite IH by (intros q Hq; apply H; right; exact Hq).
Qed.

Lemma ids_map_same (g : Participant -> Participant)
    (ps : list Participant) :
  (forall p, In p ps -> id (g p) = id p) -> map id (map g ps) = map id ps.
Proof.
  induction ps as [|p ps IH]; intros H; [reflexivity|].
  cbn [map]. rewrite (H p (or_introl eq_refl)).
  now rewrite IH by (intros q Hq; apply H; right; exact Hq).
Qed.

(** A change of the roster that keeps every participant's id, name and
    rank, revives nobody and unfinishes nobody keeps the invariants. *)
Lemma inv_map (s : Session) (g : Participant -> Participant) (st : Status)
    (d : option Z) :
  inv s ->
  (forall p, In p (roster s) ->
     id (g p) = id p /\ displayName (g p) = displayName p
     /\ rank (g p) = rank p
     /\ (finished p = true -> finished (g p) = true)
     /\ (present (g p) = true -> present p = true)) ->
  (early st -> early (status s)) ->
  inv (mkSession st (map g (roster s)) d (maxRaceDuration s) (nextId s))
  /\ ranksOf (map g (roster s)) = ranksOf (roster s).
Proof.
  intros ((Hnd & Hlt) & (Hlen & Hnames) & (Hfin & Hearly & Hperm)) Hg Hst.
  assert (Hr : ranksOf (map g (roster s)) = ranksOf (roster s))
    by (apply ranks_map_same; intros p Hp; apply (Hg p Hp)).
  assert (Hi : map id (map g (roster s)) = map id (roster s))
    by (apply ids_map_same; intros p Hp; apply (Hg p Hp)).
  split; [|exact Hr].
  split; [|split]; unfold idsOk, rosterOk, ranksOk; cbn [roster nextId status].
  - split; [now rewrite Hi|].
    apply Forall_forall. intros q Hq. apply in_map_iff in Hq.
    destruct Hq as (p & <- & Hp). rewrite (proj1 (Hg p Hp)).
    now apply (proj1 (Forall_forall _ _) Hlt).
  - split; [now rewrite length_map|].
    apply presentNames_map_NoDup; [|exact Hnames].
    intros p Hp. split; apply (Hg p Hp).
  - rewrite Hr. split; [|split; [|exact Hperm]].
    + apply Forall_forall. intros q Hq. apply in_map_iff in Hq.
      destruct Hq as (p & <- & Hp).
      destruct (Hg p Hp) as (_ & _ & Er & Ef & _). rewrite Er.
      intros H. apply Ef. now apply (proj1 (Forall_forall _ _) Hfin).
    + intros H. apply Hearly, Hst, H.
Qed.

Lemma enrol_rosterOk (s s' : Session) (n : jsstring) :
  rosterOk s -> enrol s n = inl s' -> rosterOk s'.
Proof.
  intros [Hlen Hnd]. unfold enrol.
  destruct (Nat.ltb_spec (length (roster s)) capacity) as [Hc|Hc];
    [|discriminate].
  destruct (nameTaken n (roster s)) eqn:Et; [discriminate|].
  intros H. injection H as <-. split; cbn [roster].
  - rewrite length_app. cbn [length]. lia.
  - unfold presentNames, names. rewrite filter_app, map_app.
    apply NoDup_app.
    + exact Hnd.
    + cbn. constructor; [intros [] | constructor].
    + intros a Hin [<-|[]]. apply nameTaken_spec in Hin. cbn in Hin.
      congruence.
Qed.

Lemma update_absent (pid : nat) (f : Participant -> Participant)
    (ps : list Participant) :
  ~ In pid (map id ps) -> update pid f ps = ps.
Proof.
  unfold update. induction ps as [|x ps IH]; [reflexivity|].
  cbn [map]. intros H.
  destruct (Nat.eqb_spec (id x) pid) as [E|E].
  - exfalso. apply H. left. exact E.
  - rewrite IH; [reflexivity|]. intro Hin. apply H. right. exact Hin.
Qed.

(** Granting rank [r] to the one unranked participant [pid] adds [r] to
    the ranks in the roster. *)
Lemma ranks_update_grant (pid r : nat) (fs : option FinalStats)
    (ps : list Participant) (p : Participant) :
  NoDup (map id ps) -> find pid ps = Some p -> rank p = None ->
  Permutation (ranksOf (update pid (set_finished (Some r) fs) ps))
              (r :: ranksOf ps).
Proof.
  induction ps as [|x ps IH]; [discriminate|].
  intros Hnd Hf Hr. inversion Hnd as [|? ? Hx Hd]; subst.
  unfold find in Hf. cbn [List.find] in Hf.
  unfold update, ranksOf. cbn [map flat_map].
  destruct (Nat.eqb_spec (id x) pid) as [E|E].
  - injection Hf as <-. rewrite Hr. cbn [rank set_finished app].
    fold (update pid (set_finished (Some r) fs) ps).
    rewrite update_absent by (rewrite <- E; exact Hx).
    apply Permutation_refl.
  - fold (update pid (set_finished (Some r) fs) ps). fold (ranksOf ps).
    fold (ranksOf (update pid (set_finished (Some r) fs) ps)).
    eapply Permutation_trans.
    + apply Permutation_app_head. apply (IH Hd Hf Hr).
    + apply Permutation_sym, Permutation_middle.
Qed.

Lemma next_rank_perm (l : list nat) :
  Permutation l (seq 1 (length l)) ->
  Permutation (S (length l) :: l) (seq 1 (S (length l))).
Proof.
  intros H. rewrite seq_S. cbn [Nat.add].
  eapply Permutation_trans; [apply Permutation_cons_append|].
  now apply Permutation_app_tail.
Qed.

Lemma enrol_inv (s s' : Session) (n : jsstring) :
  inv s -> enrol s n = inl s' ->
  inv s' /\ ranksOf (roster s') = ranksOf (roster s).
Proof.
  intros (Hids & Hros & Hrk) E.
  pose proof (@enrol_rosterOk s s' n Hros E) as Hros'.
  unfold enrol in E.
  destruct (length (roster s) <? capacity)%nat; [|discriminate].
  destruct (nameTaken n (roster s)); [discriminate|].
  injection E as <-.
  assert (Hr : ranksOf (roster s ++ [mkParticipant (nextId s) n connected
                                       (of_Z 0) false None None])
               = ranksOf (roster s))
    by (rewrite ranks_app; cbn; apply app_nil_r).
  split; [|exact Hr].
  destruct Hids as [Hnd Hlt]. destruct Hrk as (Hfin & Hearly & Hperm).
  split; [|split; [exact Hros'|]].
  - split; cbn [roster nextId].
    + rewrite map_app. apply NoDup_app; [exact Hnd | | ].
      * cbn. constructor; [intros [] | constructor].
      * intros a Hin [<-|[]]. apply in_map_iff in Hin.
        destruct Hin as (q & Eq & Hq).
        pose proof (proj1 (Forall_forall _ _) Hlt q Hq) as Hlt'.
        cbn in Hlt'. cbn [id] in Eq. rewrite Eq in Hlt'. lia.
    + apply Forall_app. split.
      * eapply Forall_impl; [|exact Hlt]. cbn. intros; lia.
      * constructor; [cbn; lia | constructor].
  - unfold ranksOk. cbn [roster status]. rewrite Hr.
    split; [|split; [|exact Hperm]].
    + apply Forall_app. split; [exact Hfin|].
      constructor; [cbn; congruence | constructor].
    + intros H. apply settle_early in H. auto.
Qed.

Lemma join_inv (s s' : Session) (n : jsstring) (tok : option nat) :
  inv s -> join s n tok = inl s' ->
  inv s' /\ ranksOf (roster s') = ranksOf (roster s).
Proof.
  intros Hinv. unfold join.
  destruct tok as [t|]; [|now apply enrol_inv].
  destruct (find t (roster s)) as [p|] eqn:Ef; [|now apply enrol_inv].
  destruct (in_grace p) eqn:Eg; [|now apply enrol_inv].
  intros H. injection H as <-. unfold with_roster, update.
  apply inv_map; [exact Hinv | | tauto].
  intros q Hq. destruct (Nat.eqb_spec (id q) t) as [E|E]; [|tauto].
  repeat split; try reflexivity; try tauto.
  intros _. destruct Hinv as ((Hnd & _) & _).
  rewrite (@find_unique t (roster s) p q Hnd Ef Hq E).
  unfold present, is_left. unfold in_grace in Eg.
  destruct (connectionState p); [discriminate | reflexivity | discriminate].
Qed.

Lemma NoDup_map_filter (A B : Type) (h : A -> B) (c : A -> bool)
    (l : list A) :
  NoDup (map h l) -> NoDup (map h (filter c l)).
Proof.
  induction l as [|x l IH]; [intros; constructor|]. cbn [map filter].
  intros H. inversion H as [|? ? Hx Hd]; subst.
  destruct (c x); [|auto]. cbn [map]. constructor; [|auto].
  intro Hin. apply Hx. apply in_map_iff in Hin.
  destruct Hin as (y & E & Hy). apply filter_In in Hy.
  apply in_map_iff. exists y. tauto.
Qed.

(** The three cases of [leave] outside Waiting: the participant is marked
    left, which is a change of the kind [inv_map] covers. *)
Ltac leave_marks_left :=
  match goal with
  | Hinv : inv ?s, Est : status ?s = _
    |- context [settle ?st0 (map ?g (roster ?s))] =>
      destruct (@inv_map s g (settle st0 (map g (roster s)))
                  (raceDeadline s) Hinv) as [H1 H2];
      [ let q := fresh "q" in
        let Hq := fresh "Hq" in
        intros q Hq;
        match goal with
        | |- context [Nat.eqb (id q) ?pid] =>
            destruct (Nat.eqb (id q) pid); [|tauto]
        end;
        repeat split; try reflexivity; try tauto; discriminate
      | rewrite Est; apply settle_early
      | split; [exact H1|]; cbn [roster]; now rewrite H2 ]
  end.

Lemma leave_inv (s : Session) (pid : nat) :
  inv s ->
  inv (leave s pid) /\ granted (leave s pid) = granted s.
Proof.
  intros Hinv. unfold leave, granted.
  destruct (status s) eqn:Est.
  - (* Waiting: the participant is removed *)
    destruct Hinv as ((Hnd & Hlt) & (Hlen & Hnames) & (Hfin & Hearly & Hperm)).
    assert (Hnil : ranksOf (roster s) = [])
      by (apply Hearly; rewrite Est; left; reflexivity).
    pose proof (@ranks_remove_nil pid (roster s) Hnil) as Hnil'.
    cbn [with_roster roster]. rewrite Hnil, Hnil'.
    split; [|reflexivity].
    split; [|split]; unfold idsOk, rosterOk, ranksOk;
      cbn [with_roster roster nextId status].
    + split; [now apply NoDup_map_filter|].
      apply Forall_forall. intros q Hq. apply filter_In in Hq.
      now apply (proj1 (Forall_forall _ _) Hlt).
    + split; [|now apply presentNames_remove_NoDup].
      pose proof (length_remove pid (roster s)). lia.
    + rewrite Hnil'. split; [|split; [reflexivity | constructor]].
      apply Forall_forall. intros q Hq. apply filter_In in Hq.
      now apply (proj1 (Forall_forall _ _) Hfin).
  - unfold with_roster, update. leave_marks_left.
  - unfold with_roster, update. leave_marks_left.
  - unfold with_roster, update. leave_marks_left.
Qed.

Lemma disconnect_inv (s : Session) (pid : nat) :
  inv s ->
  inv (disconnect s pid) /\ granted (disconnect s pid) = granted s.
Proof.
  intros Hinv. unfold disconnect, granted, with_roster, update.
  match goal with |- context [map ?g (roster s)] =>
    destruct (@inv_map s g (status s) (raceDeadline s) Hinv) as [H1 H2] end.
  - intros q Hq. destruct (Nat.eqb (id q) pid); [|tauto].
    unfold present, is_left.
    destruct (connectionState q) eqn:Ec; cbn; rewrite ?Ec; tauto.
  - tauto.
  - split; [exact H1|]. cbn [roster]. now rewrite H2.
Qed.

Lemma graceExpired_inv (s : Session) (pid : nat) :
  inv s ->
  inv (graceExpired s pid) /\ granted (graceExpired s pid) = granted s.
Proof.
  intros Hinv. unfold graceExpired, granted, with_roster, update.
  match goal with |- context [settle _ (map ?g (roster s))] =>
    destruct (@inv_map s g (settle (status s) (map g (roster s)))
                (raceDeadline s) Hinv) as [H1 H2] end.
  - intros q Hq. destruct (Nat.eqb (id q) pid); [|tauto].
    destruct (in_grace q); [|tauto].
    repeat split; try reflexivity; try tauto. discriminate.
  - apply settle_early.
  - split; [exact H1|]. cbn [roster]. now rewrite H2.
Qed.

Lemma startRace_inv (s : Session) (t : Z) :
  inv s ->
  inv (fst (startRace s t))
  /\ granted (fst (startRace s t)) = granted s
  /\ grantedRanks (snd (startRace s t)) = [].
Proof.
  intros Hinv. unfold startRace.
  destruct (status s) eqn:Est; cbn [fst snd]; try (split; [exact Hinv | split; reflexivity]).
  split; [|split; reflexivity].
  destruct Hinv as (Hids & Hros & (Hfin & Hearly & Hperm)).
  split; [exact Hids|]. split; [exact Hros|].
  split; [exact Hfin|]. split; [|exact Hperm].
  intros [H|H]; cbn in H; discriminate.
Qed.

Lemma progressUpdate_inv (s : Session) (pid : nat) (v : number) :
  inv s ->
  inv (fst (progressUpdate s pid v))
  /\ granted (fst (progressUpdate s pid v)) = granted s
  /\ grantedRanks (snd (progressUpdate s pid v)) = [].
Proof.
  intros Hinv. unfold progressUpdate.
  destruct (isNaN v); [split; [exact Hinv | split; reflexivity]|].
  destruct (status s) eqn:Est; try (split; [exact Hinv | split; reflexivity]).
  destruct (find pid (roster s)) as [p|]; [|split; [exact Hinv | split; reflexivity]].
  destruct (finished p || is_left p); [split; [exact Hinv | split; reflexivity]|].
  destruct (leb (progress p) _); [|split; [exact Hinv | split; reflexivity]].
  cbn [fst snd]. unfold granted, with_roster, update.
  match goal with |- context [map ?g (roster s)] =>
    destruct (@inv_map s g Racing (raceDeadline s) Hinv) as [H1 H2] end.
  - intros q Hq. destruct (Nat.eqb (id q) pid); tauto.
  - intros [H|H]; discriminate.
  - split; [exact H1|]. cbn [roster]. rewrite H2. split; reflexivity.
Qed.

Lemma clockReached_inv (s : Session) (now : Z) :
  inv s ->
  inv (fst (clockReached s now))
  /\ granted (fst (clockReached s now)) = granted s
  /\ grantedRanks (snd (clockReached s now)) = [].
Proof.
  intros Hinv. unfold clockReached.
  destruct (status s) eqn:Est; try (split; [exact Hinv | split; reflexivity]).
  destruct (raceDeadline s) as [d|] eqn:Ed; [|split; [exact Hinv | split; reflexivity]].
  destruct (d <=? now)%Z; [|split; [exact Hinv | split; reflexivity]].
  cbn [fst snd]. unfold granted, with_roster.
  match goal with |- context [map ?g (roster s)] =>
    destruct (@inv_map s g Finished (raceDeadline s) Hinv) as [H1 H2] end.
  - intros q Hq. destruct (finished q) eqn:Ef; [tauto|].
    repeat split; try reflexivity; try tauto.
    destruct Hinv as (_ & _ & (Hfin & _)).
    pose proof (proj1 (Forall_forall _ _) Hfin q Hq) as Hr.
    cbn [rank set_finished]. destruct (rank q) eqn:Er; [|reflexivity].
    assert (finished q = true) by (apply Hr; congruence). congruence.
  - intros [H|H]; discriminate.
  - split; [exact H1|]. cbn [roster]. rewrite H2. split; reflexivity.
Qed.

(** An accepted completion is granted the next rank; a rejected one
    changes nothing. *)
Lemma raceFinished_inv (s : Session) (pid : nat) (w a e : number) :
  inv s ->
  inv (fst (raceFinished s pid w a e))
  /\ rankStep s (fst (raceFinished s pid w a e))
              (snd (raceFinished s pid w a e)).
Proof.
  intros Hinv.
  assert (Hsame : inv s /\ rankStep s s [ErrorEv InvalidPayload]
                  /\ rankStep s s [ErrorEv StaleOperation])
    by (split; [exact Hinv | split; left; split; reflexivity]).
  unfold raceFinished.
  destruct (isNaN w || isNaN a || isNaN e); [tauto|].
  destruct (status s) eqn:Est; try tauto.
  destruct (find pid (roster s)) as [p|] eqn:Ef; [|tauto].
  destruct (finished p || is_left p) eqn:Eg; [tauto|].
  apply orb_false_iff in Eg. destruct Eg as [Efin Eleft].
  clear Hsame.
  destruct Hinv as ((Hnd & Hlt) & (Hlen & Hnames) & (Hfin & Hearly & Hperm)).
  destruct (find_some _ _ Ef) as [Hp Hid].
  assert (Hrank : rank p = None).
  { pose proof (proj1 (Forall_forall _ _) Hfin p Hp) as H.
    destruct (rank p) eqn:Er; [|reflexivity].
    assert (finished p = true) by (apply H; congruence). congruence. }
  set (r := nextRank (roster s)).
  set (fs := mkFinal (Math_max (of_Z 0) w) (clamp (of_Z 0) (of_Z 100) a)
                     (Math_max (of_Z 0) e)).
  set (ps := update pid (set_finished (Some r) (Some fs)) (roster s)).
  pose proof (@ranks_update_grant pid r (Some fs) (roster s) p Hnd Ef Hrank)
    as Hgrant.
  fold ps in Hgrant.
  assert (Hlenr : length (ranksOf ps) = S (length (ranksOf (roster s)))).
  { apply Permutation_length in Hgrant. exact Hgrant. }
  assert (Hinv' : forall st, ~ early st ->
            inv (with_roster s st ps)).
  { intros st Hst. split; [|split]; unfold idsOk, rosterOk, ranksOk;
      cbn [with_roster roster nextId status].
    - unfold ps. rewrite update_ids by reflexivity. split; [exact Hnd|].
      apply Forall_forall. intros q Hq. unfold update in Hq.
      apply in_map_iff in Hq. destruct Hq as (q0 & <- & Hq0).
      pose proof (proj1 (Forall_forall _ _) Hlt q0 Hq0).
      destruct (Nat.eqb (id q0) pid); assumption.
    - unfold ps. rewrite update_length. split; [exact Hlen|].
      unfold update. apply presentNames_map_NoDup; [|exact Hnames].
      intros q Hq. destruct (Nat.eqb (id q) pid); tauto.
    - split; [|split].
      + apply Forall_forall. intros q Hq. unfold ps, update in Hq.
        apply in_map_iff in Hq. destruct Hq as (q0 & <- & Hq0).
        destruct (Nat.eqb (id q0) pid); [reflexivity|].
        now apply (proj1 (Forall_forall _ _) Hfin).
      + intros H. contradiction.
      + rewrite Hlenr. eapply Permutation_trans; [exact Hgrant|].
        unfold r, nextRank. now apply next_rank_perm. }
  assert (Hstep : forall st evs,
            grantedRanks evs = [] ->
            rankStep s (with_roster s st ps)
                     (ParticipantFinishedEv pid r fs :: evs)).
  { intros st evs Hevs. right. unfold granted. cbn [with_roster roster].
    split; [|exact Hlenr].
    cbn [grantedRanks flat_map app]. fold (grantedRanks evs).
    now rewrite Hevs. }
  fold r. fold fs. fold ps.
  destruct (allFinished ps); cbn [fst snd].
  - split; [apply Hinv'; intros [H|H]; discriminate|].
    apply Hstep. reflexivity.
  - split; [apply Hinv'; intros [H|H]; discriminate|].
    apply Hstep. reflexivity.
Qed.

(** Every step keeps the invariants and moves the ranks by [rankStep]. *)
Lemma step_inv (s : Session) (m : Msg) :
  inv s ->
  inv (fst (step s m)) /\ rankStep s (fst (step s m)) (snd (step s m)).
Proof.
  intros Hinv. destruct m as [n tok|pid|pid|pid|t|pid v|pid w a e|now];
    cbn [step].
  - destruct (join s n tok) as [s'|err] eqn:E; cbn [fst snd].
    + destruct (@join_inv s s' n tok Hinv E) as [H1 H2].
      split; [exact H1|]. left. unfold granted. now rewrite H2.
    + split; [exact Hinv|]. left. split; reflexivity.
  - destruct (@leave_inv s pid Hinv) as [H1 H2]. cbn [fst snd].
    split; [exact H1|]. left. split; [reflexivity | exact H2].
  - destruct (@disconnect_inv s pid Hinv) as [H1 H2]. cbn [fst snd].
    split; [exact H1|]. left. split; [reflexivity | exact H2].
  - destruct (@graceExpired_inv s pid Hinv) as [H1 H2]. cbn [fst snd].
    split; [exact H1|]. left. split; [reflexivity | exact H2].
  - destruct (@startRace_inv s t Hinv) as (H1 & H2 & H3).
    split; [exact H1|]. left. split; assumption.
  - destruct (@progressUpdate_inv s pid v Hinv) as (H1 & H2 & H3).
    split; [exact H1|]. left. split; assumption.
  - now apply raceFinished_inv.
  - destruct (@clockReached_inv s now Hinv) as (H1 & H2 & H3).
    split; [exact H1|]. left. split; assumption.
Qed.

Lemma grantedRanks_app (a b : list Event) :
  grantedRanks (a ++ b) = grantedRanks a ++ grantedRanks b.
Proof. unfold grantedRanks. apply flat_map_app. Qed.

(** Over a run, the invariants are kept and the ranks announced are the
    next integers, in order. *)
Lemma run_inv (ms : list Msg) :
  forall s,
    inv s ->
    inv (fst (run s ms))
    /\ (granted s <= granted (fst (run s ms)))%nat
    /\ grantedRanks (snd (run s ms))
       = seq (S (granted s)) (granted (fst (run s ms)) - granted s).
Proof.
  induction ms as [|m ms IH]; intros s Hinv.
  - cbn [run fst snd]. rewrite Nat.sub_diag.
    split; [exact Hinv | split; [lia | reflexivity]].
  - cbn [run]. destruct (@step_inv s m Hinv) as [H1 Hstep].
    destruct (step s m) as [s1 ev1]. cbn [fst snd] in *.
    destruct (IH s1 H1) as (H2 & Hle & Hev).
    destruct (run s1 ms) as [s2 ev2]. cbn [fst snd] in *.
    split; [exact H2|].
    rewrite grantedRanks_app, Hev.
    destruct Hstep as [[E1 E2]|[E1 E2]]; rewrite E1, E2 in *.
    + split; [lia | reflexivity].
    + split; [lia|]. cbn [app].
      replace (granted s2 - granted s)%nat
        with (S (granted s2 - S (granted s))) by lia.
      reflexivity.
Qed.

Lemma newSession_inv (d : Z) : inv (newSession d).
Proof.
  split; [|split].
  - split; constructor.
  - split; [cbn; lia | constructor].
  - split; [constructor|]. split; [reflexivity | constructor].
Qed.

Lemma join_fresh (s : Session) (n : jsstring) (tok : option nat) :
  freshJoin s tok -> join s n tok = enrol s n.
Proof.
  unfold freshJoin, join. destruct tok as [t|]; [|reflexivity].
  destruct (find t (roster s)) as [p|]; [|reflexivity].
  intros ->. reflexivity.
Qed.




(** C5. Spec-modelled coordinator: after every sequence of joins, leaves
    and other messages the roster has at most 6 entries and the display
    names of the participants that have not left are pairwise distinct; a
    join that would create a seventh entry fails with [LobbyFull], one
    that would repeat the name of a participant that has not left fails
    with [NameTaken], and a failed join leaves the session as it was. *)
Theorem C5_roster_bounds :
  (forall (d : Z) (ms : list Msg),
      let s := fst (run (newSession d) ms) in
      (length (roster s) <= 6)%nat /\ NoDup (presentNames (roster s)))
  /\ (forall (s : Session) (n : jsstring) (tok : option nat),
         freshJoin s tok ->
         ((6 <= length (roster s))%nat -> join s n tok = inr LobbyFull)
         /\ ((length (roster s) < 6)%nat ->
             In n (presentNames (roster s)) -> join s n tok = inr NameTaken)
         /\ ((length (roster s) < 6)%nat ->
             ~ In n (presentNames (roster s)) ->
             exists s',
               join s n tok = inl s'
               /\ roster s'
                  = roster s ++ [mkParticipant (nextId s) n connected
                                               (of_Z 0) false None None]))
  /\ (forall (s : Session) (n : jsstring) (tok : option nat) (e : Error),
         join s n tok = inr e ->
         step s (JoinLobby n tok) = (s, [ErrorEv e])
         /\ (e = LobbyFull \/ e = NameTaken)).
Proof.
  split; [|split].
  - intros d ms s.
    destruct (@run_inv ms (newSession d) (newSession_inv d))
      as ((_ & Hros & _) & _).
    exact Hros.
  - intros s n tok Hfresh. rewrite (@join_fresh s n tok Hfresh).
    unfold enrol, capacity.
    destruct (Nat.ltb_spec (length (roster s)) 6) as [H|H].
    + split; [lia|]. split.
      * intros _ Hin. apply nameTaken_spec in Hin. now rewrite Hin.
      * intros _ Hout.
        destruct (nameTaken n (roster s)) eqn:E.
        -- apply nameTaken_spec in E. contradiction.
        -- eexists. split; reflexivity.
    + split; [reflexivity|]. split; intros; lia.
  - intros s n tok e E. cbn [step]. rewrite E. split; [reflexivity|].
    unfold join, enrol in E.
    assert (He : forall x : Session + Error,
               x = inr e ->
               x = (if (length (roster s) <? capacity)%nat
                    then if nameTaken n (roster s) then inr NameTaken
                         else inl (mkSession
                                (settle (status s)
                                   (roster s ++ [mkParticipant (nextId s) n
                                      connected (of_Z 0) false None None]))
                                (roster s ++ [mkParticipant (nextId s) n
                                      connected (of_Z 0) false None None])
                                (raceDeadline s) (maxRaceDuration s)
                                (S (nextId s)))
                    else inr LobbyFull) ->
               e = LobbyFull \/ e = NameTaken).
    { intros x -> Hx.
      destruct (length (roster s) <? capacity)%nat;
        [destruct (nameTaken n (roster s))|]; try discriminate;
        injection Hx as ->; auto. }
    destruct tok as [t|]; [|now apply (He _ E)].
    destruct (find t (roster s)) as [p|]; [|now apply (He _ E)].
    destruct (in_grace p); [discriminate | now apply (He _ E)].
Qed.

(** Six participants fill a lobby: the seventh join is refused with
    [LobbyFull], and a repeated name with [NameTaken]. *)
Lemma C5_witness :
  let six := [JoinLobby (js "a") None; JoinLobby (js "b") None;
              JoinLobby (js "c") None; JoinLobby (js "d") None;
              JoinLobby (js "e") None; JoinLobby (js "f") None] in
  let full := fst (run (newSession 120000) six) in
  let two := fst (run (newSession 120000) (firstn 2 six)) in
  join full (js "g") None = inr LobbyFull
  /\ join two (js "a") None = inr NameTaken
  /\ step two (JoinLobby (js "a") None) = (two, [ErrorEv NameTaken]).
Proof.
  intros six full two.
  destruct (proj1 (proj2 C5_roster_bounds) full (js "g") None I)
    as (H1 & _).
  destruct (proj1 (proj2 C5_roster_bounds) two (js "a") None I)
    as (_ & H2 & _).
  assert (E2 : join two (js "a") None = inr NameTaken).
  { apply H2; [vm_compute; lia | vm_compute; left; reflexivity]. }
  split; [apply H1; vm_compute; lia|]. split; [exact E2|].
  apply (proj2 (proj2 C5_roster_bounds) two (js "a") None NameTaken E2).
Defined.

Lemma find_map (g : Participant -> Participant) (pid : nat)
    (ps : list Participant) :
  (forall p, id (g p) = id p) ->
  find pid (map g ps) = option_map g (find pid ps).
Proof.
  intros Hg. unfold find.
  induction ps as [|p ps IH]; [reflexivity|]. cbn [map List.find].
  rewrite Hg. destruct (Nat.eqb (id p) pid); [reflexivity | exact IH].
Qed.

(** A change of the roster that keeps ids and progress keeps what is
    stored. *)
Lemma stored_map (s : Session) (g : Participant -> Participant)
    (st : Status) (d : option Z) (pid : nat) :
  (forall p, id (g p) = id p /\ progress (g p) = progress p) ->
  stored (mkSession st (map g (roster s)) d (maxRaceDuration s) (nextId s)) pid
  = stored s pid.
Proof.
  intros Hg. unfold stored. cbn [roster].
  rewrite find_map by (intros p; apply Hg).
  destruct (find pid (roster s)) as [p|]; [|reflexivity].
  cbn. now rewrite (proj2 (Hg p)).
Qed.

Lemma step_progress (pid : nat) (s : Session) (m : Msg) :
  progressStep pid s (fst (step s m)) (snd (step s m))
  /\ (nextId s <= nextId (fst (step s m)))%nat.
Proof.
  assert (Hsame : forall evs, forwarded pid evs = [] ->
                    progressStep pid s s evs /\ (nextId s <= nextId s)%nat).
  { intros evs H. split; [left; auto | lia]. }
  assert (Hmap : forall g st d evs,
             (forall p, id (g p) = id p /\ progress (g p) = progress p) ->
             forwarded pid evs = [] ->
             progressStep pid s
               (mkSession st (map g (roster s)) d (maxRaceDuration s)
                          (nextId s)) evs
             /\ (nextId s <= nextId s)%nat).
  { intros g st d evs Hg Hev. split; [|lia]. left. split; [exact Hev|].
    left. now apply stored_map. }
  destruct m as [n tok|q|q|q|t|q v|q w a e|now]; cbn [step].
  - (* join *)
    unfold join.
    assert (Henrol : progressStep pid s
                       (fst match enrol s n with
                            | inl s' => (s', [snapshot s'])
                            | inr e => (s, [ErrorEv e])
                            end)
                       (snd match enrol s n with
                            | inl s' => (s', [snapshot s'])
                            | inr e => (s, [ErrorEv e])
                            end)
                     /\ (nextId s
                         <= nextId (fst match enrol s n with
                                        | inl s' => (s', [snapshot s'])
                                        | inr e => (s, [ErrorEv e])
                                        end))%nat).
    { unfold enrol.
      destruct (length (roster s) <? capacity)%nat; [|now apply Hsame].
      destruct (nameTaken n (roster s)); [now apply Hsame|].
      cbn [fst snd nextId]. split; [|lia]. left. split; [reflexivity|].
      unfold stored. cbn [roster]. rewrite find_app_fresh.
      destruct (find pid (roster s)) as [p|]; [left; reflexivity|].
      cbn [id]. destruct (Nat.eqb_spec (nextId s) pid) as [E|E].
      - right. right. split; [reflexivity | lia].
      - left. reflexivity. }
    destruct tok as [t|]; [|exact Henrol].
    destruct (find t (roster s)) as [p|]; [|exact Henrol].
    destruct (in_grace p); [|exact Henrol].
    cbn [fst snd]. unfold with_roster, update. apply Hmap; [|reflexivity].
    intros x. destruct (Nat.eqb (id x) t); split; reflexivity.
  - (* leave *)
    cbn [fst snd]. unfold leave.
    destruct (status s); unfold with_roster, update;
      try (apply Hmap; [|reflexivity];
           intros x; destruct (Nat.eqb (id x) q); split; reflexivity).
    split; [|cbn; lia]. left. split; [reflexivity|].
    unfold stored. cbn [roster]. rewrite find_remove.
    destruct (Nat.eqb pid q); [right; left; reflexivity | left; reflexivity].
  - (* disconnect *)
    cbn [fst snd]. unfold disconnect, with_roster, update.
    apply Hmap; [|reflexivity].
    intros x. destruct (Nat.eqb (id x) q); [|split; reflexivity].
    destruct (connectionState x); split; reflexivity.
  - (* grace expired *)
    cbn [fst snd]. unfold graceExpired, with_roster, update.
    apply Hmap; [|reflexivity].
    intros x. destruct (Nat.eqb (id x) q); [|split; reflexivity].
    destruct (in_grace x); split; reflexivity.
  - (* countdown expired *)
    unfold startRace. destruct (status s); now apply Hsame.
  - (* progress update *)
    unfold progressUpdate.
    destruct (isNaN v); [now apply Hsame|].
    destruct (status s); try (now apply Hsame).
    destruct (find q (roster s)) as [p|] eqn:Ef; [|now apply Hsame].
    destruct (finished p || is_left p); [now apply Hsame|].
    destruct (leb (progress p) (clamp (of_Z 0) (of_Z 100) v)) eqn:El;
      [|now apply Hsame].
    cbn [fst snd nextId with_roster]. split; [|lia].
    destruct (Nat.eqb_spec q pid) as [E|E].
    + subst q. right. exists (progress p), (clamp (of_Z 0) (of_Z 100) v).
      unfold stored. cbn [roster with_roster forwarded flat_map app].
      rewrite Nat.eqb_refl, find_update_same by reflexivity.
      rewrite Ef. repeat split; try reflexivity. exact El.
    + left. unfold stored. cbn [roster with_roster forwarded flat_map app].
      destruct (Nat.eqb_spec q pid); [contradiction|].
      split; [reflexivity|]. left.
      rewrite find_update_other by (reflexivity || congruence). reflexivity.
  - (* race finished *)
    unfold raceFinished.
    destruct (isNaN w || isNaN a || isNaN e); [now apply Hsame|].
    destruct (status s); try (now apply Hsame).
    destruct (find q (roster s)) as [p|]; [|now apply Hsame].
    destruct (finished p || is_left p); [now apply Hsame|].
    cbv zeta. unfold with_roster, update.
    destruct (allFinished _); cbn [fst snd];
      (apply Hmap; [|reflexivity]);
      intros x; destruct (Nat.eqb (id x) q); split; reflexivity.
  - (* clock *)
    unfold clockReached.
    destruct (status s); try (now apply Hsame).
    destruct (raceDeadline s); [|now apply Hsame].
    destruct (_ <=? _)%Z; [|now apply Hsame].
    cbn [fst snd]. unfold with_roster. apply Hmap; [|reflexivity].
    intros x. destruct (finished x); split; reflexivity.
Qed.

Lemma forwarded_app (pid : nat) (a b : list Event) :
  forwarded pid (a ++ b) = forwarded pid a ++ forwarded pid b.
Proof. unfold forwarded. apply flat_map_app. Qed.

Lemma stored_below_nextId (s : Session) (pid : nat) (old : number) :
  idsOk s -> stored s pid = Some old -> (pid < nextId s)%nat.
Proof.
  intros [_ Hlt]. unfold stored.
  destruct (find pid (roster s)) as [p|] eqn:Ef; [|discriminate].
  intros _. destruct (find_some _ _ Ef) as [Hp <-].
  now apply (proj1 (Forall_forall _ _) Hlt).
Qed.

(** Over a run, the values fanned out for one participant never
    decrease, and none is below the value stored at the start. *)
Lemma run_progress (pid : nat) (ms : list Msg) :
  forall s,
    inv s ->
    nondecreasing (forwarded pid (snd (run s ms)))
    /\ (forall old, stored s pid = Some old ->
                    Forall (fun v => leb old v = true)
                           (forwarded pid (snd (run s ms))))
    /\ (stored s pid = None -> (pid < nextId s)%nat ->
        forwarded pid (snd (run s ms)) = []).
Proof.
  induction ms as [|m ms IH]; intros s Hinv.
  - cbn. split; [exact I|]. split; [intros; constructor | reflexivity].
  - cbn [run].
    destruct (@step_inv s m Hinv) as [Hinv1 _].
    destruct (step_progress pid s m) as [Hstep Hnext].
    destruct (step s m) as [s1 ev1]. cbn [fst snd] in *.
    destruct (IH s1 Hinv1) as (Hnd & Hbound & Hnone).
    destruct (run s1 ms) as [s2 ev2]. cbn [fst snd] in *.
    rewrite forwarded_app.
    destruct Hstep as [[E Hst]|(old & v & E & Hold & Hle & Hnew)]; rewrite E.
    + cbn [app]. split; [exact Hnd|]. split.
      * intros old Hold.
        destruct Hst as [Hst|[Hst|[Hst _]]].
        -- apply Hbound. congruence.
        -- rewrite Hnone; [constructor | exact Hst |].
           destruct Hinv as (Hids & _).
           pose proof (@stored_below_nextId s pid old Hids Hold). lia.
        -- congruence.
      * intros Hn Hlt. apply Hnone; [|lia].
        destruct Hst as [Hst|[Hst|[_ Hst]]]; [congruence | exact Hst | lia].
    + cbn [app]. pose proof (Hbound v Hnew) as Hall.
      split; [now apply nondecreasing_cons|]. split.
      * intros old' Hold'. assert (old' = old) by congruence. subst old'.
        constructor; [exact Hle|].
        eapply Forall_impl; [|exact Hall].
        intros x Hx. exact (@leb_trans old v x Hle Hx).
      * intros Hn. congruence.
Qed.


End CoordinatorFacts.

(* ================================================================== *)
(** * Properties that span the client and the coordinator *)
(* ================================================================== *)

Module RaceFacts.
Import JsNum JsStr JsVal JsNumFacts.

(** C2 (as amended). The progress a client reports for itself follows
    its cursor: a key press other than Backspace never moves the cursor
    back, so the progress computed from it does not decrease, while
    Backspace on an active component moves the cursor back by one
    character, so the next value reported can be smaller.  The client
    stores for another participant whatever value it receives; those
    values never decrease because the (spec-modelled) coordinator fans out
    a progress update only when it is not below the stored one. *)
Theorem C2_progress_monotone_except_backspace :
  (forall (p : TypingInterface.Props) (s : TypingInterface.State)
          (k : TypingInterface.KeyPress),
      TypingInterface.key k <> TypingInterface.Backspace ->
      let s' := fst (TypingInterface.press p s k) in
      (TypingInterface.currentIndex s <= TypingInterface.currentIndex s')%nat
      /\ (TypingInterface.text p <> [] ->
          leb (TypingInterface.progressOf (TypingInterface.text p)
                                          (TypingInterface.currentIndex s))
              (TypingInterface.progressOf (TypingInterface.text p)
                                          (TypingInterface.currentIndex s'))
          = true))
  /\ (forall (p : TypingInterface.Props) (s : TypingInterface.State)
             (k : TypingInterface.KeyPress),
         TypingInterface.isActive p = true ->
         TypingInterface.key k = TypingInterface.Backspace ->
         TypingInterface.currentIndex (fst (TypingInterface.press p s k))
         = (TypingInterface.currentIndex s - 1)%nat)
  /\ (forall (s : MultiplayerRace.State) (uid : jsstring) (v : number),
         MultiplayerRace.observed
           (MultiplayerRace.onOpponentProgress s uid v) uid
         = map (fun _ => v) (MultiplayerRace.observed s uid)
         /\ forall other, other <> uid ->
              MultiplayerRace.observed
                (MultiplayerRace.onOpponentProgress s uid v) other
              = MultiplayerRace.observed s other)
  /\ (forall (d : Z) (ms : list Coordinator.Msg) (pid : nat),
         nondecreasing
           (Coordinator.forwarded pid
              (snd (Coordinator.run (Coordinator.newSession d) ms)))).
Proof.
  split; [|split; [|split]].
  - intros p s k Hk s'.
    pose proof (@ClientFacts.press_index_le p s k Hk) as Hle. fold s' in Hle.
    split; [exact Hle|].
    intros Hne. unfold TypingInterface.progressOf.
    apply percent_le; [exact Hle|].
    destruct (TypingInterface.text p); [contradiction | cbn; lia].
  - intros p s k. apply ClientFacts.press_backspace.
  - intros s uid v. apply ClientFacts.onOpponentProgress_observed.
  - intros d ms pid.
    apply (@CoordinatorFacts.run_progress pid ms (Coordinator.newSession d)).
    apply CoordinatorFacts.newSession_inv.
Qed.

(** On the passage "ab", a printable key moves the reported progress
    from 0 up to 50. *)
Lemma C2_witness :
  let p := TypingInterface.mkProps (js "ab") true in
  let k := TypingInterface.mkKey (js "a") (of_Z 1000) (of_Z 1000)
                                 (of_Z 1000) in
  let s := TypingInterface.init (js "ab") in
  leb (TypingInterface.progressOf (js "ab") (TypingInterface.currentIndex s))
      (TypingInterface.progressOf (js "ab")
         (TypingInterface.currentIndex (fst (TypingInterface.press p s k))))
  = true.
Proof.
  intros p k s.
  destruct (proj1 C2_progress_monotone_except_backspace p s k) as [_ H].
  - discriminate.
  - apply H. discriminate.
Defined.

(** C2, as stated, fails: a racing client on the passage "ab" that types
    "a" and then presses Backspace reports 50 and then 0. *)
Lemma C2_counterexample :
  let t := of_Z 1000 in
  let s := MultiplayerRace.mkState
             (Some (js "sock"))
             (MultiplayerRace.mkLobby [] (of_Z 0) MultiplayerRace.racing)
             (js "ab") (Some t) None (js "ann") true false None None true []
             true in
  let ks := [TypingInterface.mkKey (js "a") t t t;
             TypingInterface.mkKey TypingInterface.Backspace t t t] in
  MultiplayerRace.reportedAlong s (TypingInterface.init (js "ab")) ks
  = [of_Z 50; of_Z 0]
  /\ ~ nondecreasing
         (MultiplayerRace.reportedAlong s (TypingInterface.init (js "ab")) ks).
Proof.
  intros t s ks.
  assert (E : MultiplayerRace.reportedAlong s (TypingInterface.init (js "ab"))
                ks = [of_Z 50; of_Z 0]) by (vm_compute; reflexivity).
  split; [exact E|]. rewrite E. intros [H _]. vm_compute in H. discriminate.
Qed.





End RaceFacts.

(* ================================================================== *)
(** * More on binary64 rounding *)
(* ================================================================== *)

Module NumExtras.
Import JsNum JsNumFacts.
Local Open Scope Q_scope.

Lemma ilog2_Qeq (a b : Q) : 0 < a -> a == b -> ilog2 a = ilog2 b.
Proof.
  intros Ha E.
  assert (Hb : 0 < b) by lra.
  pose proof (@ilog2_le a b Ha) as H1.
  pose proof (@ilog2_le b a Hb) as H2.
  assert (a <= b) by lra. assert (b <= a) by lra.
  specialize (H1 ltac:(assumption)). specialize (H2 ltac:(assumption)). lia.
Qed.

Lemma rne_Qeq (a b : Q) : a == b -> rne a = rne b.
Proof.
  intros E. unfold rne.
  assert (Ef : Qfloor a = Qfloor b) by (apply Qfloor_comp; exact E).
  rewrite Ef.
  assert (Ec : (a - inject_Z (Qfloor b) ?= 1 # 2)
               = (b - inject_Z (Qfloor b) ?= 1 # 2)).
  { apply Qcompare_comp; [rewrite E|]; reflexivity. }
  rewrite Ec. reflexivity.
Qed.

Lemma round_pos_Qeq (a b : Q) : 0 < a -> a == b -> round_pos a = round_pos b.
Proof.
  intros Ha E. unfold round_pos, ulp, expo.
  rewrite (ilog2_Qeq Ha E).
  set (u := pow2 (Z.max (ilog2 b) emin - 52)).
  assert (Eq : a / u == b / u) by (rewrite E; reflexivity).
  now rewrite (rne_Qeq Eq).
Qed.

(** Rounding depends on the value only, not on the fraction that
    denotes it. *)
Lemma rnd64_Qeq (a b : Q) : a == b -> rnd64 a = rnd64 b.
Proof.
  intros E. unfold rnd64.
  assert (Ec : (a ?= 0) = (b ?= 0)) by (apply Qcompare_comp; [exact E | reflexivity]).
  rewrite Ec.
  destruct (Qcompare_spec b 0) as [E0|L|G].
  - reflexivity.
  - assert (Hn : 0 < - a) by lra.
    assert (En : - a == - b) by (rewrite E; reflexivity).
    now rewrite (round_pos_Qeq Hn En).
  - assert (Hp : 0 < a) by lra.
    now rewrite (round_pos_Qeq Hp E).
Qed.

Lemma pow2_m53 : pow2 (-53) == 1 # 9007199254740992.
Proof. reflexivity. Qed.

Lemma pow2_m1 : pow2 (-1) == 1 # 2.
Proof. reflexivity. Qed.

(** A binary64 value below 1 is at most [1 - 2^-53], the largest such
    value. *)
Lemma representable_below_one (q : Q) :
  representable q -> 0 <= q -> q < 1 -> q <= 1 - pow2 (-53).
Proof.
  intros (r & Er & Eq) H0 H1.
  pose proof pow2_m53 as P53.
  destruct (Qlt_le_dec 0 q) as [Hpos|Hz]; [|lra].
  unfold rnd64 in Er.
  destruct (Qcompare_spec q 0) as [E|L|G]; try lra.
  destruct (Qle_bool (pow2 1024) (round_pos q)); [discriminate|].
  assert (Er' : Qred (round_pos q) = r) by congruence.
  pose proof (Qred_correct (round_pos q)) as Hred.
  assert (Hrq : round_pos q == q) by (rewrite <- Hred, Er'; exact Eq).
  assert (He : (expo q <= 0 - 1)%Z).
  { apply expo_below; [exact Hpos | exact H1 | unfold emin; lia]. }
  destruct (Z.eq_dec (expo q) (-1)) as [E1|N1].
  - unfold round_pos, ulp in Hrq. rewrite E1 in Hrq.
    change (pow2 (-1 - 52)) with (pow2 (-53)) in Hrq.
    set (m := rne (q / pow2 (-53))) in *.
    assert (Hm : inject_Z m < inject_Z 9007199254740992).
    { change (inject_Z 9007199254740992) with (9007199254740992 # 1).
      rewrite P53 in Hrq. lra. }
    rewrite <- Zlt_Qlt in Hm.
    assert (Hm' : inject_Z m <= inject_Z 9007199254740991)
      by (rewrite <- Zle_Qle; lia).
    change (inject_Z 9007199254740991) with (9007199254740991 # 1) in Hm'.
    rewrite P53 in Hrq |- *. lra.
  - destruct (ilog2_spec Hpos) as [_ Hhi].
    assert (Hle : pow2 (ilog2 q + 1) <= pow2 (-1)).
    { apply pow2_le. unfold expo in *. lia. }
    rewrite pow2_m1 in Hle. rewrite P53. lra.
Qed.

End NumExtras.

(* ================================================================== *)
(** * Trimming and splitting *)
(* ================================================================== *)

Module StrExtras.
Import JsStr.

Lemma trimStart_head (s : jsstring) (c : char) (r : jsstring) :
  trimStart s = c :: r -> is_ws c = false.
Proof.
  induction s as [|x s IH]; cbn [trimStart]; [discriminate|].
  destruct (is_ws x) eqn:E; [exact IH|].
  intros H. injection H as <- _. exact E.
Qed.

Lemma trimStart_snoc (l : jsstring) (c : char) :
  is_ws c = false -> trimStart (l ++ [c]) = trimStart l ++ [c].
Proof.
  intros Hc. induction l as [|x l IH]; cbn [app trimStart].
  - now rewrite Hc.
  - destruct (is_ws x); [exact IH | reflexivity].
Qed.

Lemma trim_head (s : jsstring) (c : char) (r : jsstring) :
  trim s = c :: r -> is_ws c = false.
Proof.
  unfold trim, trimEnd.
  destruct (trimStart s) as [|c0 r0] eqn:E; [discriminate|].
  pose proof (@trimStart_head s c0 r0 E) as H0.
  cbn [rev]. rewrite (@trimStart_snoc (rev r0) c0 H0), rev_app_distr. cbn [rev app].
  intros H. injection H as <- _. exact H0.
Qed.

Lemma trim_last (s : jsstring) (l : jsstring) (c : char) :
  trim s = l ++ [c] -> is_ws c = false.
Proof.
  unfold trim, trimEnd. intros H.
  apply (f_equal (@rev char)) in H.
  rewrite rev_involutive, rev_app_distr in H. cbn [rev app] in H.
  exact (@trimStart_head _ _ _ H).
Qed.

Lemma filter_trimStart (s : jsstring) :
  filter visible (trimStart s) = filter visible s.
Proof.
  induction s as [|x s IH]; [reflexivity|]. cbn [trimStart].
  destruct (is_ws x) eqn:E; [|reflexivity].
  cbn [filter]. unfold visible at 2. now rewrite E.
Qed.

Lemma filter_trim (s : jsstring) : filter visible (trim s) = filter visible s.
Proof.
  unfold trim, trimEnd.
  now rewrite filter_rev, filter_trimStart, filter_rev, rev_involutive,
    filter_trimStart.
Qed.

Lemma split_concat (s : jsstring) :
  forall cur w,
    (w = true -> cur = []) ->
    concat (split_ws_from cur w s) = rev cur ++ filter visible s.
Proof.
  induction s as [|c s IH]; intros cur w Hw; cbn [split_ws_from filter].
  - cbn. now rewrite !app_nil_r.
  - unfold visible at 1. destruct (is_ws c); cbn [negb].
    + destruct w; [rewrite (Hw eq_refl) | cbn [concat]];
        rewrite IH by reflexivity; reflexivity.
    + rewrite IH by discriminate. cbn [rev]. now rewrite <- app_assoc.
Qed.

Lemma split_visible (s : jsstring) :
  forall cur w,
    Forall (fun c => is_ws c = false) cur ->
    Forall (Forall (fun c => is_ws c = false)) (split_ws_from cur w s).
Proof.
  induction s as [|c s IH]; intros cur w Hcur; cbn [split_ws_from].
  - constructor; [|constructor]. now apply Forall_rev.
  - destruct (is_ws c) eqn:E.
    + destruct w; [now apply IH|].
      constructor; [now apply Forall_rev | now apply IH].
    + apply IH. now constructor.
Qed.

(** No piece is empty when the text ends in a visible character and the
    piece being read is not empty or white space was just seen. *)
Lemma split_pieces (s : jsstring) :
  forall cur w,
    (w = false -> cur <> []) ->
    (s = [] -> cur <> []) ->
    (forall l c, s = l ++ [c] -> is_ws c = false) ->
    Forall (fun piece => piece <> []) (split_ws_from cur w s).
Proof.
  induction s as [|c s IH]; intros cur w H1 H2 H3; cbn [split_ws_from].
  - constructor; [|constructor].
    intro E. apply (H2 eq_refl). apply (f_equal (@rev char)) in E.
    now rewrite rev_involutive in E.
  - assert (Hlast : forall l d, s = l ++ [d] -> is_ws d = false).
    { intros l d E. apply (H3 (c :: l) d). now rewrite E. }
    destruct (is_ws c) eqn:E.
    + assert (Hs : s <> []).
      { intro Es. subst s. specialize (H3 [] c eq_refl). congruence. }
      assert (IH' : Forall (fun piece => piece <> [])
                           (split_ws_from [] true s)).
      { apply IH; [discriminate | intro; contradiction | exact Hlast]. }
      destruct w; [exact IH'|].
      constructor; [|exact IH'].
      intro Er. apply (H1 eq_refl). apply (f_equal (@rev char)) in Er.
      now rewrite rev_involutive in Er.
    + apply IH; [discriminate | discriminate | exact Hlast].
Qed.

(** The text read is the pieces in order, a non-empty run of white
    space between each two, after the white space skipped at the start. *)
Lemma split_weave (s : jsstring) :
  forall cur w,
    (w = true -> cur = []) ->
    exists lead first rest,
      split_ws_from cur w s = first :: map snd rest
      /\ rev cur ++ s
         = lead ++ first ++ flat_map (fun sw => fst sw ++ snd sw) rest
      /\ (w = false -> lead = [])
      /\ Forall (fun c => is_ws c = true) lead
      /\ Forall (fun sw => fst sw <> []
                           /\ Forall (fun c => is_ws c = true) (fst sw))
                rest.
Proof.
  induction s as [|c s IH]; intros cur w Hw; cbn [split_ws_from].
  - exists [], (rev cur), []. cbn. rewrite !app_nil_r. repeat split; constructor.
  - destruct (is_ws c) eqn:E.
    + destruct (IH [] true (fun _ => eq_refl))
        as (lead & first & rest & E1 & E2 & _ & Hl & Hr).
      cbn [rev app] in E2. destruct w.
      * rewrite (Hw eq_refl). exists (c :: lead), first, rest.
        split; [exact E1|]. split; [cbn [rev app]; now rewrite E2|].
        split; [discriminate|]. split; [now constructor | exact Hr].
      * exists [], (rev cur), ((c :: lead, first) :: rest).
        split; [cbn [map snd]; now rewrite E1|].
        split.
        { cbn [app flat_map fst snd]. rewrite E2.
          now rewrite <- !app_assoc. }
        split; [reflexivity|]. split; [constructor|].
        constructor; [|exact Hr]. cbn [fst].
        split; [discriminate | now constructor].
    + destruct (IH (c :: cur) false ltac:(discriminate))
        as (lead & first & rest & E1 & E2 & Hlead & Hl & Hr).
      rewrite (Hlead eq_refl) in E2. cbn [rev app] in E2.
      rewrite <- app_assoc in E2. cbn [app] in E2.
      exists [], first, rest.
      split; [exact E1|]. split; [exact E2|].
      split; [reflexivity|]. split; [constructor | exact Hr].
Qed.

End StrExtras.

(* ================================================================== *)
(** * More on the typing component *)
(* ================================================================== *)

Module TypingExtras.
Import JsNum JsStr JsVal JsNumFacts NumExtras StrExtras TypingInterface.
Import TypingFacts.

Lemma run_consistent (p : Props) (ks : list KeyPress) :
  forall s, Forall domKey ks -> consistent p s ->
            consistent p (fst (run p s ks)).
Proof.
  induction ks as [|k ks IH]; intros s Hks Hc; [exact Hc|].
  inversion Hks as [|? ? Hk Hrest]; subst.
  cbn [run]. pose proof (press_consistent k Hk Hc) as Hc'.
  destruct (press p s k) as [s1 ev1]. cbn [fst] in Hc'.
  specialize (IH s1 Hrest Hc').
  destruct (run p s1 ks) as [s2 ev2]. exact IH.
Qed.

(** X1. Whatever keys are pressed, in whatever order, the cursor equals
    the number of characters typed and never passes the end of the
    passage. *)
Theorem cursor_counts_typed (p : Props) (ks : list KeyPress) :
  Forall domKey ks ->
  let s := fst (run p (init (text p)) ks) in
  length (typedText s) = currentIndex s
  /\ (currentIndex s <= length (text p))%nat.
Proof.
  intros Hks. apply (run_consistent Hks). apply init_consistent.
Qed.

(** Three keys, a Backspace and a special key on the passage "ab": the
    cursor is at 2, on two typed characters. *)
Lemma cursor_counts_typed_witness :
  let p := mkProps (js "ab") true in
  let t := of_Z 1000 in
  let ks := [mkKey (js "x") t t t; mkKey Backspace t t t;
             mkKey (js "a") t t t; mkKey (js "Shift") t t t;
             mkKey (js "b") t t t; mkKey (js "c") t t t] in
  let s := fst (run p (init (text p)) ks) in
  length (typedText s) = currentIndex s
  /\ (currentIndex s <= length (text p))%nat.
Proof.
  intros p t ks. apply (@cursor_counts_typed p ks).
  repeat constructor; discriminate.
Defined.

Lemma length_cellsOf (txt t : jsstring) (i : nat) :
  length (cellsOf txt t i) = length txt.
Proof. unfold cellsOf. rewrite length_map, length_combine, length_seq. lia. Qed.

Lemma recolour_cellsOf (txt t t' : jsstring) (i i' : nat) :
  recolour t' i' (cellsOf txt t i) = cellsOf txt t' i'.
Proof.
  unfold recolour. rewrite length_cellsOf. unfold cellsOf.
  generalize 0%nat. induction txt as [|c txt IH]; intros a; [reflexivity|].
  cbn [length seq combine map char_]. f_equal. apply IH.
Qed.

Lemma map_char_cellsOf (txt t : jsstring) (i : nat) :
  map char_ (cellsOf txt t i) = txt.
Proof.
  unfold cellsOf. rewrite map_map.
  generalize 0%nat. induction txt as [|c l IH]; intros a; [reflexivity|].
  cbn [length seq combine map char_]. f_equal. apply IH.
Qed.

Lemma init_highlighted (p : Props) : highlighted p (init (text p)).
Proof.
  unfold highlighted, init, initCharacters, cellsOf.
  cbn [characters typedText currentIndex].
  apply map_ext. intros [i c]. destruct i; reflexivity.
Qed.

Lemma press_highlighted (p : Props) (s : State) (k : KeyPress) :
  highlighted p s -> highlighted p (fst (press p s k)).
Proof.
  unfold highlighted. intros H. unfold press, handleKeyPress.
  destruct (isActive p); cbn [negb fst]; [|exact H].
  destruct (str_eqb (key k) Backspace).
  - destruct (0 <? currentIndex s)%nat;
      cbn [fst characters typedText currentIndex]; [|exact H].
    rewrite H. apply recolour_cellsOf.
  - destruct (1 <? length (key k))%nat;
      cbn [fst characters typedText currentIndex]; [exact H|].
    destruct (length (text p) <=? currentIndex s)%nat;
      cbn [fst characters typedText currentIndex]; [exact H|].
    rewrite H. apply recolour_cellsOf.
Qed.

Lemma run_highlighted (p : Props) (ks : list KeyPress) :
  forall s, highlighted p s -> highlighted p (fst (run p s ks)).
Proof.
  induction ks as [|k ks IH]; intros s H; [exact H|].
  cbn [run]. pose proof (press_highlighted k H) as H'.
  destruct (press p s k) as [s1 ev1]. cbn [fst] in H'.
  specialize (IH s1 H'). destruct (run p s1 ks) as [s2 ev2]. exact IH.
Qed.

Lemma nth_error_indexed (A B : Type) (f : nat * A -> B) (l : list A) :
  forall a i,
    nth_error (map f (combine (seq a (length l)) l)) i
    = option_map (fun c => f ((a + i)%nat, c)) (nth_error l i).
Proof.
  induction l as [|x l IH]; intros a i.
  - destruct i; reflexivity.
  - destruct i as [|i]; cbn [length seq combine map nth_error option_map].
    + now rewrite Nat.add_0_r.
    + rewrite IH. now rewrite Nat.add_succ_r.
Qed.

(** X2. Whatever keys are pressed, there is one cell for each character
    of the passage, in order; the cell under the cursor is rendered as
    current, every cell before the cursor as correct or incorrect
    according to whether the character typed at its position equals the
    character of the passage, and every cell after the cursor with no
    class. *)
Theorem cells_follow_typed_text (p : Props) (ks : list KeyPress) :
  Forall domKey ks ->
  let s := fst (run p (init (text p)) ks) in
  map char_ (characters s) = text p
  /\ forall (i : nat) (cell : CharacterState),
       nth_error (characters s) i = Some cell ->
       (i = currentIndex s -> cellClass cell = js "current")
       /\ ((i < currentIndex s)%nat ->
           exists t, charAt (typedText s) i = Some t
                     /\ cellClass cell
                        = if char_eqb t (char_ cell)
                          then js "correct" else js "incorrect")
       /\ ((currentIndex s < i)%nat -> cellClass cell = []).
Proof.
  intros Hks s.
  pose proof (run_consistent Hks (init_consistent p)) as [Hlen Hidx].
  pose proof (run_highlighted ks (init_highlighted p)) as Hh.
  fold s in Hlen, Hidx, Hh. unfold highlighted in Hh. rewrite Hh.
  split.
  - apply map_char_cellsOf.
  - intros i cell Hcell. unfold cellsOf in Hcell.
    rewrite nth_error_indexed in Hcell. cbn [Nat.add] in Hcell.
    destruct (nth_error (text p) i) as [c|]; [|discriminate].
    cbn [option_map] in Hcell. injection Hcell as <-.
    unfold cellClass. cbn [isCurrent isCorrect typed char_].
    split; [|split].
    + intros ->. now rewrite Nat.eqb_refl.
    + intros Hlt.
      destruct (charAt (typedText s) i) as [t|] eqn:Et.
      2:{ apply nth_error_None in Et. lia. }
      exists t. split; [reflexivity|].
      destruct (Nat.eqb_spec i (currentIndex s)); [lia|].
      destruct (Nat.ltb_spec i (currentIndex s)); [|lia].
      unfold typedAt. rewrite Et.
      destruct (char_eqb t c); reflexivity.
    + intros Hgt.
      destruct (Nat.eqb_spec i (currentIndex s)); [lia|].
      destruct (Nat.ltb_spec i (currentIndex s)); [lia|]. reflexivity.
Qed.

(** The passage "abc" with "ax" typed: the first cell is correct, the
    second incorrect, the third current. *)
Lemma cells_follow_typed_text_witness :
  let p := mkProps (js "abc") true in
  let t := of_Z 1000 in
  let ks := [mkKey (js "a") t t t; mkKey (js "x") t t t] in
  let s := fst (run p (init (text p)) ks) in
  map cellClass (characters s) = [js "correct"; js "incorrect"; js "current"]
  /\ map char_ (characters s) = text p.
Proof.
  intros p t ks s.
  assert (Hks : Forall domKey ks) by (repeat constructor; discriminate).
  split; [vm_compute; reflexivity|].
  exact (proj1 (@cells_follow_typed_text p ks Hks)).
Defined.

Lemma slice_init_snoc (t : jsstring) (c : char) : slice_init (t ++ [c]) = t.
Proof. unfold slice_init. apply removelast_last. Qed.

(** What Backspace does when there is something to erase. *)
Lemma press_erases (p : Props) (s : State) (b : KeyPress) :
  isActive p = true -> key b = Backspace -> (0 < currentIndex s)%nat ->
  press p s b
  = (mkState (slice_init (typedText s)) (currentIndex s - 1)
             (match started (startTime s) with
              | Some _ => startTime s
              | None => Some (at0 b)
              end)
             (stats s)
             (recolour (slice_init (typedText s)) (currentIndex s - 1)
                       (characters s)),
     []).
Proof.
  intros Ha Hb Hlt. unfold press, handleKeyPress. rewrite Ha, Hb. cbn [negb].
  change (str_eqb Backspace Backspace) with true. cbv iota.
  destruct (Nat.ltb_spec 0 (currentIndex s)); [reflexivity | lia].
Qed.

Lemma react_highlighted (p : Props) (s : State) (i : Input) :
  highlighted p s -> highlighted p (fst (react p s i)).
Proof.
  destruct i as [k|n1 n2]; cbn [react]; [apply press_highlighted|].
  unfold highlighted, tick. intros H.
  destruct (started (startTime s)); [|exact H].
  destruct (isActive p); exact H.
Qed.

Lemma feed_highlighted (p : Props) (ins : list Input) :
  forall s, highlighted p s -> highlighted p (fst (feed p s ins)).
Proof.
  induction ins as [|i ins IH]; intros s H; [exact H|].
  cbn [feed]. pose proof (@react_highlighted p s i H) as H'.
  destruct (react p s i) as [s1 ev1]. cbn [fst] in H'.
  specialize (IH s1 H'). destruct (feed p s1 ins) as [s2 ev2]. exact IH.
Qed.

(** Firings of the interval change neither the typed text, nor the
    cursor, nor the cells. *)
Lemma feed_ticks (p : Props) (ts : list (number * number)) :
  forall s,
    let s' := fst (feed p s (map (fun t => Tick (fst t) (snd t)) ts)) in
    typedText s' = typedText s /\ currentIndex s' = currentIndex s
    /\ characters s' = characters s /\ startTime s' = startTime s.
Proof.
  induction ts as [|t ts IH]; intros s; [repeat split|].
  cbn [map feed react].
  assert (Ht : let s1 := fst (tick p s (fst t) (snd t)) in
               typedText s1 = typedText s /\ currentIndex s1 = currentIndex s
               /\ characters s1 = characters s /\ startTime s1 = startTime s).
  { unfold tick. destruct (started (startTime s)); [|repeat split].
    destruct (isActive p); repeat split. }
  destruct (tick p s (fst t) (snd t)) as [s1 ev1]. cbn [fst] in Ht.
  specialize (IH s1).
  destruct (feed p s1 (map (fun t => Tick (fst t) (snd t)) ts)) as [s2 ev2].
  cbn [fst] in *.
  destruct Ht as (A1 & A2 & A3 & A4). destruct IH as (B1 & B2 & B3 & B4).
  repeat split; congruence.
Qed.

Lemma feed_app (p : Props) (a b : list Input) :
  forall s,
    fst (feed p s (a ++ b)) = fst (feed p (fst (feed p s a)) b).
Proof.
  induction a as [|i a IH]; intros s; [reflexivity|].
  cbn [app feed]. destruct (react p s i) as [s1 ev1].
  specialize (IH s1).
  destruct (feed p s1 (a ++ b)) as [s2 ev2].
  destruct (feed p s1 a) as [s3 ev3]. cbn [fst] in *.
  exact IH.
Qed.

Lemma type_ticks_backspace (p : Props) (s : State) (k b : KeyPress)
    (ts : list (number * number)) :
  isActive p = true -> highlighted p s ->
  (currentIndex s < length (text p))%nat ->
  (exists c, key k = [c]) -> key b = Backspace ->
  let s' := fst (feed p s (Key k :: map (fun t => Tick (fst t) (snd t)) ts
                                 ++ [Key b])) in
  typedText s' = typedText s /\ currentIndex s' = currentIndex s
  /\ characters s' = characters s.
Proof.
  intros Ha Hh Hlt [c Hk] Hb.
  assert (Hnb : key k <> Backspace) by (rewrite Hk; discriminate).
  assert (Hl : (length (key k) <= 1)%nat) by (rewrite Hk; cbn; lia).
  change (Key k :: map (fun t => Tick (fst t) (snd t)) ts ++ [Key b])
    with ([Key k] ++ map (fun t => Tick (fst t) (snd t)) ts ++ [Key b]).
  rewrite !feed_app. cbn [feed react].
  rewrite (@press_printable p s k Ha Hnb Hl). cbn zeta.
  destruct (Nat.leb_spec (length (text p)) (currentIndex s)); [lia|].
  cbn [fst].
  match goal with |- context [feed p ?s1 (map _ ts)] =>
    destruct (@feed_ticks p ts s1) as (T1 & T2 & T3 & _);
    set (s2 := fst (feed p s1 (map (fun t => Tick (fst t) (snd t)) ts))) in *
  end.
  cbn [typedText currentIndex characters] in T1, T2, T3.
  rewrite (@press_erases p s2 b Ha Hb) by lia.
  cbn [fst typedText currentIndex characters].
  rewrite T1, T2, T3, Hk, slice_init_snoc.
  unfold highlighted in Hh. rewrite Hh, !recolour_cellsOf.
  replace (currentIndex s + 1 - 1)%nat with (currentIndex s) by lia.
  repeat split.
Qed.

(** X3. Backspace undoes a typed character: in any state reached by key
    presses and interval firings, with the component active and the
    cursor before the end of the passage, typing one character (right or
    wrong) and then pressing Backspace, the interval firing any number of
    times in between, leaves the typed text, the cursor and the
    highlighting of every cell as they were.  (The displayed statistics
    are recomputed by the interval and are not part of this.) *)
Theorem backspace_undoes_key (p : Props) (ins : list Input)
    (k b : KeyPress) (ts : list (number * number)) :
  isActive p = true ->
  let s := fst (feed p (init (text p)) ins) in
  (currentIndex s < length (text p))%nat ->
  (exists c, key k = [c]) -> key b = Backspace ->
  let s' := fst (feed p s (Key k :: map (fun t => Tick (fst t) (snd t)) ts
                                 ++ [Key b])) in
  typedText s' = typedText s /\ currentIndex s' = currentIndex s
  /\ characters s' = characters s.
Proof.
  intros Ha s Hlt Hk Hb.
  apply type_ticks_backspace; try assumption.
  apply feed_highlighted, init_highlighted.
Qed.

(** On "abc" with "a" typed and the interval fired once, a wrong "x", a
    firing of the interval and Backspace: text, cursor and cells are as
    before, while the statistics shown have moved on. *)
Lemma backspace_undoes_key_witness :
  let p := mkProps (js "abc") true in
  let t := of_Z 1000 in
  let s := fst (feed p (init (text p))
                  [Key (mkKey (js "a") t t t); Tick (of_Z 2000) (of_Z 2000)]) in
  let s' := fst (feed p s [Key (mkKey (js "x") (of_Z 3000) (of_Z 3000)
                                      (of_Z 3000));
                           Tick (of_Z 61000) (of_Z 61000);
                           Key (mkKey Backspace (of_Z 62000) (of_Z 62000)
                                      (of_Z 62000))]) in
  (typedText s' = typedText s /\ currentIndex s' = currentIndex s
   /\ characters s' = characters s)
  /\ stats s' <> stats s.
Proof.
  intros p t. split.
  - apply (@backspace_undoes_key p
             [Key (mkKey (js "a") t t t); Tick (of_Z 2000) (of_Z 2000)]
             (mkKey (js "x") (of_Z 3000) (of_Z 3000) (of_Z 3000))
             (mkKey Backspace (of_Z 62000) (of_Z 62000) (of_Z 62000))
             [(of_Z 61000, of_Z 61000)]).
    + reflexivity.
    + vm_compute. lia.
    + exists 120%N. reflexivity.
    + reflexivity.
  - vm_compute. discriminate.
Defined.

Lemma started_some (st : option number) (t : number) :
  started st = Some t -> st = Some t /\ truthy t = true.
Proof.
  unfold started. destruct st as [x|]; [|discriminate].
  destruct (truthy x) eqn:E; [|discriminate].
  intros H. injection H as <-. auto.
Qed.

Lemma press_keeps_timer (p : Props) (s : State) (k : KeyPress) (t : number) :
  started (startTime s) = Some t ->
  startTime (fst (press p s k)) = startTime s.
Proof.
  intros Hs. unfold press, handleKeyPress. rewrite Hs.
  destruct (isActive p); cbn [negb fst]; [|reflexivity].
  destruct (str_eqb (key k) Backspace).
  - destruct (0 <? currentIndex s)%nat; reflexivity.
  - destruct (1 <? length (key k))%nat; [reflexivity|].
    destruct (length (text p) <=? currentIndex s)%nat; reflexivity.
Qed.

Lemma press_starts_timer (p : Props) (s : State) (k : KeyPress) :
  isActive p = true -> started (startTime s) = None ->
  startTime (fst (press p s k)) = Some (at0 k) /\ snd (press p s k) = [].
Proof.
  intros Ha Hs. unfold press, handleKeyPress. rewrite Ha, Hs. cbn [negb].
  destruct (str_eqb (key k) Backspace).
  - destruct (0 <? currentIndex s)%nat; split; reflexivity.
  - destruct (1 <? length (key k))%nat; [split; reflexivity|].
    destruct (length (text p) <=? currentIndex s)%nat; [split; reflexivity|].
    cbn [fst snd startTime]. split; [reflexivity|].
    destruct (length (text p) <=? currentIndex s + 1)%nat; reflexivity.
Qed.

Lemma press_complete_from (p : Props) (s : State) (k : KeyPress)
    (t : number) (st : TypingStats) :
  started (startTime s) = Some t ->
  In (OnComplete st) (snd (press p s k)) ->
  timeTaken st = fdiv (fsub (at2 k) t) (of_Z 1000).
Proof.
  intros Hs. unfold press, handleKeyPress. rewrite Hs.
  destruct (isActive p); cbn [negb snd]; [|intros []].
  destruct (str_eqb (key k) Backspace).
  - destruct (0 <? currentIndex s)%nat; intros [].
  - destruct (1 <? length (key k))%nat; [intros []|].
    destruct (length (text p) <=? currentIndex s)%nat; cbn [snd].
    + intros [E|[]]. injection E as <-. reflexivity.
    + destruct (length (text p) <=? currentIndex s + 1)%nat; [|intros []].
      intros [E|[]]. injection E as <-. reflexivity.
Qed.

Lemma run_timer_from (p : Props) (ks : list KeyPress) (t : number) :
  forall s,
    started (startTime s) = Some t ->
    startTime (fst (run p s ks)) = startTime s
    /\ forall st, In (OnComplete st) (snd (run p s ks)) ->
         exists kj, In kj ks
                    /\ timeTaken st = fdiv (fsub (at2 kj) t) (of_Z 1000).
Proof.
  induction ks as [|k ks IH]; intros s Hs.
  - split; [reflexivity | intros st []].
  - cbn [run].
    pose proof (@press_keeps_timer p s k t Hs) as Hk.
    pose proof (fun st => @press_complete_from p s k t st Hs) as Hc.
    destruct (press p s k) as [s1 ev1]. cbn [fst snd] in Hk, Hc.
    assert (Hs1 : started (startTime s1) = Some t) by (rewrite Hk; exact Hs).
    destruct (IH s1 Hs1) as [IH1 IH2].
    destruct (run p s1 ks) as [s2 ev2]. cbn [fst snd] in *.
    split; [congruence|].
    intros st Hin. apply in_app_or in Hin. destruct Hin as [Hin|Hin].
    + exists k. split; [now left | now apply Hc].
    + destruct (IH2 st Hin) as (kj & Hkj & E). exists kj. split; [now right | exact E].
Qed.

(** X4. The timer starts at the first key press the active component
    receives, whatever the key (a character, Backspace or a special key),
    and is never restarted: after any further keys it still holds the
    clock reading of that first key press, and the time taken of every
    completion reported is counted from it. *)
Theorem timer_runs_from_first_key (p : Props) (s : State) (k : KeyPress)
    (ks : list KeyPress) :
  isActive p = true -> started (startTime s) = None ->
  truthy (at0 k) = true ->
  startTime (fst (run p s (k :: ks))) = Some (at0 k)
  /\ forall st, In (OnComplete st) (snd (run p s (k :: ks))) ->
       exists kj, In kj ks
                  /\ timeTaken st
                     = fdiv (fsub (at2 kj) (at0 k)) (of_Z 1000).
Proof.
  intros Ha Hs Ht. cbn [run].
  destruct (@press_starts_timer p s k Ha Hs) as [H1 H2].
  destruct (press p s k) as [s1 ev1]. cbn [fst snd] in H1, H2. subst ev1.
  assert (Hs1 : started (startTime s1) = Some (at0 k)).
  { rewrite H1. unfold started. now rewrite Ht. }
  destruct (@run_timer_from p ks (at0 k) s1 Hs1) as [E1 E2].
  destruct (run p s1 ks) as [s2 ev2]. cbn [fst snd app] in *.
  split; [congruence | exact E2].
Qed.

(** On "ab", the Shift key at time 1000 starts the timer; "a" and "b"
    typed at 4000 and 7000 complete the passage in 6 seconds. *)
Lemma timer_runs_from_first_key_witness :
  let p := mkProps (js "ab") true in
  let ks := [mkKey (js "a") (of_Z 4000) (of_Z 4000) (of_Z 4000);
             mkKey (js "b") (of_Z 7000) (of_Z 7000) (of_Z 7000)] in
  let k := mkKey (js "Shift") (of_Z 1000) (of_Z 1000) (of_Z 1000) in
  startTime (fst (run p (init (text p)) (k :: ks))) = Some (of_Z 1000)
  /\ forall st, In (OnComplete st) (snd (run p (init (text p)) (k :: ks))) ->
       exists kj, In kj ks
                  /\ timeTaken st
                     = fdiv (fsub (at2 kj) (of_Z 1000)) (of_Z 1000).
Proof.
  intros p ks k.
  apply (@timer_runs_from_first_key p (init (text p)) k ks); reflexivity.
Defined.

Lemma filter_length_all (A : Type) (f : A -> bool) (l : list A) :
  length (filter f l) = length l <-> Forall (fun x => f x = true) l.
Proof.
  induction l as [|x l IH]; cbn [filter length].
  - split; [constructor | reflexivity].
  - destruct (f x) eqn:E; cbn [length].
    + rewrite Forall_cons_iff, <- IH. split; [intros H; split; [exact E | lia] | intros [_ H]; lia].
    + split.
      * intros H. pose proof (filter_length_le f l). lia.
      * intros H. inversion H; congruence.
Qed.

Lemma skipn_cons_iff (A : Type) (a : nat) :
  forall (l : list A) (x : A) (r : list A),
    skipn a l = x :: r <-> nth_error l a = Some x /\ skipn (S a) l = r.
Proof.
  induction a as [|a IH]; intros [|y l] x r; cbn [skipn nth_error].
  - split; [discriminate | intros [H _]; discriminate].
  - split; [intros H; injection H as -> ->; auto
           | intros [H1 H2]; injection H1 as ->; now subst].
  - split; [discriminate | intros [H _]; discriminate].
  - apply IH.
Qed.

Lemma matches_prefix (txt t : jsstring) :
  forall a,
    Forall (fun x => (let '(idx, c) := x in
                      match charAt txt idx with
                      | Some d => char_eqb c d
                      | None => false
                      end) = true)
           (combine (seq a (length t)) t)
    <-> exists rest, skipn a txt = t ++ rest.
Proof.
  induction t as [|c t IH]; intros a.
  - cbn. split; [intros _; now exists (skipn a txt) | constructor].
  - cbn [length seq combine app]. rewrite Forall_cons_iff, IH. split.
    + intros [Hm [rest Hr]]. exists rest. apply skipn_cons_iff.
      split; [|exact Hr]. unfold charAt in Hm.
      destruct (nth_error txt a) as [d|]; [|discriminate].
      apply N.eqb_eq in Hm. now subst.
    + intros [rest Hr]. apply skipn_cons_iff in Hr. destruct Hr as [Hn Hs].
      split; [|now exists rest]. unfold charAt. rewrite Hn. apply N.eqb_refl.
Qed.

Lemma countCorrect_all (txt t : jsstring) :
  countCorrect txt t = length t <-> exists rest, txt = t ++ rest.
Proof.
  unfold countCorrect.
  rewrite <- (matches_prefix txt t 0). cbn [skipn].
  rewrite <- filter_length_all.
  rewrite length_combine, length_seq, Nat.min_id. reflexivity.
Qed.

Lemma percent_full (t : nat) :
  (0 < t)%nat -> fmul (fdiv (of_nat t) (of_nat t)) (of_Z 100) = of_Z 100.
Proof.
  intros Ht. rewrite (fdiv_of_nat t Ht).
  pose proof (inject_nat_pos Ht) as Hp.
  assert (E1 : (inject_Z (Z.of_nat t) / inject_Z (Z.of_nat t) == 1)%Q).
  { apply Qmult_inv_r. intro E. rewrite E in Hp. now apply Qlt_irrefl in Hp. }
  rewrite (rnd64_Qeq E1), rnd64_one.
  unfold fmul, of_Z.
  assert (E2 : (1 * inject_Z 100 == inject_Z 100)%Q) by apply Qmult_1_l.
  rewrite (rnd64_Qeq E2), rnd64_hundred. reflexivity.
Qed.

Lemma accuracy_full (t : nat) :
  (if (0 <? t)%nat
   then Math_round (fmul (fdiv (of_nat t) (of_nat t)) (of_Z 100))
   else of_Z 100) = of_Z 100.
Proof.
  destruct (Nat.ltb_spec 0 t) as [Ht|Ht]; [|reflexivity].
  now rewrite (percent_full Ht).
Qed.

(** X5. The statistics count no incorrect character exactly when the
    typed text is the beginning of the passage, and the accuracy is then
    100, whatever the clock readings (nothing typed included). *)
Theorem no_mistakes_iff_prefix (txt typed_ : jsstring) (idx : nat)
    (start now1 now2 : number) :
  let st := calculateStats txt typed_ idx start now1 now2 in
  (incorrectChars st = 0%Z <-> exists rest, txt = typed_ ++ rest)
  /\ (incorrectChars st = 0%Z ->
      accuracy st = of_Z 100
      /\ correctChars st = Z.of_nat (length typed_)).
Proof.
  intros st. unfold st, calculateStats.
  cbn [incorrectChars accuracy correctChars].
  pose proof (countCorrect_le txt typed_) as Hle.
  split.
  - rewrite <- countCorrect_all. lia.
  - intros H.
    assert (E : countCorrect txt typed_ = length typed_) by lia.
    rewrite E. split; [apply accuracy_full | reflexivity].
Qed.

(** "the qu" typed on "the quick": no mistake, accuracy 100. *)
Lemma no_mistakes_iff_prefix_witness :
  let st := calculateStats (js "the quick") (js "the qu") 6
                           (of_Z 1000) (of_Z 4000) (of_Z 4000) in
  incorrectChars st = 0%Z
  /\ accuracy st = of_Z 100
  /\ correctChars st = 6%Z.
Proof.
  intros st.
  destruct (no_mistakes_iff_prefix (js "the quick") (js "the qu") 6
              (of_Z 1000) (of_Z 4000) (of_Z 4000)) as [H1 H2].
  assert (H : incorrectChars st = 0%Z).
  { apply H1. exists (js "ick"). reflexivity. }
  split; [exact H | exact (H2 H)].
Defined.

(** X6. The words counted for the words-per-minute figure are the
    maximal runs of visible characters of the typed text: the trimmed
    text is exactly the words in order with a non-empty run of white space
    between each two consecutive words, the words hold no white space,
    put together they are the typed text with its white space removed,
    and none of them is empty as soon as something visible was typed; when
    nothing visible was typed (nothing at all, or white space only) one
    empty word is counted. *)
Theorem words_counted (typed_ : jsstring) :
  let ws := split_ws (trim typed_) in
  (exists first rest,
      ws = first :: map snd rest
      /\ trim typed_
         = first ++ flat_map (fun sw => fst sw ++ snd sw) rest
      /\ Forall (fun sw => fst sw <> []
                           /\ Forall (fun c => is_ws c = true) (fst sw))
                rest)
  /\ Forall (Forall (fun c => is_ws c = false)) ws
  /\ concat ws = filter visible typed_
  /\ (trim typed_ = [] -> ws = [[]])
  /\ (trim typed_ <> [] -> Forall (fun w => w <> []) ws).
Proof.
  intros ws. unfold ws, split_ws.
  split.
  { destruct (@split_weave (trim typed_) [] false ltac:(discriminate))
      as (lead & first & rest & E1 & E2 & Hlead & _ & Hr).
    rewrite (Hlead eq_refl) in E2. cbn [rev app] in E2.
    exists first, rest. auto. }
  split; [apply split_visible; constructor|].
  split; [rewrite split_concat by discriminate; apply filter_trim|].
  split; [intros ->; reflexivity|].
  intros Hne. destruct (trim typed_) as [|c r] eqn:E; [contradiction|].
  pose proof (@trim_head typed_ c r E) as Hc.
  cbn [split_ws_from]. rewrite Hc.
  apply split_pieces; try discriminate.
  intros l d El. apply (@trim_last typed_ (c :: l) d). now rewrite E, El.
Qed.

(** "  the  quick fox " is the three words "the", "quick" and "fox", two
    blanks and one blank between them; three blanks are one empty word. *)
Lemma words_counted_witness :
  (exists first rest,
      split_ws (trim (js "  the  quick fox ")) = first :: map snd rest
      /\ js "the  quick fox"
         = first ++ flat_map (fun sw => fst sw ++ snd sw) rest)
  /\ split_ws (trim (js "  the  quick fox ")) = [js "the"; js "quick"; js "fox"]
  /\ Forall (fun w => w <> []) (split_ws (trim (js "  the  quick fox ")))
  /\ split_ws (trim (js "   ")) = [[]].
Proof.
  destruct (words_counted (js "  the  quick fox "))
    as ((first & rest & E1 & E2 & _) & _ & _ & _ & H5).
  destruct (words_counted (js "   ")) as (_ & _ & _ & H4 & _).
  split; [exists first, rest; split; [exact E1 | exact E2]|].
  split; [vm_compute; reflexivity|].
  split; [apply H5; vm_compute; discriminate | apply H4; reflexivity].
Defined.

(** X20. The progress bar never overflows: whatever keys are pressed on
    a passage that is not empty, the width [(currentIndex / text.length) *
    100] is a number from 0 to 100, and it is exactly 100 once the cursor
    has reached the end; on an empty passage it is NaN. *)
Theorem progress_bar_in_range (p : Props) (ks : list KeyPress) :
  Forall domKey ks ->
  let s := fst (run p (init (text p)) ks) in
  (text p <> [] ->
   exists q, progressOf (text p) (currentIndex s) = Fin q
             /\ (0 <= q /\ q <= 100)%Q)
  /\ (text p <> [] -> currentIndex s = length (text p) ->
      progressOf (text p) (currentIndex s) = of_Z 100)
  /\ (text p = [] -> progressOf (text p) (currentIndex s) = NaN).
Proof.
  intros Hks s.
  destruct (run_consistent Hks (init_consistent p)) as [_ Hidx]. fold s in Hidx.
  unfold progressOf. split; [|split].
  - intros Hne. apply percent_bounds; [exact Hidx|].
    destruct (text p); [contradiction | cbn; lia].
  - intros Hne ->. apply percent_full.
    destruct (text p); [contradiction | cbn; lia].
  - intros E. rewrite E in Hidx |- *. cbn in Hidx.
    replace (currentIndex s) with 0%nat by lia. reflexivity.
Qed.

(** "ab" with one and with two characters typed: 50 and 100 percent. *)
Lemma progress_bar_in_range_witness :
  let p := mkProps (js "ab") true in
  let t := of_Z 1000 in
  let ks := [mkKey (js "a") t t t; mkKey (js "b") t t t] in
  let s := fst (run p (init (text p)) ks) in
  progressOf (text p) (currentIndex s) = of_Z 100.
Proof.
  intros p t ks s.
  apply (proj1 (proj2 (@progress_bar_in_range p ks
           ltac:(repeat constructor; discriminate)))).
  - discriminate.
  - reflexivity.
Defined.

End TypingExtras.

(* ================================================================== *)
(** * More on the race client *)
(* ================================================================== *)

Module ClientExtras.
Import JsNum JsStr JsVal JsNumFacts NumExtras StrExtras MultiplayerRace.
Import TypingFacts ClientFacts.

Lemma Math_round_shape (x : number) :
  leb (of_Z 0) (Math_round x) = true ->
  Math_round x = PInf \/ exists n, Math_round x = of_Z n /\ (0 <= n)%Z.
Proof.
  destruct x as [| | |q]; cbn [Math_round]; try discriminate; [now left|].
  intros H. right. exists (Qfloor (q + (1 # 2))). split; [reflexivity|].
  unfold leb, of_Z in H. apply Qle_bool_iff in H. now rewrite Zle_Qle.
Qed.

Lemma max0_id (n : Z) : (0 <= n)%Z -> Math_max (of_Z 0) (of_Z n) = of_Z n.
Proof.
  intros Hn. unfold Math_max, of_Z, ltb.
  destruct (Qle_bool (inject_Z n) (inject_Z 0)) eqn:E; cbn [negb]; [|reflexivity].
  apply Qle_bool_iff in E. rewrite <- Zle_Qle in E.
  now replace n with 0%Z by lia.
Qed.

Lemma clamp_id (a : Z) :
  (0 <= a <= 100)%Z ->
  Math_max (of_Z 0) (Math_min (of_Z 100) (of_Z a)) = of_Z a.
Proof.
  intros Ha. unfold Math_min, of_Z, ltb.
  destruct (Qle_bool (inject_Z 100) (inject_Z a)) eqn:E; cbn [negb].
  - apply Qle_bool_iff in E. rewrite <- Zle_Qle in E.
    replace a with 100%Z by lia. reflexivity.
  - apply max0_id. lia.
Qed.

(** X7. The statistics the typing component computes are sent unchanged:
    when the guard of the handler holds, a completion makes the client
    emit exactly one [raceFinished] message, whose words per minute and
    accuracy are those of the statistics record (the clamping leaves them
    as they are), while the time taken is not the component's: it is
    counted from the start time the coordinator announced. *)
Theorem raceFinished_carries_stats (s : State) (txt typed_ : jsstring)
    (idx : nat) (start now1 now2 start0 : number) (now : Z) :
  socket s <> None -> isConnected s = true ->
  started_time s = Some start0 ->
  let st := TypingInterface.calculateStats txt typed_ idx start now1 now2 in
  deliver s [TypingInterface.OnComplete st] now
  = (s, [mkEmit (js "raceFinished")
           (VObj [(js "finalWPM", VNum (TypingInterface.wpm st));
                  (js "finalAccuracy", VNum (TypingInterface.accuracy st));
                  (js "timeTaken",
                   VNum (Math_max (of_Z 0)
                           (fdiv (fsub (of_Z now) start0) (of_Z 1000))))])]).
Proof.
  intros Hsock Hconn Hst st.
  cbn [deliver]. unfold handleRaceComplete.
  destruct (socket s) as [sock|]; [|contradiction].
  rewrite Hst, Hconn.
  change (get (statsVal st) (js "wpm")) with (Some (VNum (TypingInterface.wpm st))).
  change (get (statsVal st) (js "accuracy"))
    with (Some (VNum (TypingInterface.accuracy st))).
  cbv iota.
  assert (Hw : Math_max (of_Z 0) (TypingInterface.wpm st) = TypingInterface.wpm st
               /\ isNaN (TypingInterface.wpm st) = false).
  { unfold st, TypingInterface.calculateStats. cbn [TypingInterface.wpm].
    match goal with |- context [if gtb ?te _ then _ else _] =>
      pose proof (wpm_nonneg (length (split_ws (trim typed_))) te) as Hnn;
      destruct (gtb te (of_Z 0)) end.
    - destruct (Math_round_shape _ Hnn) as [E|(n & E & Hn)]; rewrite E.
      + split; reflexivity.
      + split; [now apply max0_id | reflexivity].
    - split; reflexivity. }
  assert (Ha : Math_max (of_Z 0)
                 (Math_min (of_Z 100) (TypingInterface.accuracy st))
               = TypingInterface.accuracy st
               /\ isNaN (TypingInterface.accuracy st) = false).
  { unfold st, TypingInterface.calculateStats. cbn [TypingInterface.accuracy].
    destruct (accuracy_value
                (countCorrect_le txt typed_)) as (a & E & Hr & _).
    rewrite E. split; [now apply clamp_id | reflexivity]. }
  destruct Hw as [Hw1 Hw2]. destruct Ha as [Ha1 Ha2].
  rewrite Hw2, Ha2. cbn [orb]. rewrite Hw1, Ha1. reflexivity.
Qed.

(** "ab" typed right from time 1000 to 61000, in a race the coordinator
    started at time 0 and completed at time 62000: 100 percent accuracy
    is sent, and 62 seconds. *)
Lemma raceFinished_carries_stats_witness :
  let s := mkState (Some (js "sock")) (mkLobby [] (of_Z 0) racing) (js "ab")
                   (Some (of_Z 1)) None (js "ann") true false None None
                   true [] true in
  let st := TypingInterface.calculateStats (js "ab") (js "ab") 2 (of_Z 1000)
              (of_Z 61000) (of_Z 61000) in
  deliver s [TypingInterface.OnComplete st] 62001
  = (s, [mkEmit (js "raceFinished")
           (VObj [(js "finalWPM", VNum (TypingInterface.wpm st));
                  (js "finalAccuracy", VNum (of_Z 100));
                  (js "timeTaken", VNum (of_Z 62))])]).
Proof.
  intros s st.
  eapply eq_trans.
  - apply (@raceFinished_carries_stats s (js "ab") (js "ab") 2 (of_Z 1000)
             (of_Z 61000) (of_Z 61000) (of_Z 1) 62001);
      [discriminate | reflexivity | reflexivity].
  - vm_compute. reflexivity.
Defined.

(** X8. A client that has its rank, or that is disconnected, sends
    nothing from the typing component: key presses leave the typed text
    as it is and emit nothing, and the interval does not report
    progress. *)
Theorem idle_client_types_nothing (s : State) (ti : TypingInterface.State)
    (k : TypingInterface.KeyPress) (now1 now2 : number) (now : Z) :
  ranked s = true \/ isConnected s = false ->
  clientKey s ti k now = (ti, [])
  /\ clientTick s ti now1 now2 now = [].
Proof.
  intros H. unfold clientKey, clientTick.
  destruct (typingProps s) as [p|] eqn:Ep; [|split; reflexivity].
  assert (Hp : TypingInterface.isActive p = false).
  { unfold typingProps in Ep. destruct (view s); try discriminate.
    destruct (_ && _); [|discriminate]. injection Ep as <-.
    cbn [TypingInterface.isActive].
    destruct H as [H|H]; rewrite H; [reflexivity | apply andb_false_r]. }
  unfold TypingInterface.press, TypingInterface.handleKeyPress,
    TypingInterface.tick.
  rewrite Hp. cbn [negb].
  split; [reflexivity|].
  destruct (TypingInterface.started (TypingInterface.startTime ti));
    reflexivity.
Qed.

(** A racing client that has finished first types a further key. *)
Lemma idle_client_types_nothing_witness :
  let s := mkState (Some (js "sock")) (mkLobby [] (of_Z 0) racing) (js "ab")
                   (Some (of_Z 1)) None (js "ann") true false None
                   (Some (of_Z 1)) true [] true in
  let ti := TypingInterface.mkState (js "ab") 2 (Some (of_Z 1000))
              TypingInterface.initialStats
              (TypingInterface.cellsOf (js "ab") (js "ab") 2) in
  let k := TypingInterface.mkKey (js "x") (of_Z 5000) (of_Z 5000) (of_Z 5000) in
  clientKey s ti k 5000 = (ti, [])
  /\ clientTick s ti (of_Z 5000) (of_Z 5000) 5000 = [].
Proof.
  intros s ti k.
  apply (@idle_client_types_nothing s ti k (of_Z 5000) (of_Z 5000) 5000).
  left. reflexivity.
Defined.

(** X9. The "Join Race" button and the handler agree: while the button
    is disabled (blank name or no connection) the handler, which the Enter
    key also calls, does nothing; otherwise, with the socket in place, it
    sends one [joinLobby] message, whose user name is the typed name
    trimmed, is not empty and neither starts nor ends with white space,
    and the join form is hidden afterwards. *)
Theorem join_sends_trimmed_name (s : State) :
  (joinDisabled s = true -> joinLobby s = (s, []))
  /\ (joinDisabled s = false -> socket s <> None ->
      let n := trim (username_ s) in
      snd (joinLobby s)
      = [mkEmit (js "joinLobby") (VObj [(js "username", VStr n)])]
      /\ n <> []
      /\ (forall c r, n = c :: r -> is_ws c = false)
      /\ (forall l c, n = l ++ [c] -> is_ws c = false)
      /\ hasJoined (fst (joinLobby s)) = true
      /\ showsJoinForm (fst (joinLobby s)) = false).
Proof.
  unfold joinDisabled, joinLobby. split.
  - intros H. destruct (socket s); [|reflexivity].
    destruct (nonempty (trim (username_ s))); cbn [negb orb andb] in *;
      [rewrite negb_true_iff in H; now rewrite H | reflexivity].
  - intros H Hs. cbv zeta. destruct (socket s) as [sock|]; [|contradiction].
    apply orb_false_iff in H. destruct H as [H1 H2].
    rewrite negb_false_iff in H1, H2. rewrite H1, H2. cbn [andb snd fst].
    split; [reflexivity|].
    split; [now apply nonempty_true|].
    split; [intros c r E; exact (@trim_head _ _ _ E)|].
    split; [intros l c E; exact (@trim_last _ _ _ E)|].
    unfold socketEffect. destruct (depsChanged _ _);
      (split; [reflexivity|]);
      unfold showsJoinForm; cbn [hasJoined];
      (destruct (view _); [reflexivity | reflexivity |]);
      now rewrite andb_false_r.
Qed.

(** The name " ann " typed by a connected client. *)
Lemma join_sends_trimmed_name_witness :
  let s := mkState (Some (js "sock")) emptyLobby [] None None (js " ann ")
                   true false None None false [] false in
  snd (joinLobby s)
  = [mkEmit (js "joinLobby") (VObj [(js "username", VStr (js "ann"))])]
  /\ showsJoinForm (fst (joinLobby s)) = false.
Proof.
  intros s.
  destruct (proj2 (join_sends_trimmed_name s)) as (H1 & _ & _ & _ & _ & H6);
    [reflexivity | discriminate |].
  split; [exact H1 | exact H6].
Defined.

Lemma map_unmatched (uid : jsstring) (f : RaceUser -> RaceUser)
    (us : list RaceUser) :
  ~ In uid (map id us) ->
  map (fun user => if str_eqb (id user) uid then f user else user) us = us.
Proof.
  intros Hn. induction us as [|u us IH]; [reflexivity|].
  cbn [map] in *.
  rewrite str_eqb_neq by (intro E; apply Hn; now left).
  f_equal. apply IH. intro H. apply Hn. now right.
Qed.

Lemma set_lobbyState_same (s : State) :
  set_lobbyState s (mkLobby (users (lobbyState s)) (countdown_ (lobbyState s))
                            (status (lobbyState s))) = s.
Proof. destruct s as [? [? ? ?] ? ? ? ? ? ? ? ? ? ? ?]. reflexivity. Qed.

(** X10. Progress and finish events about an opponent never add, remove,
    reorder or rename a participant, and never touch the status or the
    countdown; an event that names an id which is not in the roster
    changes nothing at all; and a finish event leaves every progress value
    as it was. *)
Theorem opponent_events_keep_roster (s : State) (uid : jsstring)
    (v rank_ : number) (stats_ : jsval) :
  let s1 := onOpponentProgress s uid v in
  let s2 := onOpponentFinished s uid rank_ stats_ in
  (map id (users (lobbyState s1)) = map id (users (lobbyState s))
   /\ map username (users (lobbyState s1))
      = map username (users (lobbyState s))
   /\ status (lobbyState s1) = status (lobbyState s)
   /\ countdown_ (lobbyState s1) = countdown_ (lobbyState s))
  /\ (map id (users (lobbyState s2)) = map id (users (lobbyState s))
      /\ map username (users (lobbyState s2))
         = map username (users (lobbyState s))
      /\ map progress (users (lobbyState s2))
         = map progress (users (lobbyState s))
      /\ status (lobbyState s2) = status (lobbyState s)
      /\ countdown_ (lobbyState s2) = countdown_ (lobbyState s))
  /\ (~ In uid (map id (users (lobbyState s))) -> s1 = s /\ s2 = s).
Proof.
  intros s1 s2. unfold s1, s2, onOpponentProgress, onOpponentFinished.
  cbn [set_lobbyState lobbyState users status countdown_].
  rewrite !map_map.
  repeat split;
    try (apply map_ext; intros u; destruct (str_eqb (id u) uid); reflexivity).
  - rewrite (@map_unmatched uid _ _ H). apply set_lobbyState_same.
  - rewrite (@map_unmatched uid _ _ H). apply set_lobbyState_same.
Qed.

(** A progress event for an id that is not in the roster. *)
Lemma opponent_events_keep_roster_witness :
  let s := mkState (Some (js "sock"))
                   (mkLobby [mkUser (js "a") (js "ann") (of_Z 10) None None None]
                            (of_Z 0) racing)
                   (js "ab") (Some (of_Z 1)) None (js "ann") true false None
                   None true [] true in
  onOpponentProgress s (js "zz") (of_Z 50) = s
  /\ onOpponentFinished s (js "zz") (of_Z 1) VNull = s.
Proof.
  intros s.
  apply (proj2 (proj2 (opponent_events_keep_roster s (js "zz") (of_Z 50)
                         (of_Z 1) VNull))).
  cbn. intros [H|[]]. discriminate.
Defined.

Lemma orDefault_nonempty (m d : jsstring) : d <> [] -> orDefault m d <> [].
Proof.
  intros Hd. unfold orDefault. destruct m; cbn [nonempty]; [exact Hd | discriminate].
Qed.

Lemma notice_text (s : State) (n : Notice) :
  exists m, onNotice s n = set_connectionError s (Some m) /\ m <> [].
Proof.
  destruct n as [m|m|data]; cbn [onNotice].
  - eexists. split; [reflexivity|]. apply orDefault_nonempty. discriminate.
  - eexists. split; [reflexivity|]. apply orDefault_nonempty. discriminate.
  - unfold onRaceTimeout.
    assert (Hd : (if nonempty (message data) then message data
                  else js "Race time limit reached.") <> []).
    { destruct (message data); cbn [nonempty]; discriminate. }
    destruct (unfinishedUsers data) as [names|].
    + destruct (0 <? length names)%nat.
      * eexists. split; [reflexivity|]. unfold timeoutMessage.
        intro E. apply app_eq_nil in E. destruct E as [_ E].
        apply app_eq_nil in E. destruct E as [E _]. discriminate.
      * eexists. split; [reflexivity | exact Hd].
    + eexists. split; [reflexivity | exact Hd].
Qed.

(** X11. A race error, lobby error or race timeout always leaves a
    message that is not empty (a default text stands in for an empty
    one) and changes nothing else, the view included.  The message is only
    rendered by the lobby view: on the race track and on the results
    screen no box is shown; in the lobby it is shown in the error box,
    never together with the "Connected" badge, unless the client is
    reconnecting, when only the reconnecting box is shown. *)
Theorem notices_shown_in_lobby_only (s : State) (n : Notice) :
  let s' := onNotice s n in
  exists m,
    s' = set_connectionError s (Some m) /\ m <> []
    /\ view s' = view s
    /\ (view s <> LobbyView -> shownBanners s' = [])
    /\ (view s = LobbyView -> isReconnecting s = false ->
        In (ErrorBox m (includesb m (js "refresh"))) (shownBanners s')
        /\ ~ In ConnectedBox (shownBanners s')
        /\ ~ In ReconnectingBox (shownBanners s'))
    /\ (view s = LobbyView -> isReconnecting s = true ->
        shownBanners s' = [ReconnectingBox]).
Proof.
  intros s'. destruct (notice_text s n) as (m & E & Hm).
  exists m. fold s' in E. rewrite E.
  split; [reflexivity|]. split; [exact Hm|].
  assert (Hv : view (set_connectionError s (Some m)) = view s) by reflexivity.
  split; [exact Hv|].
  unfold shownBanners. rewrite Hv.
  assert (He : errorText (set_connectionError s (Some m)) = Some m).
  { unfold errorText. cbn [set_connectionError connectionError].
    destruct m; [contradiction | reflexivity]. }
  split; [|split].
  - intros Hn. destruct (view s); [reflexivity | reflexivity | contradiction].
  - intros -> Hr. unfold banners. rewrite He.
    cbn [set_connectionError isConnected isReconnecting]. rewrite Hr.
    cbn [negb andb app]. rewrite andb_true_r.
    destruct (isConnected s); cbn [negb app In].
    + split; [now left|]. split; intros [H|[]]; discriminate.
    + split; [right; now left|].
      split; intros [H|[H|[]]]; discriminate.
  - intros -> Hr. unfold banners. rewrite He.
    cbn [set_connectionError isConnected isReconnecting]. rewrite Hr.
    cbn [negb andb app]. rewrite andb_false_r.
    destruct (isConnected s); reflexivity.
Qed.

(** A timeout without names reaches a connected client in the lobby, and
    one on the race track. *)
Lemma notices_shown_in_lobby_only_witness :
  let lobby := mkState (Some (js "sock")) emptyLobby [] None None (js "ann")
                       true false None None true [] true in
  let track := mkState (Some (js "sock")) (mkLobby [] (of_Z 0) racing)
                       (js "ab") (Some (of_Z 1)) None (js "ann") true false
                       None None true [] true in
  let n := RaceTimeout (mkTimeout [] None) in
  shownBanners (onNotice lobby n)
  = [ErrorBox (js "Race time limit reached.") false]
  /\ shownBanners (onNotice track n) = [].
Proof.
  intros lobby track n.
  destruct (notices_shown_in_lobby_only track n) as (m & _ & _ & _ & H & _).
  split; [vm_compute; reflexivity | apply H; discriminate].
Defined.

(** X12. The status boxes of the lobby: at least one is always shown; the
    error box is never shown together with the reconnecting box or the
    "Connected" badge, and carries the stored message, with the "Refresh
    Page" button exactly when the message contains "refresh"; the
    "Connecting" box is never shown together with the reconnecting box or
    the badge; and the badge is only shown while connected. *)
Theorem lobby_boxes_exclusive (s : State) :
  banners s <> []
  /\ (forall m b, In (ErrorBox m b) (banners s) ->
        connectionError s = Some m /\ m <> []
        /\ b = includesb m (js "refresh")
        /\ ~ In ReconnectingBox (banners s)
        /\ ~ In ConnectedBox (banners s))
  /\ (In ConnectingBox (banners s) ->
        ~ In ReconnectingBox (banners s) /\ ~ In ConnectedBox (banners s))
  /\ (In ConnectedBox (banners s) ->
        isConnected s = true /\ errorText s = None).
Proof.
  unfold banners.
  assert (He : forall m, errorText s = Some m ->
                         connectionError s = Some m /\ m <> []).
  { unfold errorText. intros m. destruct (connectionError s) as [x|]; [|discriminate].
    destruct x; cbn [nonempty]; [discriminate|].
    intros H. injection H as <-. split; [reflexivity | discriminate]. }
  destruct (errorText s) as [m0|];
    destruct (isConnected s), (isReconnecting s); cbn [negb andb app In];
    (split; [discriminate|]);
    (split; [intros m b H|]);
    try (split; intros H);
    repeat match goal with
           | H : _ \/ _ |- _ => destruct H
           | H : False |- _ => destruct H
           | H : ErrorBox _ _ = ErrorBox _ _ |- _ => injection H as <- <-
           | H : _ = _ |- _ => discriminate H
           end;
    try (destruct (He m0 eq_refl) as [E1 E2]);
    repeat split; try assumption; try reflexivity;
    try (intros [H'|H']; try destruct H' as [H'|H']; try discriminate H';
         try destruct H'; try discriminate).
Qed.

(** X13. Losing and regaining the connection never changes the race:
    every connection event (disconnect, reconnect attempt, reconnect,
    reconnect error, reconnect failure, connect error) leaves the lobby
    state, the race text, the start time, the results, the rank, the
    joined flags and the user name as they were, so the same view stays on
    screen and the typing component stays mounted on the same passage;
    a disconnect makes that component inactive, and a reconnect makes it
    active again unless the client has its rank. *)
Theorem connection_events_keep_race (s : State) (e : ConnectionEvent) :
  let s' := onConnectionEvent s e in
  (lobbyState s' = lobbyState s /\ raceText s' = raceText s
   /\ raceStartTime s' = raceStartTime s /\ raceResults s' = raceResults s
   /\ myRank s' = myRank s /\ hasJoined s' = hasJoined s
   /\ wasInLobby s' = wasInLobby s /\ username_ s' = username_ s
   /\ currentStandings s' = currentStandings s)
  /\ view s' = view s
  /\ option_map TypingInterface.text (typingProps s')
     = option_map TypingInterface.text (typingProps s)
  /\ (forall reason, e = EvDisconnect reason ->
        option_map TypingInterface.isActive (typingProps s')
        = option_map (fun _ => false) (typingProps s))
  /\ (e = EvReconnect ->
        option_map TypingInterface.isActive (typingProps s')
        = option_map (fun _ => negb (ranked s)) (typingProps s)).
Proof.
  intros s'.
  assert (Hf : lobbyState s' = lobbyState s /\ raceText s' = raceText s
               /\ raceStartTime s' = raceStartTime s
               /\ raceResults s' = raceResults s
               /\ myRank s' = myRank s /\ hasJoined s' = hasJoined s
               /\ wasInLobby s' = wasInLobby s /\ username_ s' = username_ s
               /\ currentStandings s' = currentStandings s).
  { unfold s'. destruct e as [reason| | | | |]; cbn [onConnectionEvent];
      try (repeat split; reflexivity).
    unfold onDisconnect. destruct (str_eqb reason ioServerDisconnect);
      repeat split; reflexivity. }
  destruct Hf as (H1 & H2 & H3 & H4 & H5 & H6 & H7 & H8 & H9).
  assert (Hv : view s' = view s) by (unfold view; now rewrite H1, H4).
  assert (Hr : ranked s' = ranked s) by (unfold ranked; now rewrite H5).
  split; [repeat split; assumption|].
  split; [exact Hv|].
  unfold typingProps. rewrite Hv, H1, H2, Hr.
  split; [|split].
  - destruct (view s); try reflexivity.
    destruct (_ && _); reflexivity.
  - intros reason ->.
    assert (Hc : isConnected s' = false).
    { unfold s'. cbn [onConnectionEvent]. unfold onDisconnect.
      destruct (str_eqb reason ioServerDisconnect); reflexivity. }
    rewrite Hc. destruct (view s); try reflexivity.
    destruct (_ && _); cbn [option_map TypingInterface.isActive];
      [now rewrite andb_false_r | reflexivity].
  - intros ->. change (isConnected s') with true.
    destruct (view s); try reflexivity.
    destruct (_ && _); cbn [option_map TypingInterface.isActive];
      [now rewrite andb_true_r | reflexivity].
Qed.

(** A racing client loses the transport and gets it back. *)
Lemma connection_events_keep_race_witness :
  let s := mkState (Some (js "sock")) (mkLobby [] (of_Z 0) racing) (js "ab")
                   (Some (of_Z 1)) None (js "ann") true false None None
                   true [] true in
  let down := onConnectionEvent s (EvDisconnect (js "transport close")) in
  let up := onConnectionEvent down EvReconnect in
  typingProps down = Some (TypingInterface.mkProps (js "ab") false)
  /\ typingProps up = Some (TypingInterface.mkProps (js "ab") true)
  /\ option_map TypingInterface.isActive (typingProps up)
     = option_map (fun _ => negb (ranked down)) (typingProps down).
Proof.
  intros s down up.
  split; [reflexivity|]. split; [reflexivity|].
  exact (proj2 (proj2 (proj2 (proj2
           (connection_events_keep_race down EvReconnect)))) eq_refl).
Defined.

(** X14. What a race start brings on screen: with no results stored and
    a passage that is not empty, the race track with the typing component
    on that passage, active when the client is connected and has no rank;
    while results are stored, the results screen stays and the typing
    component is not mounted. *)
Theorem race_start_view (s : State) (txt : jsstring) (t : option number) :
  let s' := onRaceStart s txt t in
  (raceResults s = None -> txt <> [] ->
   view s' = RaceTrackView
   /\ typingProps s'
      = Some (TypingInterface.mkProps txt (negb (ranked s) && isConnected s)))
  /\ (raceResults s <> None ->
      view s' = ResultsView /\ typingProps s' = None).
Proof.
  intros s'. unfold s', typingProps, view, onRaceStart.
  cbn [raceResults lobbyState status raceText isConnected].
  split.
  - intros -> Hne. cbn [status_eqb]. split; [reflexivity|].
    destruct txt; [contradiction | reflexivity].
  - intros Hne. destruct (raceResults s); [split; reflexivity | contradiction].
Qed.

(** After "Race Again", the next race start mounts the typing component,
    active. *)
Lemma race_start_view_witness :
  let s := mkState (Some (js "sock")) (mkLobby [] (of_Z 0) finished)
                   (js "ab") (Some (of_Z 1)) (Some (mkResults [] true))
                   (js "ann") true false None (Some (of_Z 1)) true [] true in
  let s' := onRaceStart (fst (raceAgainClick s)) (js "cd") (Some (of_Z 9)) in
  view s' = RaceTrackView
  /\ typingProps s' = Some (TypingInterface.mkProps (js "cd") true).
Proof.
  intros s.
  apply (proj1 (race_start_view (fst (raceAgainClick s)) (js "cd")
                  (Some (of_Z 9)))); [reflexivity | discriminate].
Defined.

End ClientExtras.

(* ================================================================== *)
(** * Properties of the results screen *)
(* ================================================================== *)

Module ResultsFacts.
Import JsNum JsStr JsNumFacts ResultsScreen.

Lemma geb_weaken (x : number) (hi lo : Z) :
  (lo <= hi)%Z -> geb x (of_Z hi) = true -> geb x (of_Z lo) = true.
Proof.
  unfold geb. intros Hle H.
  apply (@leb_trans (of_Z lo) (of_Z hi) x); [|exact H].
  unfold leb, of_Z. apply Qle_bool_iff. now rewrite <- Zle_Qle.
Qed.

Lemma colours_distinct :
  green <> yellow /\ green <> orange /\ green <> red
  /\ yellow <> orange /\ yellow <> red /\ orange <> red.
Proof. repeat split; discriminate. Qed.

Lemma messages_distinct :
  excellentMsg <> greatMsg /\ excellentMsg <> goodMsg
  /\ excellentMsg <> keepMsg /\ greatMsg <> goodMsg
  /\ greatMsg <> keepMsg /\ goodMsg <> keepMsg.
Proof. repeat split; discriminate. Qed.

(** X15. The headline of the results screen agrees with the colours of
    the two figures, for all numbers, NaN included: it is the "Excellent"
    message exactly when both the words per minute and the accuracy are
    shown in green; "Great job" exactly when both are green or yellow but
    not both green; "Good progress" exactly when neither is red and at
    least one is orange; and "Keep practicing" exactly when at least one
    is red. *)
Theorem message_follows_colours (w a : number) :
  let wc := getWPMColor w in
  let ac := getAccuracyColor a in
  let msg := getPerformanceMessage w a in
  (msg = excellentMsg <-> wc = green /\ ac = green)
  /\ (msg = greatMsg <->
      (wc = green \/ wc = yellow) /\ (ac = green \/ ac = yellow)
      /\ ~ (wc = green /\ ac = green))
  /\ (msg = goodMsg <->
      wc <> red /\ ac <> red /\ (wc = orange \/ ac = orange))
  /\ (msg = keepMsg <-> wc = red \/ ac = red).
Proof.
  intros wc ac msg. unfold wc, ac, msg.
  unfold getWPMColor, getAccuracyColor, getPerformanceMessage.
  pose proof (@geb_weaken w 80 60 ltac:(lia)) as W1.
  pose proof (@geb_weaken w 60 40 ltac:(lia)) as W2.
  pose proof (@geb_weaken a 95 90 ltac:(lia)) as A1.
  pose proof (@geb_weaken a 90 80 ltac:(lia)) as A2.
  destruct colours_distinct as (C1 & C2 & C3 & C4 & C5 & C6).
  destruct messages_distinct as (M1 & M2 & M3 & M4 & M5 & M6).
  destruct (geb w (of_Z 80)); [specialize (W1 eq_refl)|clear W1];
    (destruct (geb w (of_Z 60)); [specialize (W2 eq_refl)|clear W2]);
    try discriminate;
    (destruct (geb w (of_Z 40)); try discriminate);
    (destruct (geb a (of_Z 95)); [specialize (A1 eq_refl)|clear A1]);
    (destruct (geb a (of_Z 90)); [specialize (A2 eq_refl)|clear A2]);
    try discriminate;
    (destruct (geb a (of_Z 80)); try discriminate);
    cbn [andb]; cbv iota;
    repeat split; intros; try tauto; try congruence;
    intuition congruence.
Qed.

Lemma ltb_negb_leb (x y : number) :
  isNaN x = false -> isNaN y = false -> ltb x y = negb (leb y x).
Proof. destruct x, y; cbn; congruence. Qed.

(** X16. The two conditional tips agree with the colours, for figures
    that are numbers: the accuracy tip is shown exactly when the accuracy
    is orange or red, the practice tip exactly when the words per minute
    are orange or red. *)
Theorem tips_follow_colours (w a : number) :
  isNaN w = false -> isNaN a = false ->
  (accuracyTip a = true <->
   getAccuracyColor a = orange \/ getAccuracyColor a = red)
  /\ (practiceTip w = true <->
      getWPMColor w = orange \/ getWPMColor w = red).
Proof.
  intros Hw Ha. unfold accuracyTip, practiceTip.
  rewrite (ltb_negb_leb a (of_Z 90) Ha eq_refl).
  rewrite (ltb_negb_leb w (of_Z 60) Hw eq_refl).
  unfold getAccuracyColor, getWPMColor.
  pose proof (@geb_weaken w 80 60 ltac:(lia)) as W1.
  pose proof (@geb_weaken a 95 90 ltac:(lia)) as A1.
  destruct colours_distinct as (C1 & C2 & C3 & C4 & C5 & C6).
  unfold geb in *.
  split.
  - destruct (leb (of_Z 95) a); [specialize (A1 eq_refl)|clear A1];
      destruct (leb (of_Z 90) a); try discriminate;
      destruct (leb (of_Z 80) a); cbn [negb];
      split; intros; try tauto; try congruence; intuition congruence.
  - destruct (leb (of_Z 80) w); [specialize (W1 eq_refl)|clear W1];
      destruct (leb (of_Z 60) w); try discriminate;
      destruct (leb (of_Z 40) w); cbn [negb];
      split; intros; try tauto; try congruence; intuition congruence.
Qed.

(** 72 words per minute at 85 percent: yellow and orange, "Good
    progress", and the accuracy tip only. *)
Lemma tips_follow_colours_witness :
  (accuracyTip (of_Z 85) = true <->
   getAccuracyColor (of_Z 85) = orange \/ getAccuracyColor (of_Z 85) = red)
  /\ (practiceTip (of_Z 72) = true <->
      getWPMColor (of_Z 72) = orange \/ getWPMColor (of_Z 72) = red).
Proof.
  apply (@tips_follow_colours (of_Z 72) (of_Z 85)); reflexivity.
Defined.

End ResultsFacts.

(* ================================================================== *)
(** * Properties of the application shell *)
(* ================================================================== *)

Module AppFacts.
Import JsNum JsStr JsNumFacts NumExtras App.
Local Open Scope Q_scope.

Lemma rnd64_below_eight :
  rnd64 (9007199254740991 # 1125899906842624)
  = Fin (9007199254740991 # 1125899906842624).
Proof. vm_compute. reflexivity. Qed.

(** [Math.floor(Math.random() * 8)] is an integer from 0 to 7. *)
Lemma random_index (r : number) :
  randomValue r ->
  exists k : Z,
    Math_floor (fmul r (of_nat 8)) = Fin (inject_Z k) /\ (0 <= k <= 7)%Z.
Proof.
  intros (q & -> & Hrep & H0 & H1).
  pose proof (representable_below_one Hrep H0 H1) as Hq.
  rewrite pow2_m53 in Hq.
  unfold fmul, of_nat, of_Z.
  change (inject_Z (Z.of_nat 8)) with (8 # 1).
  destruct (@rnd64_between (q * (8 # 1))
              (9007199254740991 # 1125899906842624)
              (9007199254740991 # 1125899906842624))
    as (x & Ex & X0 & X1); [lra | lra | exact rnd64_below_eight |].
  rewrite Ex. cbn [Math_floor]. exists (Qfloor x). split; [reflexivity|].
  split.
  - change 0%Z with (Qfloor 0). now apply Qfloor_resp_le.
  - pose proof (Qfloor_le x) as Hf.
    assert (Hlt : inject_Z (Qfloor x) < inject_Z 8).
    { change (inject_Z 8) with (8 # 1). lra. }
    rewrite <- Zlt_Qlt in Hlt. lia.
Qed.

Lemma arrayAt_int (A : Type) (xs : list A) (k : Z) :
  (0 <= k)%Z -> arrayAt xs (Fin (inject_Z k)) = nth_error xs (Z.to_nat k).
Proof.
  intros Hk. unfold arrayAt. rewrite Qfloor_Z.
  assert (E : Qeq_bool (inject_Z k) (inject_Z k) = true)
    by (apply Qeq_bool_iff; reflexivity).
  rewrite E. destruct (Z.leb_spec 0 k); [reflexivity | lia].
Qed.

Lemma samples_long :
  forallb (fun t => (2 <=? length t)%nat) sampleTexts = true.
Proof. vm_compute. reflexivity. Qed.

Lemma startSoloTest_sample (s : State) (r : number) :
  randomValue r ->
  exists t,
    startSoloTest s r = mkState Typing (Some t) (results s)
    /\ In t sampleTexts /\ (2 <= length t)%nat.
Proof.
  intros Hr. unfold startSoloTest.
  change (length sampleTexts) with 8%nat.
  destruct (random_index Hr) as (k & Ek & Hk).
  rewrite Ek, arrayAt_int by lia.
  destruct (nth_error sampleTexts (Z.to_nat k)) as [t|] eqn:En.
  - exists t. split; [reflexivity|].
    pose proof (nth_error_In _ _ En) as Hin. split; [exact Hin|].
    pose proof samples_long as Hl. rewrite forallb_forall in Hl.
    apply Nat.leb_le. now apply Hl.
  - exfalso. apply nth_error_None in En.
    change (length sampleTexts) with 8%nat in En. lia.
Qed.

(** X17. Starting a practice test always finds a passage: for every
    value [Math.random()] can return (a binary64 value from 0 up to, not
    including, 1) the index [Math.floor(random * 8)] falls within the
    eight sample passages, so the test text is one of them, never
    [undefined], and the practice screen is shown. *)
Theorem solo_text_is_sample (s : State) (r : number) :
  randomValue r ->
  exists t,
    testText (startSoloTest s r) = Some t
    /\ In t sampleTexts /\ t <> []
    /\ appState (startSoloTest s r) = Typing
    /\ typingProps (startSoloTest s r)
       = Some (TypingInterface.mkProps t true).
Proof.
  intros Hr. destruct (startSoloTest_sample s Hr) as (t & E & Hin & Hl).
  exists t. rewrite E. repeat split; try assumption.
  intros ->. cbn in Hl. lia.
Qed.

(** The largest value below 1, [1 - 2^-53], picks the last passage. *)
Lemma solo_text_is_sample_witness :
  let r := Fin (9007199254740991 # 9007199254740992) in
  exists t,
    testText (startSoloTest initial r) = Some t
    /\ In t sampleTexts /\ t <> []
    /\ appState (startSoloTest initial r) = Typing
    /\ typingProps (startSoloTest initial r)
       = Some (TypingInterface.mkProps t true).
Proof.
  intros r. apply (@solo_text_is_sample initial r).
  exists (9007199254740991 # 9007199254740992).
  split; [reflexivity|].
  split; [eexists; split; [vm_compute; reflexivity | reflexivity]|].
  split; [discriminate | reflexivity].
Defined.

Lemma handle_ok (s : State) (e : Event) :
  possible e -> reachable_ok s -> reachable_ok (handle s e).
Proof.
  intros He [H1 H2]. destruct e as [r|stats|r| |]; cbn [handle possible] in *.
  - destruct (startSoloTest_sample s He) as (t & E & Hin & _). rewrite E.
    split; [intros _; now exists t | discriminate].
  - split; [discriminate | intros _; discriminate].
  - unfold handleRestart.
    destruct (startSoloTest_sample
                (mkState (appState s) (testText s) None) He)
      as (t & E & Hin & _).
    rewrite E. split; [intros _; now exists t | discriminate].
  - split; discriminate.
  - split; discriminate.
Qed.

Lemma run_ok (es : list Event) :
  forall s, Forall possible es -> reachable_ok s ->
            reachable_ok (fold_left handle es s).
Proof.
  induction es as [|e es IH]; intros s Hes Hs; [exact Hs|].
  inversion Hes as [|? ? He Hrest]; subst. cbn [fold_left].
  apply IH; [exact Hrest | now apply handle_ok].
Qed.

(** X18. No screen of the shell is ever empty: after any sequence of
    clicks and completed tests, in any order, whenever the practice screen
    is shown the typing component is mounted, active, on one of the sample
    passages, and whenever the results screen is shown there are
    statistics to render. *)
Theorem screens_have_content (es : list Event) :
  Forall possible es ->
  let s := fold_left handle es initial in
  (appState s = Typing ->
   exists t, typingProps s = Some (TypingInterface.mkProps t true)
             /\ In t sampleTexts)
  /\ (appState s = Results -> exists st, shownResults s = Some st).
Proof.
  intros Hes s.
  assert (H0 : reachable_ok initial) by (split; discriminate).
  destruct (run_ok Hes H0) as [H1 H2]. fold s in H1, H2.
  unfold typingProps, shownResults. split.
  - intros E. destruct (H1 E) as (t & Et & Hin). rewrite E, Et. now exists t.
  - intros E. specialize (H2 E). rewrite E.
    destruct (results s) as [st|]; [now exists st | contradiction].
Qed.

(** Three tests started, one completed, one restart and a visit to the
    race mode in between. *)
Lemma screens_have_content_witness :
  let half := Fin (1 # 2) in
  let st := TypingInterface.initialStats in
  let es := [StartSolo half; BackHome; JoinRace; BackHome; StartSolo half;
             TestComplete st; Restart half] in
  let s := fold_left handle es initial in
  (appState s = Typing ->
   exists t, typingProps s = Some (TypingInterface.mkProps t true)
             /\ In t sampleTexts)
  /\ (appState s = Results -> exists st, shownResults s = Some st).
Proof.
  intros half st es.
  apply (@screens_have_content es).
  assert (Hh : randomValue half).
  { exists (1 # 2). split; [reflexivity|].
    split; [eexists; split; [vm_compute; reflexivity | reflexivity]|].
    split; [discriminate | reflexivity]. }
  repeat constructor; exact Hh.
Defined.

Lemma soloKeys_silent (s : State) (p : TypingInterface.Props)
    (ks : list TypingInterface.KeyPress) :
  typingProps s = Some p ->
  forall ti,
    snd (TypingInterface.run p ti ks) = [] ->
    soloKeys (s, ti) ks = (s, fst (TypingInterface.run p ti ks)).
Proof.
  intros Hp. unfold soloKeys.
  induction ks as [|k ks IH]; intros ti Hs; [reflexivity|].
  cbn [fold_left TypingInterface.run soloKey] in *. rewrite Hp.
  destruct (TypingInterface.press p ti k) as [ti1 ev1].
  specialize (IH ti1).
  destruct (TypingInterface.run p ti1 ks) as [ti2 ev2]. cbn [fst snd] in *.
  apply app_eq_nil in Hs. destruct Hs as [-> ->].
  cbn [fold_left]. now apply IH.
Qed.

Lemma soloKeys_app (st : State * TypingInterface.State)
    (a b : list TypingInterface.KeyPress) :
  soloKeys st (a ++ b) = soloKeys (soloKeys st a) b.
Proof. unfold soloKeys. apply fold_left_app. Qed.

(** X19. A practice test runs to its results: once a test is started,
    typing as many characters as the passage has, right or wrong, brings
    up the results screen, with statistics that count every character of
    the passage as typed and as correct those that match it. *)
Theorem solo_practice_completes (s : State) (r : number) (t : jsstring)
    (ks : list TypingInterface.KeyPress) :
  randomValue r ->
  testText (startSoloTest s r) = Some t ->
  Forall TypingInterface.typedKey ks -> length ks = length t ->
  exists st,
    fst (soloKeys (startSoloTest s r, TypingInterface.init t) ks)
    = mkState Results (Some t) (Some st)
    /\ shownResults (mkState Results (Some t) (Some st)) = Some st
    /\ TypingInterface.totalChars st = Z.of_nat (length t)
    /\ TypingInterface.correctChars st
       = Z.of_nat (TypingInterface.countCorrect t (TypingInterface.typedBy ks)).
Proof.
  intros Hr Ht Hks Hlen.
  destruct (startSoloTest_sample s Hr) as (t' & E & _ & Hl).
  rewrite E in Ht |- *. cbn [testText] in Ht. injection Ht as ->.
  set (s0 := mkState Typing (Some t) (results s)).
  set (p := TypingInterface.mkProps t true).
  assert (Hp : typingProps s0 = Some p) by reflexivity.
  destruct (@TypingFacts.run_typing_all p ks eq_refl Hks Hlen)
    as (st & Hev & Htot & Hcor); [cbn [TypingInterface.text p] in *; lia|].
  cbn [TypingInterface.text p] in Hev, Htot, Hcor.
  destruct (@exists_last _ ks) as (ks' & k & Eks).
  { intro Eks. subst ks. cbn in Hlen. lia. }
  subst ks. apply Forall_app in Hks. destruct Hks as [Hks' _].
  rewrite length_app in Hlen. cbn [length] in Hlen.
  destruct (@TypingFacts.run_typing_prefix p ks' (TypingInterface.init t)
              eq_refl Hks') as (Hsil & _).
  { cbn. lia. }
  rewrite TypingFacts.run_app in Hev.
  rewrite soloKeys_app, (@soloKeys_silent s0 p ks' Hp _ Hsil).
  destruct (TypingInterface.run p (TypingInterface.init t) ks')
    as [ti1 ev1]. cbn [fst snd] in *. subst ev1.
  cbn [TypingInterface.run] in Hev.
  unfold soloKeys. cbn [fold_left soloKey]. rewrite Hp.
  destruct (TypingInterface.press p ti1 k) as [ti2 ev2].
  cbn [snd app] in Hev. rewrite app_nil_r in Hev. subst ev2.
  exists st. cbn [fold_left typingEvent fst].
  repeat split; assumption.
Qed.

Lemma keys_typed (l : jsstring) (t : number) :
  truthy t = true ->
  Forall TypingInterface.typedKey
         (map (fun c => TypingInterface.mkKey [c] t t t) l).
Proof.
  intros Ht. induction l as [|c l IH]; constructor; [|exact IH].
  split; [now exists c | exact Ht].
Qed.

(** The draw 1/2 picks the fifth passage; typing it letter by letter
    brings up the results. *)
Lemma solo_practice_completes_witness :
  let r := Fin (1 # 2) in
  let t := js "In the beginning was the Word, and the Word was with God, and the Word was God. He was with God in the beginning." in
  let ks := map (fun c => TypingInterface.mkKey [c] (of_Z 1000) (of_Z 1000)
                            (of_Z 1000)) t in
  exists st,
    fst (soloKeys (startSoloTest initial r, TypingInterface.init t) ks)
    = mkState Results (Some t) (Some st)
    /\ shownResults (mkState Results (Some t) (Some st)) = Some st
    /\ TypingInterface.totalChars st = Z.of_nat (length t)
    /\ TypingInterface.correctChars st
       = Z.of_nat (TypingInterface.countCorrect t (TypingInterface.typedBy ks)).
Proof.
  intros r t ks.
  apply (@solo_practice_completes initial r t ks).
  - exists (1 # 2). split; [reflexivity|].
    split; [eexists; split; [vm_compute; reflexivity | reflexivity]|].
    split; [discriminate | reflexivity].
  - vm_compute. reflexivity.
  - apply keys_typed. reflexivity.
  - unfold ks. now rewrite length_map.
Defined.

End AppFacts.
